(** * jx-gitops: the Jenkins job generator and the YAML renamer

    A shallow embedding of [pkg/cmd/rename/rename.go] and
    [pkg/cmd/jenkins/jobs/jobs.go], and the properties of the two commands.

    Go strings are byte strings: they are [string] (a list of 8-bit [ascii]).
    Go maps are [gmap]; a [nil] map is [None].  Everything the commands ask of
    the operating system or of another package goes through an interface
    ([rename.Externals], [jobs.Externals]); the calls that read or change the
    file system, and the messages logged, are recorded in a trace, in the
    order the command makes them. *)

From Stdlib Require Import Ascii String.
From stdpp Require Import base option list gmap strings sorting.

(** ** Go's [strings] package, the part the commands use *)
Module gostrings.

(** [strings.Join(elems, sep)] *)
Fixpoint Join (elems : list string) (sep : string) : string :=
  match elems with
  | [] => ""
  | [e] => e
  | e :: es => e +:+ sep +:+ Join es sep
  end.

(** [strings.HasSuffix(s, suffix)]:
    [len(s) >= len(suffix) && s[len(s)-len(suffix):] == suffix] *)
Definition HasSuffix (s suffix : string) : bool :=
  bool_decide (String.length suffix ≤ String.length s) &&
  bool_decide
    (substring (String.length s - String.length suffix) (String.length suffix) s
     = suffix).

(** [strings.ToLower] on the ASCII letters; the other bytes are kept.  This is
    what Go computes on a string of ASCII bytes.  The commands take their
    lower-casing function from their interface, and this is the instance the
    examples run with. *)
Definition lowerByte (c : ascii) : ascii :=
  let n := nat_of_ascii c in
  if bool_decide (65 ≤ n ≤ 90) then ascii_of_nat (n + 32) else c.

Fixpoint ToLowerASCII (s : string) : string :=
  match s with
  | "" => ""
  | String c rest => String (lowerByte c) (ToLowerASCII rest)
  end.

End gostrings.

(** ** Go's [path/filepath] on Unix *)
Module filepath.

Definition Separator : ascii := "/"%char.

Definition IsPathSeparator (c : ascii) : bool := bool_decide (c = Separator).

(** The elements of a path: the byte runs between separators, the empty ones
    included, as [Clean] scans them from left to right. *)
Fixpoint elements (path : string) : list string :=
  match path with
  | "" => [""]
  | String c rest =>
      if IsPathSeparator c then "" :: elements rest
      else match elements rest with
           | e :: es => String c e :: es
           | [] => [String c ""]
           end
  end.

(** One turn of the loop of [Clean].  [out] is the buffer, as the elements
    written so far; [dotdot] is how many of them [..] must leave alone (in Go
    an index into the buffer: past the leading slash, or past a leading
    [../..]). *)
Definition cleanStep (rooted : bool) (st : list string * nat) (e : string)
  : list string * nat :=
  let '(out, dotdot) := st in
  if decide (e = "") then st                       (* empty path element *)
  else if decide (e = ".") then st                 (* . element *)
  else if decide (e = "..") then                   (* .. element *)
    if decide (dotdot < length out) then (removelast out, dotdot)
    else if rooted then st
    else (out ++ [".."], S (length out))
  else (out ++ [e], dotdot).                       (* real path element *)

Definition isRooted (path : string) : bool :=
  match path with
  | String c _ => IsPathSeparator c
  | "" => false
  end.

Definition render (rooted : bool) (out : list string) : string :=
  (if rooted then "/" else "") +:+ gostrings.Join out "/".

(** [filepath.Clean] *)
Definition Clean (path : string) : string :=
  if decide (path = "") then "."
  else
    let rooted := isRooted path in
    let s := render rooted (foldl (cleanStep rooted) ([], 0) (elements path)).1 in
    if decide (s = "") then "." else s.

(** [filepath.Join]: the elements from the first non-empty one on, joined with
    the separator and cleaned; the empty string when all are empty. *)
Fixpoint Join (elem : list string) : string :=
  match elem with
  | [] => ""
  | e :: rest =>
      if decide (e = "") then Join rest
      else Clean (gostrings.Join elem "/")
  end.

(** [filepath.Split]: [i] runs down from the last byte to the last separator;
    the result is [path[:i+1], path[i+1:]].  [before] is [path[:i+1]] read
    backwards and [file] is [path[i+1:]]. *)
Fixpoint splitScan (before : list ascii) (file : string) : string * string :=
  match before with
  | [] => ("", file)
  | c :: more =>
      if IsPathSeparator c then (string_of_list_ascii (rev before), file)
      else splitScan more (String c file)
  end.

Definition Split (path : string) : string * string :=
  splitScan (rev (list_ascii_of_string path)) "".

(** [filepath.Ext]: [i] runs down from the last byte while [path[i]] is not a
    separator, and [path[i:]] is returned at the first dot. *)
Fixpoint extScan (before : list ascii) (after : string) : string :=
  match before with
  | [] => ""
  | c :: more =>
      if IsPathSeparator c then ""
      else if bool_decide (c = "."%char) then String c after
      else extScan more (String c after)
  end.

Definition Ext (path : string) : string :=
  extScan (rev (list_ascii_of_string path)) "".

(** A string with no separator in it: one path element at most. *)
Definition noSeparator (s : string) : Prop :=
  Forall (λ c, c ≠ Separator) (list_ascii_of_string s).

(** A path element that [Clean] keeps as it is. *)
Definition plainElement (e : string) : Prop :=
  e ≠ "" ∧ e ≠ "." ∧ e ≠ ".." ∧ noSeparator e.

End filepath.

(** ** Errors, as [github.com/pkg/errors] builds them *)
Module errors.

(** [New] is an error with a message (from [errors.Errorf], or handed back by
    the operating system or a library); [Wrap] is [errors.Wrapf] around a
    cause. *)
Inductive error :=
  | New (msg : string)
  | Wrap (cause : error) (msg : string).

(** [err.Error()]: a wrapped error prints its message, a colon and its cause. *)
Fixpoint Error (e : error) : string :=
  match e with
  | New msg => msg
  | Wrap cause msg => msg +:+ ": " +:+ Error cause
  end.

(** [errors.Cause]: the innermost error. *)
Fixpoint Cause (e : error) : error :=
  match e with
  | New msg => New msg
  | Wrap cause _ => Cause cause
  end.

End errors.
Export errors.

(** ** Running a command: state, error return, panic

    A command is a function of a state [S] (its own variables, the world and
    the trace).  It ends by returning normally, by returning a Go error, by a
    run-time panic, or, for the directory walk whose depth the file tree
    decides, by running out of fuel. *)
Inductive result (A : Type) :=
  | Done (a : A)
  | Failed (e : error)
  | Panicked (msg : string)
  | OutOfFuel.
Arguments Done {A} a.
Arguments Failed {A} e.
Arguments Panicked {A} msg.
Arguments OutOfFuel {A}.

Definition M (S A : Type) : Type := S → result A * S.

Definition ret {S A} (a : A) : M S A := λ s, (Done a, s).

Definition bind {S A B} (m : M S A) (k : A → M S B) : M S B :=
  λ s, match m s with
       | (Done a, s') => k a s'
       | (Failed e, s') => (Failed e, s')
       | (Panicked msg, s') => (Panicked msg, s')
       | (OutOfFuel, s') => (OutOfFuel, s')
       end.

(** [return err] with [err != nil] *)
Definition fail {S A} (e : error) : M S A := λ s, (Failed e, s).

Definition panic {S A} (msg : string) : M S A := λ s, (Panicked msg, s).

(** [if err != nil { return errors.Wrapf(err, msg) }] around a call *)
Definition wrapf {S A} (m : M S A) (msg : string) : M S A :=
  λ s, match m s with
       | (Failed e, s') => (Failed (Wrap e msg), s')
       | r => r
       end.

#[export] Instance M_ret {S} : MRet (M S) := @ret S.
#[export] Instance M_bind {S} : MBind (M S) := λ A B k m, bind m k.
#[export] Instance M_throw {S} : MThrow error (M S) := @fail S.

(** A [for ... range] over a slice, with [return err] leaving the loop. *)
Fixpoint forRange {S A} (l : list A) (body : A → M S unit) : M S unit :=
  match l with
  | [] => ret tt
  | x :: rest => body x ;; forRange rest body
  end.

(** ** [pkg/cmd/rename] *)
Module rename.

(** [os.FileInfo], as far as the command reads it *)
Record FileInfo := { IsDir : bool }.

(** The packages and system calls the command relies on. *)
Class Externals := {
  (** the state of the file system *)
  World : Type;
  (** a parsed YAML document, [*yaml.RNode] *)
  RNode : Type;
  (** [strings.ToLower] *)
  ToLower : string → string;
  (** [os.Lstat] *)
  Lstat : World → string → error + FileInfo;
  (** [readDirNames] of [path/filepath]: the sorted names in a directory *)
  readDirNames : World → string → error + list string;
  (** [yaml.ReadFile] of kyaml *)
  ReadFile : World → string → error + RNode;
  (** [kyamls.GetName] and [kyamls.GetKind]; the path is for their own logging *)
  GetName : RNode → string → string;
  GetKind : RNode → string → string;
  (** [os.Rename] *)
  Rename : World → string → string → option error * World;
}.

(** What the command does to the outside, in order; a parse and a rename are
    recorded with the error they gave. *)
Inductive event :=
  | EvLstat (path : string)
  | EvReadDir (path : string)
  | EvReadFile (path : string) (err : option error)
  | EvRename (oldpath newpath : string) (err : option error)
  | EvInfo (msg : string)
  | EvWarn (msg : string).

(** [Options] *)
Record Options := { Dir : string }.

(** [kindSuffixes] *)
Definition kindSuffixes : gmap string string :=
  list_to_map [
    ("clusterrolebinding", "crb");
    ("configmap", "cm");
    ("customresourcedefinition", "crd");
    ("deployment", "deploy");
    ("mutatingwebhookconfiguration", "mutwebhookcfg");
    ("namespace", "ns");
    ("rolebinding", "rb");
    ("service", "svc");
    ("serviceaccount", "sa");
    ("validatingwebhookconfiguration", "valwebhookcfg")
  ].

Section Rename.
Context `{Externals}.

Record state := { world : World; trace : list event }.

Definition emit (e : event) : M state unit :=
  λ s, (Done tt, {| world := world s; trace := trace s ++ [e] |}).

Definition lstat (path : string) : M state (error + FileInfo) :=
  λ s, (Done (Lstat (world s) path),
        {| world := world s; trace := trace s ++ [EvLstat path] |}).

Definition readDir (path : string) : M state (error + list string) :=
  λ s, (Done (readDirNames (world s) path),
        {| world := world s; trace := trace s ++ [EvReadDir path] |}).

Definition yamlReadFile (path : string) : M state RNode :=
  λ s, match ReadFile (world s) path with
       | inl err =>
           (Failed err, {| world := world s;
                           trace := trace s ++ [EvReadFile path (Some err)] |})
       | inr node =>
           (Done node, {| world := world s;
                          trace := trace s ++ [EvReadFile path None] |})
       end.

Definition osRename (oldpath newpath : string) : M state unit :=
  λ s, let '(err, w) := Rename (world s) oldpath newpath in
       let s' := {| world := w;
                    trace := trace s ++ [EvRename oldpath newpath err] |} in
       match err with
       | Some e => (Failed e, s')
       | None => (Done tt, s')
       end.

(** [Options.canonicalName] *)
Definition canonicalName (kind name : string) : string :=
  let lk := ToLower kind in
  let suffix := default "" (kindSuffixes !! lk) in
  let suffix := if decide (suffix = "") then lk else suffix in
  if decide (kind = "") then name
  else name +:+ "-" +:+ suffix.

(** The path the function literal of [Run] computes for a file. *)
Definition newPathOf (path kind name : string) : string :=
  let '(dir, file) := filepath.Split path in
  let ext := filepath.Ext path in
  let cn := canonicalName kind name in
  let newFile := cn +:+ ext in
  filepath.Join [dir; newFile].

(** The function literal [Run] hands to [filepath.Walk].  Its third
    parameter, the error of the walk, is shadowed before it is read. *)
Definition walkFn (path : string) (info : option FileInfo) (err : option error)
  : M state unit :=
  match info with
  | None => ret tt
  | Some fi =>
    if IsDir fi then ret tt
    else if negb (gostrings.HasSuffix path ".yaml")
            && negb (gostrings.HasSuffix path ".yml") then ret tt
    else
      node ← wrapf (yamlReadFile path) ("failed to load file " +:+ path);
      let name := GetName node path in
      if decide (name = "") then
        emit (EvWarn ("no name for file " +:+ path +:+ " so ignoring"))
      else
        let kind := GetKind node path in
        let '(dir, file) := filepath.Split path in
        let ext := filepath.Ext path in
        let cn := canonicalName kind name in
        let newFile := cn +:+ ext in
        let newPath := filepath.Join [dir; newFile] in
        if decide (newPath ≠ path) then
          emit (EvInfo ("renaming " +:+ file +:+ " => " +:+ newFile)) ;;
          wrapf (osRename path newPath)
                ("failed to rename " +:+ file +:+ " to " +:+ newFile)
        else ret tt
  end.

(** [walk] of [path/filepath].  The function it is given never returns
    [SkipDir], so an error it returns always ends the walk.  The file tree
    decides the depth of the recursion: [fuel] bounds it. *)
Fixpoint walk (fuel : nat) (path : string) (info : FileInfo)
    (fn : string → option FileInfo → option error → M state unit)
  : M state unit :=
  match fuel with
  | 0 => λ s, (OutOfFuel, s)
  | S fuel =>
    if negb (IsDir info) then fn path (Some info) None
    else
      r ← readDir path;
      match r with
      | inl err => fn path (Some info) (Some err)
      | inr names =>
          fn path (Some info) None ;;
          forRange names (λ name,
            let filename := filepath.Join [path; name] in
            r ← lstat filename;
            match r with
            | inl err => fn filename None (Some err)
            | inr fileInfo => walk fuel filename fileInfo fn
            end)
      end
  end.

(** [filepath.Walk] *)
Definition Walk (fuel : nat) (root : string)
    (fn : string → option FileInfo → option error → M state unit)
  : M state unit :=
  r ← lstat root;
  match r with
  | inl err => fn root None (Some err)
  | inr info => walk fuel root info fn
  end.

(** [Options.Run] *)
Definition Run (fuel : nat) (o : Options) : M state unit :=
  wrapf (Walk fuel (Dir o) walkFn)
        ("failed to rename YAML files in dir " +:+ Dir o).

End Rename.
End rename.

(** ** An in-memory file tree for the renamer

    The instance of [rename.Externals] the examples run on: a map from clean
    paths to directories and YAML files.  A YAML file is held parsed, as its
    [kind] and [metadata.name], or is marked as one that does not parse. *)
Module renamesim.
Import rename.

Inductive file :=
  | Directory
  | Manifest (kind name : string)
  | Unparsable.

Definition noEntry (op path : string) : error :=
  New (op +:+ " " +:+ path +:+ ": no such file or directory").

Definition Lstat (w : gmap string file) (path : string) : error + FileInfo :=
  match w !! filepath.Clean path with
  | Some Directory => inr {| IsDir := true |}
  | Some _ => inr {| IsDir := false |}
  | None => inl (noEntry "lstat" path)
  end.

Definition readDirNames (w : gmap string file) (path : string)
  : error + list string :=
  match w !! filepath.Clean path with
  | Some Directory =>
      inr (merge_sort String.le
             (omap (λ k, let name := (filepath.Split k).2 in
                         if decide (k ≠ filepath.Clean path ∧ name ≠ ""
                                    ∧ filepath.Join [path; name] = k)
                         then Some name else None)
                   (map_to_list w).*1))
  | Some _ => inl (New ("open " +:+ path +:+ ": not a directory"))
  | None => inl (noEntry "open" path)
  end.

Definition ReadFile (w : gmap string file) (path : string)
  : error + (string * string) :=
  match w !! filepath.Clean path with
  | Some (Manifest kind name) => inr (kind, name)
  | Some Unparsable => inl (New "yaml: did not find expected node content")
  | Some Directory => inl (New ("read " +:+ path +:+ ": is a directory"))
  | None => inl (noEntry "open" path)
  end.

Definition Rename (w : gmap string file) (oldpath newpath : string)
  : option error * gmap string file :=
  let old := filepath.Clean oldpath in
  let new := filepath.Clean newpath in
  let failure := New ("rename " +:+ oldpath +:+ " " +:+ newpath
                      +:+ ": no such file or directory") in
  match w !! old with
  | None => (Some failure, w)
  | Some f =>
      match w !! filepath.Clean (filepath.Split new).1, w !! new with
      | Some Directory, Some Directory =>
          (Some (New ("rename " +:+ oldpath +:+ " " +:+ newpath
                      +:+ ": file exists")), w)
      | Some Directory, _ => (None, <[new := f]> (delete old w))
      | _, _ => (Some failure, w)
      end
  end.

#[export] Instance externals : Externals := {|
  rename.World := gmap string file;
  rename.RNode := string * string;
  rename.ToLower := gostrings.ToLowerASCII;
  rename.Lstat := Lstat;
  rename.readDirNames := readDirNames;
  rename.ReadFile := ReadFile;
  rename.GetName := λ node _, node.2;
  rename.GetKind := λ node _, node.1;
  rename.Rename := Rename;
|}.

Definition start (w : gmap string file) : state := {| world := w; trace := [] |}.

(** A service in a file of another name. *)
Definition serviceTree : gmap string file :=
  list_to_map [
    (".", Directory);
    ("x.yaml", Manifest "Service" "foo")
  ].

(** A service whose name has a separator in it, next to a directory. *)
Definition slashTree : gmap string file :=
  list_to_map [
    (".", Directory);
    ("a", Directory);
    ("x.yaml", Manifest "Service" "a/b")
  ].

(** A file that does not parse, between a file with no name and a service. *)
Definition brokenTree : gmap string file :=
  list_to_map [
    (".", Directory);
    ("a.yaml", Manifest "Service" "");
    ("b.yaml", Unparsable);
    ("c.yaml", Manifest "Service" "foo")
  ].

End renamesim.



(** ** [pkg/apis/gitops/v1alpha1], the types the job generator reads *)
Module v1alpha1.

(** Modelled from the spec: the constant [SourceConfigFileName]; the default
    configuration file is [<dir>/.jx/gitops/source-config.yaml]. *)
Definition SourceConfigFileName : string := "source-config.yaml".

(** Modelled from the spec: the type [JenkinsConfig], with the target server
    and the optional path of an XML template. *)
Record JenkinsConfig := {
  Server : string;
  XmlTemplate : string;
}.

(** Modelled from the spec: the type [Repository]; [Jenkins] is a pointer and
    may be [nil]. *)
Record Repository := {
  Name : string;
  URL : string;
  HTTPCloneURL : string;
  Jenkins : option JenkinsConfig;
}.

(** Modelled from the spec: the type [RepositoryGroup]. *)
Record RepositoryGroup := {
  Owner : string;
  Provider : string;
  ProviderKind : string;
  ProviderName : string;
  Repositories : list Repository;
}.

(** Modelled from the spec: the type [SourceConfig], as far as it is read:
    [Groups] is [Spec.Groups]. *)
Record SourceConfig := {
  Groups : list RepositoryGroup;
}.

End v1alpha1.

(** ** [pkg/cmd/jenkins/jobs] *)
Module jobs.
Import v1alpha1.

(** [JenkinsTemplateConfig] *)
Record JenkinsTemplateConfig := {
  Server : string;
  Key : string;
  XMLTemplateFile : string;
  XMLTemplateText : string;
  TemplateData : gmap string string;
}.

(** [Options].  [JenkinsServers] is [None] for the [nil] map. *)
Record Options := {
  Dir : string;
  ConfigFile : string;
  OutDir : string;
  DefaultXmlTemplate : string;
  SourceConfig : v1alpha1.SourceConfig;
  JenkinsServers : option (gmap string (list JenkinsTemplateConfig));
}.

(** The options [NewCmdJenkinsJobs] creates, with the values of the flags
    [--dir], [--out], [--config] and [--default-xml-template]. *)
Definition NewCmdJenkinsJobs (dir out config defaultXmlTemplate : string)
  : Options :=
  {| Dir := dir; ConfigFile := config; OutDir := out;
     DefaultXmlTemplate := defaultXmlTemplate;
     SourceConfig := {| Groups := [] |};
     JenkinsServers := None |}.

(** A YAML value, [map[string]interface{}] with strings at the leaves. *)
#[warnings="-register-all"] Inductive value :=
  | VString (s : string)
  | VMap (m : gmap string value).

(** The packages and system calls the command relies on. *)
Class Externals := {
  (** the state of the file system and of whatever else a template can read *)
  World : Type;
  (** [termcolor.ColorInfo] *)
  info : string → string;
  (** [files.FileExists] *)
  FileExists : World → string → error + bool;
  (** [yamls.LoadFile] into a configuration that holds a value already *)
  LoadFile : World → string → v1alpha1.SourceConfig
             → error + v1alpha1.SourceConfig;
  (** [sourceconfigs.DefaultValues]: it is given pointers to the group and to
      the repository and assigns their fields; the slices stay as they are.
      The result is the group and the repository after the call. *)
  DefaultValues : v1alpha1.SourceConfig → RepositoryGroup → Repository
                  → RepositoryGroup * Repository;
  (** [ioutil.ReadFile] *)
  ReadFile : World → string → error + string;
  (** [os.MkdirAll] *)
  MkdirAll : World → string → option error * World;
  (** [templater.Evaluate] with the functions of [sprig.TxtFuncMap]: data,
      template text, template path, message *)
  Evaluate : World → gmap string string → string → string → string
             → (error + string) * World;
  (** [yaml.Marshal] *)
  Marshal : value → error + string;
  (** [ioutil.WriteFile] *)
  WriteFile : World → string → string → option error * World;
  (** the order in which a [range] goes through a map: Go leaves it open *)
  mapRange : World → gmap string (list JenkinsTemplateConfig)
             → list (string * list JenkinsTemplateConfig);
  mapRange_perm w m : mapRange w m ≡ₚ map_to_list m;
}.

(** What the command does to the outside, in order. *)
Inductive event :=
  | EvInfo (msg : string)
  | EvFileExists (path : string)
  | EvLoadFile (path : string)
  | EvReadFile (path : string)
  | EvMkdirAll (path : string)
  | EvWriteFile (path data : string).

Section Jobs.
Context `{Externals}.

(** The receiver [o], the world and the trace. *)
Record state := { opts : Options; world : World; trace : list event }.

Definition getOpts : M state Options := λ s, (Done (opts s), s).

Definition modifyOpts (f : Options → Options) : M state unit :=
  λ s, (Done tt, {| opts := f (opts s); world := world s; trace := trace s |}).

Definition emit (e : event) : M state unit :=
  λ s, (Done tt, {| opts := opts s; world := world s; trace := trace s ++ [e] |}).

(** A call that reads the world: it is recorded, and its error is returned. *)
Definition reading {A} (e : event) (f : World → error + A) : M state A :=
  λ s, let s' := {| opts := opts s; world := world s; trace := trace s ++ [e] |} in
       match f (world s) with
       | inl err => (Failed err, s')
       | inr a => (Done a, s')
       end.

(** A call that may change the world. *)
Definition writing (e : event) (f : World → option error * World) : M state unit :=
  λ s, let '(err, w) := f (world s) in
       let s' := {| opts := opts s; world := w; trace := trace s ++ [e] |} in
       match err with
       | Some err => (Failed err, s')
       | None => (Done tt, s')
       end.

Definition fileExists (path : string) : M state bool :=
  reading (EvFileExists path) (λ w, FileExists w path).

Definition loadFile (path : string) : M state unit :=
  o ← getOpts;
  config ← reading (EvLoadFile path) (λ w, LoadFile w path (SourceConfig o));
  modifyOpts (λ o, {| Dir := Dir o; ConfigFile := ConfigFile o;
                      OutDir := OutDir o;
                      DefaultXmlTemplate := DefaultXmlTemplate o;
                      SourceConfig := config;
                      JenkinsServers := JenkinsServers o |}).

Definition readFile (path : string) : M state string :=
  reading (EvReadFile path) (λ w, ReadFile w path).

Definition mkdirAll (path : string) : M state unit :=
  writing (EvMkdirAll path) (λ w, MkdirAll w path).

Definition writeFile (path data : string) : M state unit :=
  writing (EvWriteFile path data) (λ w, WriteFile w path data).

Definition evaluate (templateData : gmap string string)
    (templateText path message : string) : M state string :=
  λ s, let '(r, w) := Evaluate (world s) templateData templateText path message in
       let s' := {| opts := opts s; world := w; trace := trace s |} in
       match r with
       | inl err => (Failed err, s')
       | inr output => (Done output, s')
       end.

Definition marshal (values : value) : M state string :=
  λ s, match Marshal values with
       | inl err => (Failed err, s)
       | inr data => (Done data, s)
       end.

(** [Options.Validate] *)
Definition Validate : M state unit :=
  modifyOpts (λ o,
    if decide (ConfigFile o = "") then
      {| Dir := Dir o;
         ConfigFile := filepath.Join [Dir o; ".jx"; "gitops"; SourceConfigFileName];
         OutDir := OutDir o; DefaultXmlTemplate := DefaultXmlTemplate o;
         SourceConfig := SourceConfig o; JenkinsServers := JenkinsServers o |}
    else o) ;;
  modifyOpts (λ o,
    if decide (OutDir o = "") then
      {| Dir := Dir o; ConfigFile := ConfigFile o;
         OutDir := filepath.Join [Dir o; "jenkins"];
         DefaultXmlTemplate := DefaultXmlTemplate o;
         SourceConfig := SourceConfig o; JenkinsServers := JenkinsServers o |}
    else o) ;;
  o ← getOpts;
  exists_ ← wrapf (fileExists (ConfigFile o))
                  ("failed to check if file exists " +:+ ConfigFile o);
  if negb exists_ then
    emit (EvInfo ("the source config file " +:+ info (ConfigFile o)
                  +:+ " does not exist"))
  else
    (if decide (DefaultXmlTemplate o ≠ "") then
       exists_ ← wrapf (fileExists (DefaultXmlTemplate o))
                       ("failed to check if file exists " +:+ DefaultXmlTemplate o);
       if negb exists_ then
         fail (New ("the default-xml-template file " +:+ DefaultXmlTemplate o
                    +:+ " does not exist"))
       else mret tt
     else mret tt) ;;
    wrapf (loadFile (ConfigFile o)) ("failed to load file " +:+ ConfigFile o) ;;
    modifyOpts (λ o,
      match JenkinsServers o with
      | None =>
          {| Dir := Dir o; ConfigFile := ConfigFile o; OutDir := OutDir o;
             DefaultXmlTemplate := DefaultXmlTemplate o;
             SourceConfig := SourceConfig o; JenkinsServers := Some ∅ |}
      | Some _ => o
      end).

(** The data a template is evaluated with. *)
Definition templateDataOf (group : RepositoryGroup) (repo : Repository)
  : gmap string string :=
  list_to_map [
    ("Owner", Owner group);
    ("GitServerURL", Provider group);
    ("GitKind", ProviderKind group);
    ("GitName", ProviderName group);
    ("Repository", Name repo);
    ("URL", URL repo);
    ("CloneURL", HTTPCloneURL repo)
  ].

(** [o.JenkinsServers[server] = append(o.JenkinsServers[server], jcfg)]:
    reading a missing key gives the empty slice; assigning into the [nil] map
    panics. *)
Definition appendJenkinsServer (server : string) (jcfg : JenkinsTemplateConfig)
  : M state unit :=
  o ← getOpts;
  match JenkinsServers o with
  | None => panic "assignment to entry in nil map"
  | Some servers =>
      modifyOpts (λ o,
        {| Dir := Dir o; ConfigFile := ConfigFile o; OutDir := OutDir o;
           DefaultXmlTemplate := DefaultXmlTemplate o;
           SourceConfig := SourceConfig o;
           JenkinsServers :=
             Some (<[server := default [] (servers !! server) ++ [jcfg]]> servers) |})
  end.

Definition ignoring (repo : Repository) : event :=
  EvInfo ("ignoring repository " +:+ URL repo
          +:+ " as it has no Jenkins server defined").

(** [Options.processJenkinsConfig] *)
Definition processJenkinsConfig (group : RepositoryGroup) (repo : Repository)
    (jc : JenkinsConfig) : M state unit :=
  let server := v1alpha1.Server jc in
  if decide (server = "") then emit (ignoring repo)
  else
    o ← getOpts;
    xmlTemplate ←
      (if decide (XmlTemplate jc ≠ "") then
         let xmlTemplate := filepath.Join [Dir o; XmlTemplate jc] in
         exists_ ← wrapf (fileExists xmlTemplate)
                         ("failed to check if file exists " +:+ xmlTemplate);
         if negb exists_ then
           fail (New ("the xmlTemplate file " +:+ xmlTemplate +:+ " does not exist"))
         else mret xmlTemplate
       else mret (DefaultXmlTemplate o));
    if decide (xmlTemplate = "") then emit (ignoring repo)
    else
      data ← wrapf (readFile xmlTemplate) ("failed to load file " +:+ xmlTemplate);
      let templateData := templateDataOf group repo in
      appendJenkinsServer server
        {| Server := server; Key := Name repo; XMLTemplateFile := xmlTemplate;
           XMLTemplateText := data; TemplateData := templateData |}.

(** The body of the inner loop of [Run], for [&config.Spec.Groups[i]] and
    [&group.Repositories[j]].  [DefaultValues] writes through the two
    pointers: the group and the repository it leaves are put back at [i] and
    at [j]. *)
Definition visitRepository (i j : nat) : M state unit :=
  o ← getOpts;
  let config := SourceConfig o in
  match Groups config !! i with
  | None => panic "index out of range"
  | Some group =>
    match Repositories group !! j with
    | None => panic "index out of range"
    | Some repo =>
        let '(g, repo) := DefaultValues config group repo in
        let group :=
          {| Owner := Owner g; Provider := Provider g;
             ProviderKind := ProviderKind g; ProviderName := ProviderName g;
             Repositories := <[j := repo]> (Repositories group) |} in
        modifyOpts (λ o,
          {| Dir := Dir o; ConfigFile := ConfigFile o; OutDir := OutDir o;
             DefaultXmlTemplate := DefaultXmlTemplate o;
             SourceConfig := {| Groups := <[i := group]> (Groups config) |};
             JenkinsServers := JenkinsServers o |}) ;;
        match Jenkins repo with
        | None => mret tt
        | Some jc =>
            wrapf (processJenkinsConfig group repo jc)
                  "failed to process Jenkins Config"
        end
    end
  end.

(** The body of the outer loop: [for j := range group.Repositories]. *)
Definition visitGroup (i : nat) : M state unit :=
  o ← getOpts;
  match Groups (SourceConfig o) !! i with
  | None => panic "index out of range"
  | Some group =>
      forRange (seq 0 (length (Repositories group))) (visitRepository i)
  end.

(** The loop over the configurations of a server: each template is evaluated
    and its output stored under the key of the configuration. *)
Fixpoint renderJobs (server : string) (configs : list JenkinsTemplateConfig)
    (jobs : gmap string value) : M state (gmap string value) :=
  match configs with
  | [] => mret jobs
  | jcfg :: rest =>
      output ← wrapf (evaluate (TemplateData jcfg) (XMLTemplateText jcfg)
                               (XMLTemplateFile jcfg)
                               ("Jenkins Server " +:+ server))
                     ("failed to evaluate template " +:+ XMLTemplateFile jcfg);
      renderJobs server rest (<[Key jcfg := VString output]> jobs)
  end.

(** The [values] written for a server. *)
Definition valuesOf (jobs : gmap string value) : value :=
  VMap {[ "master" := VMap {[ "jobs" := VMap jobs ]} ]}.

(** The body of the loop over [o.JenkinsServers]. *)
Definition writeServer (server : string) (configs : list JenkinsTemplateConfig)
  : M state unit :=
  o ← getOpts;
  let dir := filepath.Join [OutDir o; server] in
  wrapf (mkdirAll dir) ("failed to create dir " +:+ dir) ;;
  let path := filepath.Join [dir; "values.yaml"] in
  emit (EvInfo ("creating Jenkins values.yaml file " +:+ path)) ;;
  jobs ← renderJobs server configs ∅;
  let values := valuesOf jobs in
  data ← wrapf (marshal values)
               ("failed to marshal values YAML for server " +:+ server);
  wrapf (writeFile path data) ("failed to save file " +:+ path).

(** The first loop of [Run], over the groups and their repositories. *)
Definition collect : M state unit :=
  o ← getOpts;
  forRange (seq 0 (length (Groups (SourceConfig o)))) visitGroup.

(** The second loop of [Run], over the servers; none for the [nil] map. *)
Definition writeServers : M state unit :=
  λ s,
    let servers := mapRange (world s) (default ∅ (JenkinsServers (opts s))) in
    forRange servers (λ '(server, configs), writeServer server configs) s.

(** [Options.Run] *)
Definition Run : M state unit :=
  wrapf Validate "failed to validate options" ;;
  collect ;;
  writeServers.

End Jobs.
End jobs.

(** ** An in-memory world for the job generator

    The instance of [jobs.Externals] the examples run on.  A file is a
    directory, a text, or a source configuration held parsed.  The template
    engine of the examples fails on the text [{{] and otherwise gives the text
    followed by the value of [Repository]. *)
Module jobssim.
Import v1alpha1 jobs.

Inductive file :=
  | Directory
  | Text (s : string)
  | Config (c : v1alpha1.SourceConfig).

Definition FileExists (w : gmap string file) (path : string) : error + bool :=
  inr (bool_decide (path ≠ "" ∧ is_Some (w !! filepath.Clean path))).

Definition LoadFile (w : gmap string file) (path : string)
    (dest : v1alpha1.SourceConfig) : error + v1alpha1.SourceConfig :=
  match w !! filepath.Clean path with
  | Some (Config c) => inr c
  | Some _ => inl (New ("failed to unmarshal file " +:+ path))
  | None => inl (New ("failed to load file " +:+ path))
  end.

(** A group with no provider is on GitHub; a repository with no URL has the
    one its provider, owner and name give. *)
Definition DefaultValues (config : v1alpha1.SourceConfig)
    (group : RepositoryGroup) (repo : Repository)
  : RepositoryGroup * Repository :=
  let provider := if decide (Provider group = "") then "https://github.com"
                  else Provider group in
  let url := if decide (URL repo = "")
             then provider +:+ "/" +:+ Owner group +:+ "/" +:+ Name repo
             else URL repo in
  ({| Owner := Owner group; Provider := provider;
      ProviderKind := ProviderKind group; ProviderName := ProviderName group;
      Repositories := Repositories group |},
   {| Name := Name repo; URL := url;
      HTTPCloneURL := if decide (HTTPCloneURL repo = "") then url +:+ ".git"
                      else HTTPCloneURL repo;
      Jenkins := Jenkins repo |}).

Definition ReadFile (w : gmap string file) (path : string) : error + string :=
  match w !! filepath.Clean path with
  | Some (Text s) => inr s
  | Some _ => inl (New ("read " +:+ path +:+ ": is a directory"))
  | None => inl (New ("open " +:+ path +:+ ": no such file or directory"))
  end.

Definition MkdirAll (w : gmap string file) (path : string)
  : option error * gmap string file :=
  match w !! filepath.Clean path with
  | Some Directory => (None, w)
  | Some _ => (Some (New ("mkdir " +:+ path +:+ ": not a directory")), w)
  | None => (None, <[filepath.Clean path := Directory]> w)
  end.

Definition Evaluate (w : gmap string file) (templateData : gmap string string)
    (templateText path message : string)
  : (error + string) * gmap string file :=
  if decide (templateText = "{{")
  then (inl (New ("failed to parse template " +:+ path +:+ " for " +:+ message)), w)
  else (inr (templateText +:+ default "" (templateData !! "Repository")), w).

Fixpoint Render (v : value) : string :=
  match v with
  | VString s => s
  | VMap m =>
      "{" +:+ map_fold (λ k v' rest, k +:+ ": " +:+ Render v' +:+ "; " +:+ rest) "" m
      +:+ "}"
  end.

Definition WriteFile (w : gmap string file) (path data : string)
  : option error * gmap string file :=
  match w !! filepath.Clean (filepath.Split (filepath.Clean path)).1 with
  | Some Directory => (None, <[filepath.Clean path := Text data]> w)
  | _ => (Some (New ("open " +:+ path +:+ ": no such file or directory")), w)
  end.

#[export] Program Instance externals : Externals := {|
  jobs.World := gmap string file;
  jobs.info := λ s, s;
  jobs.FileExists := FileExists;
  jobs.LoadFile := LoadFile;
  jobs.DefaultValues := DefaultValues;
  jobs.ReadFile := ReadFile;
  jobs.MkdirAll := MkdirAll;
  jobs.Evaluate := Evaluate;
  jobs.Marshal := λ v, inr (Render v);
  jobs.WriteFile := WriteFile;
  jobs.mapRange := λ _ m, map_to_list m;
|}.
Next Obligation. done. Qed.

Definition start (o : Options) (w : gmap string file) : state :=
  {| opts := o; world := w; trace := [] |}.

Definition repository (name server xmlTemplate : string) : Repository :=
  {| Name := name; URL := ""; HTTPCloneURL := "";
     Jenkins := Some {| v1alpha1.Server := server; XmlTemplate := xmlTemplate |} |}.

Definition acmeGroup (repos : list Repository) : RepositoryGroup :=
  {| Owner := "acme"; Provider := ""; ProviderKind := "github";
     ProviderName := "github"; Repositories := repos |}.

Definition acme (repos : list Repository) : v1alpha1.SourceConfig :=
  {| Groups := [acmeGroup repos] |}.

(** One repository built on [ci1] with the default template. *)
Definition oneJob : gmap string file :=
  list_to_map [
    (".", Directory);
    (".jx/gitops/source-config.yaml", Config (acme [repository "app1" "ci1" ""]));
    ("default.xml", Text "<job/>")
  ].

(** Two repositories of one name on one server, with templates of their own. *)
Definition twoJobs : gmap string file :=
  list_to_map [
    (".", Directory);
    (".jx/gitops/source-config.yaml",
     Config (acme [repository "app" "ci" "first.xml";
                   repository "app" "ci" "second.xml"]));
    ("first.xml", Text "<first/>");
    ("second.xml", Text "<second/>")
  ].

(** A repository with no server that names a template that does not exist. *)
Definition noServer : gmap string file :=
  list_to_map [
    (".", Directory);
    (".jx/gitops/source-config.yaml",
     Config (acme [repository "app" "" "missing.xml"]))
  ].

(** No configuration file. *)
Definition noConfig : gmap string file :=
  list_to_map [ (".", Directory) ].

(** A repository with a server that names a template that does not exist. *)
Definition noTemplate : gmap string file :=
  list_to_map [
    (".", Directory);
    (".jx/gitops/source-config.yaml",
     Config (acme [repository "app" "ci" "missing.xml"]))
  ].

(** A working directory [work] with the configuration and a template in it;
    the directory of the process has no template. *)
Definition workTree : gmap string file :=
  list_to_map [
    (".", Directory);
    ("work", Directory);
    ("work/.jx/gitops/source-config.yaml",
     Config (acme [repository "app" "ci" "tpl.xml"]));
    ("work/tpl.xml", Text "<job/>")
  ].

(** The state of a run after [Validate]: the options with their paths, the
    configuration loaded and no server yet. *)
Definition loaded (dir defaultXmlTemplate : string)
    (config : v1alpha1.SourceConfig) (w : gmap string file) : state :=
  {| opts := {| Dir := dir;
                ConfigFile := filepath.Join [dir; ".jx"; "gitops";
                                             SourceConfigFileName];
                OutDir := filepath.Join [dir; "jenkins"];
                DefaultXmlTemplate := defaultXmlTemplate;
                SourceConfig := config;
                JenkinsServers := Some ∅ |};
     world := w; trace := [] |}.

Definition jobConfig (key text : string) : JenkinsTemplateConfig :=
  {| Server := "ci"; Key := key; XMLTemplateFile := key +:+ ".xml";
     XMLTemplateText := text; TemplateData := {[ "Repository" := key ]} |}.

End jobssim.


(** * The vocabulary of the properties *)

(** ** Paths *)
Module filepath_spec.
Import filepath.

(** The states the loop of [Clean] goes through: a run of [..] that is as long
    as [dotdot] says, none of them under a root, and plain elements after it. *)
Definition cleaned (rooted : bool) (st : list string * nat) : Prop :=
  ∃ reals, st.1 = replicate st.2 ".." ++ reals
           ∧ Forall plainElement reals
           ∧ (rooted = true → st.2 = 0).

(** What [Clean] writes before the last element: the root, the elements before
    it, and the separator that follows them. *)
Definition prefixOf (rooted : bool) (out : list string) : string :=
  (if rooted then "/" else "") +:+
  match out with
  | [] => ""
  | _ => gostrings.Join out "/" +:+ "/"
  end.

(** What [Clean] makes of a directory before an element is joined to it:
    whether it is rooted, and the elements it keeps. *)
Definition cleanedDir (dir : string) : bool * list string :=
  if decide (dir = "") then (false, [])
  else (isRooted dir, (foldl (cleanStep (isRooted dir)) ([], 0) (elements dir)).1).

End filepath_spec.

(** ** The renamer *)
Module rename_spec.
Import rename.

Section Spec.
Context `{Externals}.

Definition record (s : state) (evs : list event) : state :=
  {| world := world s; trace := trace s ++ evs |}.

(** An event other than a parse that failed. *)
Definition quiet (ev : event) : Prop :=
  match ev with
  | EvReadFile _ (Some _) => False
  | _ => True
  end.

(** What a part of the walk may leave behind: events with no failed parse
    among them; or a failed parse as the last event, with the error of the
    parse, wrapped with the path, as the result. *)
Definition stopped {A} (r : result A) (evs : list event) : Prop :=
  Forall quiet evs
  ∨ ∃ before path e,
      evs = before ++ [EvReadFile path (Some e)]
      ∧ Forall quiet before
      ∧ r = Failed (Wrap e ("failed to load file " +:+ path)).

Definition stopsAtFailedRead {A} (m : M state A) : Prop :=
  ∀ s, ∃ evs, trace (m s).2 = trace s ++ evs ∧ stopped (m s).1 evs.

End Spec.
End rename_spec.

(** ** The job generator *)
Module jobs_spec.
Import v1alpha1 jobs.

Section Spec.
Context `{Externals}.

Definition record (s : state) (evs : list event) : state :=
  {| opts := opts s; world := world s; trace := trace s ++ evs |}.

Definition withJenkinsServers (o : Options)
    (servers : gmap string (list JenkinsTemplateConfig)) : Options :=
  {| Dir := Dir o; ConfigFile := ConfigFile o; OutDir := OutDir o;
     DefaultXmlTemplate := DefaultXmlTemplate o;
     SourceConfig := SourceConfig o; JenkinsServers := Some servers |}.

Definition withSourceConfig (o : Options) (config : v1alpha1.SourceConfig)
  : Options :=
  {| Dir := Dir o; ConfigFile := ConfigFile o; OutDir := OutDir o;
     DefaultXmlTemplate := DefaultXmlTemplate o;
     SourceConfig := config; JenkinsServers := JenkinsServers o |}.

(** The configuration file and the output directory [Validate] settles on. *)
Definition configFileOf (o : Options) : string :=
  if decide (ConfigFile o = "")
  then filepath.Join [Dir o; ".jx"; "gitops"; SourceConfigFileName]
  else ConfigFile o.

Definition outDirOf (o : Options) : string :=
  if decide (OutDir o = "") then filepath.Join [Dir o; "jenkins"] else OutDir o.

Definition withPaths (o : Options) : Options :=
  {| Dir := Dir o; ConfigFile := configFileOf o; OutDir := outDirOf o;
     DefaultXmlTemplate := DefaultXmlTemplate o;
     SourceConfig := SourceConfig o; JenkinsServers := JenkinsServers o |}.

Definition withServers (o : Options) : Options :=
  match JenkinsServers o with
  | None => withJenkinsServers o ∅
  | Some _ => o
  end.

(** The end of [Validate], from the load of the configuration on; [evs] is
    what was recorded before. *)
Definition loadConfig (s : state) (evs : list event) : result unit * state :=
  let o := withPaths (opts s) in
  match LoadFile (world s) (ConfigFile o) (SourceConfig o) with
  | inl e =>
      (Failed (Wrap e ("failed to load file " +:+ ConfigFile o)),
       {| opts := o; world := world s;
          trace := trace s ++ evs ++ [EvLoadFile (ConfigFile o)] |})
  | inr config =>
      (Done tt,
       {| opts := withServers (withSourceConfig o config); world := world s;
          trace := trace s ++ evs ++ [EvLoadFile (ConfigFile o)] |})
  end.

(** The template path of a repository: its own, joined with the working
    directory, or else the default one. *)
Definition resolvedTemplate (o : Options) (jc : JenkinsConfig) : string :=
  if decide (XmlTemplate jc ≠ "") then filepath.Join [Dir o; XmlTemplate jc]
  else DefaultXmlTemplate o.

(** The configuration [processJenkinsConfig] appends. *)
Definition configOf (group : RepositoryGroup) (repo : Repository)
    (jc : JenkinsConfig) (xmlTemplate data : string) : JenkinsTemplateConfig :=
  {| Server := v1alpha1.Server jc; Key := Name repo;
     XMLTemplateFile := xmlTemplate; XMLTemplateText := data;
     TemplateData := templateDataOf group repo |}.

(** The end of [processJenkinsConfig], from the read of the template on;
    [evs] is what was recorded before. *)
Definition loadTemplate (group : RepositoryGroup) (repo : Repository)
    (jc : JenkinsConfig) (xmlTemplate : string) (s : state) (evs : list event)
  : result unit * state :=
  match ReadFile (world s) xmlTemplate with
  | inl e => (Failed (Wrap e ("failed to load file " +:+ xmlTemplate)),
              record s (evs ++ [EvReadFile xmlTemplate]))
  | inr data =>
      match JenkinsServers (opts s) with
      | None => (Panicked "assignment to entry in nil map",
                 record s (evs ++ [EvReadFile xmlTemplate]))
      | Some servers =>
          (Done tt,
           {| opts := withJenkinsServers (opts s)
                        (<[v1alpha1.Server jc :=
                             default [] (servers !! v1alpha1.Server jc)
                             ++ [configOf group repo jc xmlTemplate data]]> servers);
              world := world s;
              trace := trace s ++ evs ++ [EvReadFile xmlTemplate] |})
      end
  end.

(** The group and the repository [DefaultValues] leaves at [i] and [j], and
    the state with them put back. *)
Definition defaultedRepo (s : state) (group : RepositoryGroup) (repo : Repository)
  : Repository :=
  (DefaultValues (SourceConfig (opts s)) group repo).2.

Definition defaultedGroup (s : state) (j : nat) (group : RepositoryGroup)
    (repo : Repository) : RepositoryGroup :=
  let g := (DefaultValues (SourceConfig (opts s)) group repo).1 in
  {| Owner := Owner g; Provider := Provider g;
     ProviderKind := ProviderKind g; ProviderName := ProviderName g;
     Repositories := <[j := defaultedRepo s group repo]> (Repositories group) |}.

Definition defaulted (s : state) (i j : nat) (group : RepositoryGroup)
    (repo : Repository) : state :=
  {| opts := withSourceConfig (opts s)
               {| Groups := <[i := defaultedGroup s j group repo]>
                              (Groups (SourceConfig (opts s))) |};
     world := world s; trace := trace s |}.

(** The evaluation of the template of a configuration. *)
Definition evaluateConfig (server : string) (jcfg : JenkinsTemplateConfig)
  : M state string :=
  evaluate (TemplateData jcfg) (XMLTemplateText jcfg) (XMLTemplateFile jcfg)
           ("Jenkins Server " +:+ server).

Definition serverDir (o : Options) (server : string) : string :=
  filepath.Join [OutDir o; server].

Definition valuesPath (o : Options) (server : string) : string :=
  filepath.Join [serverDir o server; "values.yaml"].

Definition creating (o : Options) (server : string) : event :=
  EvInfo ("creating Jenkins values.yaml file " +:+ valuesPath o server).

Definition afterMkdir (s : state) (server : string) (w : World) : state :=
  {| opts := opts s; world := w;
     trace := trace s ++ [EvMkdirAll (serverDir (opts s) server);
                          creating (opts s) server] |}.

(** An event that makes no directory and writes no file. *)
Definition notWrite (ev : event) : Prop :=
  match ev with
  | EvMkdirAll _ | EvWriteFile _ _ => False
  | _ => True
  end.

(** An event that is no existence check, or a check of a path that exists. *)
Definition checkedIn (w : World) (ev : event) : Prop :=
  match ev with
  | EvFileExists p => FileExists w p = inr true
  | _ => True
  end.

(** What the events of a part of the run before the writing are: checks that
    found their paths; or, last, a check that did not, and then the part
    returned an error. *)
Definition checks {A} (w : World) (r : result A) (evs : list event) : Prop :=
  Forall (checkedIn w) evs
  ∨ ∃ before p e,
      evs = before ++ [EvFileExists p]
      ∧ FileExists w p ≠ inr true
      ∧ r = Failed e.

(** A part of the run that leaves the world alone, writes nothing, and stops
    at the first check that fails. *)
Definition reads {A} (m : M state A) : Prop :=
  ∀ s, world (m s).2 = world s
       ∧ ∃ evs, trace (m s).2 = trace s ++ evs
                ∧ Forall notWrite evs
                ∧ checks (world s) (m s).1 evs.

(** An event that is no existence check. *)
Definition noCheck (ev : event) : Prop :=
  match ev with
  | EvFileExists _ => False
  | _ => True
  end.

Definition isWrite (ev : event) : Prop :=
  match ev with
  | EvWriteFile _ _ => True
  | _ => False
  end.

#[export] Instance isWrite_dec ev : Decision (isWrite ev).
Proof. destruct ev; apply _. Defined.

(** The write made for a server: at [<outDir>/<server>/values.yaml], of the
    marshalled value [master.jobs.<key> = <output>], with the keys of the
    configurations of the server. *)
Definition writtenFor (o : Options)
    (entry : string * list JenkinsTemplateConfig) (ev : event) : Prop :=
  ∃ jobs data,
    ev = EvWriteFile (filepath.Join [filepath.Join [OutDir o; entry.1];
                                      "values.yaml"]) data
    ∧ Marshal (VMap {[ "master" := VMap {[ "jobs" := VMap jobs ]} ]}) = inr data
    ∧ dom jobs = list_to_set (Key <$> entry.2)
    ∧ ∀ k v, jobs !! k = Some v → ∃ output, v = VString output.

End Spec.
End jobs_spec.

(** ** Two runs of the renamer over the in-memory file tree *)
Module rename_twice_spec.
Import rename renamesim.

#[local] Existing Instance renamesim.externals.

(** A path the function literal of [Run] parses. *)
Definition yamlFile (path : string) : Prop :=
  gostrings.HasSuffix path ".yaml" = true ∨ gostrings.HasSuffix path ".yml" = true.

#[export] Instance yamlFile_dec path : Decision (yamlFile path).
Proof. unfold yamlFile. apply _. Defined.

(** The entries a directory lists: [k] is listed by [d] under the last
    element of [k].  This is the test of [renamesim.readDirNames]. *)
Definition childOf (d k : string) : Prop :=
  k ≠ filepath.Clean d ∧ (filepath.Split k).2 ≠ ""
  ∧ filepath.Join [d; (filepath.Split k).2] = k.

(** The manifests of a tree have canonical names that are one path element:
    no kind and no name puts a separator into a file name. *)
Definition plainNames (w : gmap string file) : Prop :=
  ∀ k kind name,
    w !! k = Some (Manifest kind name) →
    filepath.noSeparator (canonicalName kind name).

#[export] Instance plainName_dec (f : file) :
  Decision (match f with
            | Manifest kind name =>
                filepath.noSeparator (canonicalName kind name)
            | _ => True
            end).
Proof. destruct f; unfold filepath.noSeparator; apply _. Defined.

(** The file at [k], if it is a manifest with a name in a YAML file, is where
    the renamer puts it. *)
Definition settledAt (w : gmap string file) (k : string) : Prop :=
  ∀ kind name,
    w !! k = Some (Manifest kind name) → yamlFile k → name ≠ "" →
    newPathOf k kind name = k.

(** The file tree of a state. *)
Definition tree (s : state) : gmap string file := world s.

(** The state of a run that started from [w0], as far as the next run depends
    on it.  [F] holds the files the run has parsed and the paths it has
    renamed to; [G] the directories it has gone through, each with the fuel
    that was enough for it. *)
Record walked (w0 w : gmap string file) (F : gset string) (G : gmap string nat)
  : Prop := {
  (** a file of [F] holds a manifest, or is gone, and is settled *)
  walked_settled k : k ∈ F → settledAt w k;
  walked_parsed k : k ∈ F → w !! k ≠ Some Unparsable;
  walked_file k : k ∈ F → w !! k ≠ Some Directory;
  (** what is not in [F] is as it was *)
  walked_untouched k : k ∉ F → w !! k = w0 !! k;
  (** the directories are the ones of [w0] *)
  walked_dirs k : w !! k = Some Directory ↔ w0 !! k = Some Directory;
  walked_plain : plainNames w;
  (** a directory of [G] is there, and what it lists is done: a directory is
      in [G], for less fuel, and a YAML file is in [F] *)
  walked_dir d f :
    G !! d = Some f → 0 < f ∧ w !! filepath.Clean d = Some Directory;
  walked_listed d f k :
    G !! d = Some f → childOf d k → is_Some (w !! k) →
    (w !! k = Some Directory → ∃ f', G !! k = Some f' ∧ f' < f)
    ∧ (w !! k ≠ Some Directory → yamlFile k → k ∈ F);
}.

(** The directories gone through stay so, for no more fuel. *)
Definition lowers (G G' : gmap string nat) : Prop :=
  ∀ d f, G !! d = Some f → ∃ f', G' !! d = Some f' ∧ f' ≤ f.

(** What the visit of a path with [fuel] leaves: the path is a directory that
    was gone through, or a file that was parsed, or no YAML file and no
    directory, or it was not there. *)
Definition handled (w0 : gmap string file) (F : gset string)
    (G : gmap string nat) (fuel : nat) (p : string) : Prop :=
  (∃ f, G !! p = Some f ∧ f ≤ fuel)
  ∨ filepath.Clean p ∈ F
  ∨ (¬ yamlFile p ∧ w0 !! filepath.Clean p ≠ Some Directory)
  ∨ w0 !! filepath.Clean p = None.

(** An event of a run over a settled tree: no rename and no parse that
    failed; and a file that is parsed is at the path computed for it. *)
Definition still (w : gmap string file) (ev : event) : Prop :=
  match ev with
  | EvRename _ _ _ => False
  | EvReadFile _ (Some _) => False
  | EvReadFile path None =>
      ∀ kind name,
        w !! filepath.Clean path = Some (Manifest kind name) → name ≠ "" →
        newPathOf path kind name = path
  | _ => True
  end.

(** A part of a run over the settled tree [w]: it leaves the tree as it is,
    its events are [still], it does not fail, and it returns when its fuel is
    [enough]. *)
Definition calm (w : gmap string file) (enough : Prop) (m : M state unit)
  : Prop :=
  ∀ s, tree s = w →
    tree (m s).2 = w
    ∧ (∃ evs, trace (m s).2 = trace s ++ evs ∧ Forall (still w) evs)
    ∧ ((m s).1 = Done tt ∨ (m s).1 = OutOfFuel)
    ∧ (enough → (m s).1 = Done tt).

End rename_twice_spec.

(** ** The runs of the renamer *)
Module rename_run_spec.
Import rename.

Section Spec.
Context `{Externals}.

(** A path the function literal of [Run] does not skip. *)
Definition yamlPath (path : string) : Prop :=
  gostrings.HasSuffix path ".yaml" = true ∨ gostrings.HasSuffix path ".yml" = true.

(** An event that is no failure: neither a parse nor a rename that gave an
    error. *)
Definition succeeded (ev : event) : Prop :=
  match ev with
  | EvReadFile _ (Some _) | EvRename _ _ (Some _) => False
  | _ => True
  end.

(** The error the visit of a file returns for a parse or a rename that
    failed. *)
Definition failureOf (ev : event) (e : error) : Prop :=
  match ev with
  | EvReadFile path (Some cause) =>
      e = Wrap cause ("failed to load file " +:+ path)
  | EvRename oldpath newpath (Some cause) =>
      ∃ kind name,
        newpath = newPathOf oldpath kind name
        ∧ e = Wrap cause ("failed to rename " +:+ (filepath.Split oldpath).2
                          +:+ " to " +:+ canonicalName kind name
                          +:+ filepath.Ext oldpath)
  | _ => False
  end.

(** How a part of the walk ends: with no failure among its events, returning
    normally or out of fuel; or with a failure as its last event, and the
    error of that failure returned. *)
Definition ended {A} (r : result A) (evs : list event) : Prop :=
  (Forall succeeded evs ∧ ((∃ a, r = Done a) ∨ r = OutOfFuel))
  ∨ ∃ before last e,
      evs = before ++ [last]
      ∧ Forall succeeded before
      ∧ failureOf last e
      ∧ r = Failed e.

(** What the events of a part of the walk are about: a file that is parsed
    has the suffix of a YAML file; a file that is renamed was parsed before,
    without error, and goes to the path computed from a name that is not
    empty, which is another path than the one it has. *)
Definition orderly (evs : list event) : Prop :=
  (∀ path err, EvReadFile path err ∈ evs → yamlPath path)
  ∧ ∀ pre post oldpath newpath err,
      evs = pre ++ EvRename oldpath newpath err :: post →
      EvReadFile oldpath None ∈ pre
      ∧ newpath ≠ oldpath
      ∧ ∃ kind name, name ≠ "" ∧ newpath = newPathOf oldpath kind name.

Definition visits {A} (m : M state A) : Prop :=
  ∀ s, ∃ evs, trace (m s).2 = trace s ++ evs
              ∧ orderly evs ∧ ended (m s).1 evs.

(** The kinds [kindSuffixes] has an entry for, in any case of the letters. *)
Definition knownKind (kind : string) : Prop :=
  kind ≠ "" ∧ is_Some (kindSuffixes !! ToLower kind).

End Spec.
End rename_run_spec.

(** ** The runs of the job generator *)
Module jobs_run_spec.
Import v1alpha1 jobs jobs_spec.

Section Spec.
Context `{Externals}.

(** An event that is no existence check, no load and no read. *)
Definition notRead (ev : event) : Prop :=
  match ev with
  | EvFileExists _ | EvLoadFile _ | EvReadFile _ => False
  | _ => True
  end.

(** What the second loop of [Run] ranges over: nothing for the [nil] map. *)
Definition serversOf (o : Options) : gmap string (list JenkinsTemplateConfig) :=
  default ∅ (JenkinsServers o).

(** Servers as [processJenkinsConfig] leaves them: a server has a name and at
    least one configuration; a configuration is kept under the server it
    names, and has a template path. *)
Definition wellKeyed (servers : gmap string (list JenkinsTemplateConfig)) : Prop :=
  map_Forall (λ server configs,
    server ≠ "" ∧ configs ≠ []
    ∧ Forall (λ c, Server c = server ∧ XMLTemplateFile c ≠ "") configs) servers.

(** Every server is still there, with the configurations it had at the
    front of its list. *)
Definition extends (servers servers' : gmap string (list JenkinsTemplateConfig))
  : Prop :=
  ∀ server configs,
    servers !! server = Some configs →
    ∃ more, servers' !! server = Some (configs ++ more).

(** As many groups, and as many repositories in each. *)
Definition sameShape (config config' : v1alpha1.SourceConfig) : Prop :=
  Forall2 (λ g g', length (Repositories g') = length (Repositories g))
          (Groups config) (Groups config').

(** What the first loop of [Run] does to the options. *)
Definition grows (o o' : Options) : Prop :=
  Dir o' = Dir o ∧ ConfigFile o' = ConfigFile o ∧ OutDir o' = OutDir o
  ∧ DefaultXmlTemplate o' = DefaultXmlTemplate o
  ∧ sameShape (SourceConfig o) (SourceConfig o')
  ∧ match JenkinsServers o, JenkinsServers o' with
    | None, None => True
    | Some servers, Some servers' =>
        extends servers servers' ∧ (wellKeyed servers → wellKeyed servers')
    | _, _ => False
    end.

(** The events of the second loop of [Run] over the servers [names]: a
    directory is made for a server, and a file is written for a server whose
    directory was made before. *)
Definition writesFor (o : Options) (names : list string) (evs : list event)
  : Prop :=
  Forall notRead evs
  ∧ (∀ path, EvMkdirAll path ∈ evs →
       ∃ server, server ∈ names ∧ path = serverDir o server)
  ∧ ∀ pre post path data,
      evs = pre ++ EvWriteFile path data :: post →
      ∃ server, server ∈ names ∧ path = valuesPath o server
                ∧ EvMkdirAll (serverDir o server) ∈ pre.

(** A state in which the first loop of [Run] cannot panic: there are no
    groups to go through, or the map of the servers is not [nil]. *)
Definition ready (o : Options) : Prop :=
  Groups (SourceConfig o) = [] ∨ JenkinsServers o ≠ None.

(** A call that came back: with a value or with an error, not with a
    panic. *)
Definition returns {A} (r : result A) : Prop :=
  match r with
  | Done _ | Failed _ => True
  | _ => False
  end.

End Spec.
End jobs_run_spec.

(** * Facts about strings and paths *)
Module string_facts.

Lemma str_app_cons (c : ascii) (a b : string) : String c a +:+ b = String c (a +:+ b).
Proof. done. Qed.

Lemma str_app_nil_l (s : string) : "" +:+ s = s.
Proof. done. Qed.

Lemma str_app_nil_r (s : string) : s +:+ "" = s.
Proof. induction s as [|c s IH]; [done|]. by rewrite str_app_cons, IH. Qed.

Lemma str_app_assoc (a b c : string) : (a +:+ b) +:+ c = a +:+ b +:+ c.
Proof. induction a as [|x a IH]; [done|]. by rewrite !str_app_cons, IH. Qed.

Lemma str_app_eq_nil (a b : string) : a +:+ b = "" → a = "" ∧ b = "".
Proof. by destruct a. Qed.

Lemma str_length_app (a b : string) :
  String.length (a +:+ b) = String.length a + String.length b.
Proof. induction a as [|x a IH]; [done|]. rewrite str_app_cons. simpl. by rewrite IH. Qed.

Lemma list_of_app (a b : string) :
  list_ascii_of_string (a +:+ b)
  = list_ascii_of_string a ++ list_ascii_of_string b.
Proof. induction a as [|x a IH]; [done|]. rewrite str_app_cons. simpl. by rewrite IH. Qed.

Lemma string_of_app (l k : list ascii) :
  string_of_list_ascii (l ++ k)
  = string_of_list_ascii l +:+ string_of_list_ascii k.
Proof. induction l as [|x l IH]; [done|]. simpl. by rewrite IH. Qed.

Lemma substring_all (s : string) : substring 0 (String.length s) s = s.
Proof. induction s as [|c s IH]; [done|]. simpl. by rewrite IH. Qed.

(** Cutting a string at [n] and gluing the halves gives it back. *)
Lemma substring_split (n : nat) (s : string) :
  n ≤ String.length s →
  s = substring 0 n s +:+ substring n (String.length s - n) s.
Proof.
  revert n. induction s as [|c s IH]; intros [|n] Hn; simpl in *; try lia.
  - done.
  - by rewrite substring_all.
  - rewrite str_app_cons. f_equal. apply IH. lia.
Qed.

(** [strings.HasSuffix] holds exactly of the strings that end in the suffix. *)
Lemma HasSuffix_spec (s suffix : string) :
  gostrings.HasSuffix s suffix = true ↔ ∃ pre, s = pre +:+ suffix.
Proof.
  unfold gostrings.HasSuffix. rewrite andb_true_iff, !bool_decide_eq_true.
  split.
  - intros [Hlen Hsub].
    exists (substring 0 (String.length s - String.length suffix) s).
    pose proof (substring_split (String.length s - String.length suffix) s) as Hs.
    replace (String.length s - (String.length s - String.length suffix))
      with (String.length suffix) in Hs by lia.
    rewrite Hsub in Hs. apply Hs. lia.
  - intros [pre ->]. rewrite str_length_app. split; [lia|].
    replace (String.length pre + String.length suffix - String.length suffix)
      with (String.length pre) by lia.
    clear. induction pre as [|c pre IH]; [apply substring_all|done].
Qed.

End string_facts.

Module filepath_facts.
Import filepath filepath_spec string_facts.

Lemma noSeparator_nil : noSeparator "".
Proof. constructor. Qed.

Lemma noSeparator_cons (c : ascii) (s : string) :
  noSeparator (String c s) ↔ IsPathSeparator c = false ∧ noSeparator s.
Proof.
  unfold noSeparator, IsPathSeparator. simpl.
  rewrite Forall_cons, bool_decide_eq_false. done.
Qed.

Lemma noSeparator_app (a b : string) :
  noSeparator (a +:+ b) ↔ noSeparator a ∧ noSeparator b.
Proof. unfold noSeparator. by rewrite list_of_app, Forall_app. Qed.

Lemma elements_not_nil (path : string) : elements path ≠ [].
Proof.
  destruct path as [|c rest]; [done|]. simpl.
  destruct (IsPathSeparator c); [done|]. by destruct (elements rest).
Qed.

Lemma elements_plain (s : string) : noSeparator s → elements s = [s].
Proof.
  induction s as [|c s IH]; [done|].
  intros [Hc Hs]%noSeparator_cons. simpl. by rewrite Hc, IH.
Qed.

(** A separator ends an element: the elements of [a/b] are those of [a] and
    then those of [b]. *)
Lemma elements_app_sep (a b : string) :
  elements (a +:+ String Separator b) = elements a ++ elements b.
Proof.
  induction a as [|c a IH]; [done|].
  rewrite str_app_cons. simpl. rewrite IH.
  destruct (IsPathSeparator c); [done|].
  pose proof (elements_not_nil a). by destruct (elements a).
Qed.

Lemma elements_noSeparator (path : string) : Forall noSeparator (elements path).
Proof.
  induction path as [|c rest IH]; simpl.
  - apply Forall_singleton, noSeparator_nil.
  - destruct (IsPathSeparator c) eqn:Hc.
    + constructor; [apply noSeparator_nil|done].
    + destruct (elements rest) as [|e es].
      * apply Forall_singleton, noSeparator_cons. split; [done|apply noSeparator_nil].
      * inversion_clear IH. constructor; [|done]. by apply noSeparator_cons.
Qed.

Lemma Join_snoc (out : list string) (e : string) :
  gostrings.Join (out ++ [e]) "/" =
    match out with
    | [] => e
    | _ => gostrings.Join out "/" +:+ "/" +:+ e
    end.
Proof.
  induction out as [|x out IH]; [done|].
  change ((x :: out) ++ [e]) with (x :: (out ++ [e])).
  destruct out as [|y out]; [done|].
  change (gostrings.Join (x :: (y :: out) ++ [e]) "/")
    with (x +:+ "/" +:+ gostrings.Join ((y :: out) ++ [e]) "/").
  rewrite IH.
  change (gostrings.Join (x :: y :: out) "/")
    with (x +:+ "/" +:+ gostrings.Join (y :: out) "/").
  by rewrite !str_app_assoc.
Qed.

Lemma elements_Join (out : list string) :
  out ≠ [] → Forall noSeparator out → elements (gostrings.Join out "/") = out.
Proof.
  induction out as [|x out IH]; [done|]. intros _ Hall.
  inversion_clear Hall as [|?? Hx Hout].
  destruct out as [|y out]; [by apply elements_plain|].
  change (gostrings.Join (x :: y :: out) "/")
    with (x +:+ String Separator (gostrings.Join (y :: out) "/")).
  rewrite elements_app_sep, elements_plain, IH; done.
Qed.

Lemma cleaned_init rooted : cleaned rooted ([], 0).
Proof. exists []. by repeat split. Qed.

Lemma removelast_snoc {A} (l : list A) (x : A) : removelast (l ++ [x]) = l.
Proof. by rewrite removelast_app, app_nil_r. Qed.

Lemma cleanStep_cleaned rooted st e :
  cleaned rooted st → noSeparator e → cleaned rooted (cleanStep rooted st e).
Proof.
  destruct st as [out dotdot]. intros (reals & Hout & Hreals & Hroot) He.
  simpl in *. unfold cleanStep.
  repeat case_decide; subst; try (by exists reals).
  - (* [..] removes the last plain element *)
    destruct (reals) as [|r reals' _] using rev_ind.
    { rewrite app_nil_r, length_replicate in *. lia. }
    exists reals'. simpl. rewrite app_assoc, removelast_snoc.
    apply Forall_app in Hreals as [? _]. done.
  - (* [..] is kept: nothing but [..] before it *)
    destruct rooted; [by exists reals|].
    assert (reals = []) as ->.
    { destruct reals; [done|]. rewrite length_app, length_replicate in *.
      simpl in *. lia. }
    exists []. simpl. rewrite !app_nil_r, length_replicate.
    repeat split; [|done..]. by rewrite replicate_cons_app.
  - exists (reals ++ [e]). simpl. rewrite app_assoc. repeat split; [|done].
    apply Forall_app. split; [done|]. by apply Forall_singleton.
Qed.

Lemma foldl_cleaned rooted st l :
  cleaned rooted st → Forall noSeparator l →
  cleaned rooted (foldl (cleanStep rooted) st l).
Proof.
  revert st. induction l as [|e l IH]; intros st Hst Hl; [done|].
  inversion_clear Hl. simpl. apply IH; [|done]. by apply cleanStep_cleaned.
Qed.

Lemma cleanStep_plain rooted out dotdot e :
  plainElement e → cleanStep rooted (out, dotdot) e = (out ++ [e], dotdot).
Proof.
  intros (? & ? & ? & _). unfold cleanStep. by rewrite !decide_False.
Qed.

Lemma foldl_plain rooted out dotdot reals :
  Forall plainElement reals →
  foldl (cleanStep rooted) (out, dotdot) reals = (out ++ reals, dotdot).
Proof.
  revert out. induction reals as [|e reals IH]; intros out Hall; cbn [foldl].
  - by rewrite app_nil_r.
  - inversion_clear Hall. rewrite cleanStep_plain, IH by done.
    by rewrite <-app_assoc.
Qed.

Lemma foldl_dotdot k n :
  foldl (cleanStep false) (replicate k "..", k) (replicate n "..")
  = (replicate (k + n) "..", k + n).
Proof.
  revert k. induction n as [|n IH]; intros k; cbn [foldl replicate].
  - by rewrite Nat.add_0_r.
  - replace (cleanStep false (replicate k "..", k) "..")
      with (replicate (S k) "..", S k).
    + rewrite IH. f_equal; [f_equal|]; lia.
    + unfold cleanStep. rewrite !decide_False, decide_True by done.
      rewrite length_replicate, decide_False by lia.
      by rewrite <-replicate_cons_app.
Qed.

(** Scanning what the loop wrote gives the same buffer again. *)
Lemma foldl_cleaned_again rooted out dotdot :
  cleaned rooted (out, dotdot) →
  foldl (cleanStep rooted) ([], 0) out = (out, dotdot).
Proof.
  intros (reals & Hout & Hreals & Hroot). simpl in *. subst out.
  rewrite foldl_app. destruct rooted.
  - rewrite Hroot by done. cbn [replicate foldl]. by rewrite foldl_plain.
  - change ([] : list string) with (replicate 0 "..") at 1.
    rewrite foldl_dotdot. by rewrite foldl_plain.
Qed.


Lemma render_snoc rooted out e : render rooted (out ++ [e]) = prefixOf rooted out +:+ e.
Proof.
  unfold render, prefixOf. rewrite Join_snoc, str_app_assoc.
  destruct out; [done|]. by rewrite str_app_assoc.
Qed.

Lemma prefixOf_shape rooted out :
  prefixOf rooted out = "" ∨ ∃ before, prefixOf rooted out = before +:+ "/".
Proof.
  unfold prefixOf. destruct out as [|x out].
  - destruct rooted; [right; by exists ""|by left].
  - right. exists ((if rooted then "/" else "") +:+ gostrings.Join (x :: out) "/").
    by rewrite str_app_assoc.
Qed.

Lemma Clean_not_empty path : Clean path ≠ "".
Proof. unfold Clean. by repeat case_decide. Qed.

Lemma Join_not_empty e rest : e ≠ "" → Join (e :: rest) ≠ "".
Proof. intros He. simpl. rewrite decide_False by done. apply Clean_not_empty. Qed.

Lemma Join_not_empty' dir e : e ≠ "" → Join [dir; e] ≠ "".
Proof.
  intros He. simpl. destruct (decide (dir = "")).
  - rewrite decide_False by done. apply Clean_not_empty.
  - apply Clean_not_empty.
Qed.

(** [Join] gives the empty path only when every element is empty. *)
Lemma Join_empty elem : Join elem = "" ↔ Forall (λ e, e = "") elem.
Proof.
  induction elem as [|e rest IH]; [done|]. rewrite Forall_cons.
  destruct (decide (e = "")) as [->|He].
  - simpl. rewrite IH. tauto.
  - split; [|tauto]. intros Hj. by apply Join_not_empty in Hj.
Qed.

Lemma Join_dir_file dir file :
  file ≠ "" →
  Join [dir; file] = if decide (dir = "") then Clean file
                     else Clean (dir +:+ "/" +:+ file).
Proof.
  intros Hfile. simpl. destruct (decide (dir = "")); [|done].
  by rewrite decide_False.
Qed.

Lemma isRooted_app dir rest : dir ≠ "" → isRooted (dir +:+ rest) = isRooted dir.
Proof. by destruct dir. Qed.

Lemma plainElement_not_rooted e : e ≠ "" → noSeparator e → isRooted e = false.
Proof. destruct e as [|c e]; [done|]. by intros _ [? _]%noSeparator_cons. Qed.

Lemma Clean_plain e : plainElement e → Clean e = e.
Proof.
  intros He. pose proof He as (Hne & _ & _ & Hsep). unfold Clean.
  rewrite decide_False, elements_plain by done. cbn [foldl].
  rewrite cleanStep_plain by done. cbn [fst app].
  rewrite plainElement_not_rooted by done.
  unfold render. cbn [gostrings.Join]. rewrite str_app_nil_l.
  by rewrite decide_False.
Qed.

(** Cleaning a directory and a plain file name: the file name comes last,
    after what cleaning leaves of the directory. *)
Lemma Clean_dir_file dir file :
  dir ≠ "" → plainElement file →
  Clean (dir +:+ "/" +:+ file)
  = prefixOf (isRooted dir)
      (foldl (cleanStep (isRooted dir)) ([], 0) (elements dir)).1 +:+ file.
Proof.
  intros Hdir Hfile. pose proof Hfile as (Hne & _ & _ & Hsep). unfold Clean.
  rewrite decide_False by (intros [? _]%str_app_eq_nil; done).
  rewrite isRooted_app by done.
  change (dir +:+ "/" +:+ file) with (dir +:+ String Separator file).
  rewrite elements_app_sep, (elements_plain file), foldl_app by done.
  cbn [foldl]. destruct (foldl _ _ (elements dir)) as [out dotdot].
  rewrite cleanStep_plain by done. cbn [fst]. rewrite render_snoc.
  rewrite decide_False; [done|].
  intros [_ ?]%str_app_eq_nil. done.
Qed.

Lemma cleaned_noSeparator rooted out dotdot :
  cleaned rooted (out, dotdot) → Forall noSeparator out.
Proof.
  intros (reals & Hout & Hreals & _). simpl in Hout. subst out.
  apply Forall_app. split.
  - apply Forall_replicate. by repeat constructor.
  - eapply Forall_impl; [done|]. by intros ? (_ & _ & _ & ?).
Qed.

Lemma cleaned_head_not_rooted x rest dotdot :
  cleaned false (x :: rest, dotdot) → x ≠ "" ∧ isRooted x = false.
Proof.
  intros (reals & Hout & Hreals & _). simpl in Hout.
  destruct dotdot as [|n]; simpl in Hout.
  - subst reals. inversion_clear Hreals as [|?? (? & _ & _ & ?) _].
    split; [done|]. by apply plainElement_not_rooted.
  - by injection Hout as -> _.
Qed.

Lemma Join_head x rest sep : ∃ more, gostrings.Join (x :: rest) sep = x +:+ more.
Proof.
  destruct rest; [exists ""; by rewrite str_app_nil_r|]. by eexists.
Qed.

(** What [Clean] left of a directory is left as it is by another [Clean]. *)
Lemma Clean_prefix_again rooted out dotdot file :
  cleaned rooted (out, dotdot) → prefixOf rooted out ≠ "" → plainElement file →
  Clean (prefixOf rooted out +:+ "/" +:+ file) = prefixOf rooted out +:+ file.
Proof.
  intros Hcl Hne Hfile. rewrite Clean_dir_file by done.
  assert (isRooted (prefixOf rooted out) = rooted) as ->.
  { unfold prefixOf in *. destruct rooted; [done|]. rewrite str_app_nil_l in *.
    destruct out as [|x rest]; [done|].
    destruct (cleaned_head_not_rooted _ _ _ Hcl) as [Hx Hroot].
    destruct (Join_head x rest "/") as [more ->].
    by rewrite str_app_assoc, isRooted_app. }
  f_equal. f_equal.
  assert (foldl (cleanStep rooted) ([], 0) (elements (prefixOf rooted out))
          = (out, dotdot)) as ->; [|done].
  pose proof (cleaned_noSeparator _ _ _ Hcl) as Hsep.
  unfold prefixOf. destruct out as [|x rest].
  - destruct rooted.
    + destruct Hcl as (? & _ & _ & Hdd). simpl in Hdd. by rewrite Hdd.
    + destruct Hcl as (reals & Hout & _). simpl in Hout.
      destruct dotdot; [done|]. done.
  - assert (elements (gostrings.Join (x :: rest) "/" +:+ "/")
            = (x :: rest) ++ [""]) as Hel.
    { change (?a +:+ "/") with (a +:+ String Separator "").
      by rewrite elements_app_sep, elements_Join. }
    assert (∀ st, cleanStep rooted st "" = st) as Hskip by (by intros [??]).
    destruct rooted.
    + change ("/" +:+ ?a) with (String Separator a). cbn [elements].
      change (IsPathSeparator Separator) with true. cbn iota.
      rewrite Hel. cbn [foldl]. rewrite Hskip, foldl_app.
      rewrite (foldl_cleaned_again _ _ _ Hcl). cbn [foldl]. by rewrite Hskip.
    + rewrite str_app_nil_l, Hel, foldl_app.
      rewrite (foldl_cleaned_again _ _ _ Hcl). cbn [foldl]. by rewrite Hskip.
Qed.

Lemma splitScan_app l before file :
  Forall (λ c, c ≠ Separator) l →
  splitScan (rev l ++ before) file
  = splitScan before (string_of_list_ascii l +:+ file).
Proof.
  revert before file. induction l as [|c l IH]; intros before file Hl; [done|].
  inversion_clear Hl as [|?? Hc Hl']. cbn [rev].
  rewrite <-app_assoc, IH by done. cbn [app splitScan].
  unfold IsPathSeparator. by rewrite bool_decide_eq_false_2.
Qed.

(** [Split] cuts a plain file name off what precedes it. *)
Lemma Split_prefix_file before file :
  noSeparator file → before = "" ∨ (∃ b, before = b +:+ "/") →
  Split (before +:+ file) = (before, file).
Proof.
  intros Hfile Hbefore. unfold Split.
  rewrite list_of_app, rev_app_distr, splitScan_app by done.
  rewrite string_of_list_ascii_of_string, str_app_nil_r.
  destruct Hbefore as [->|[b ->]]; [done|].
  rewrite list_of_app, rev_app_distr. cbn [list_ascii_of_string rev app splitScan].
  change (IsPathSeparator "/") with true. cbn iota.
  rewrite rev_involutive, string_of_app, string_of_list_ascii_of_string.
  done.
Qed.

Lemma extScan_app l before after :
  Forall (λ c, c ≠ Separator ∧ c ≠ "."%char) l →
  extScan (rev l ++ before) after
  = extScan before (string_of_list_ascii l +:+ after).
Proof.
  revert before after. induction l as [|c l IH]; intros before after Hl; [done|].
  inversion_clear Hl as [|?? [Hc Hdot] Hl']. cbn [rev].
  rewrite <-app_assoc, IH by done. cbn [app extScan].
  unfold IsPathSeparator. by rewrite !bool_decide_eq_false_2.
Qed.

(** The extension of a path that ends in a dot and letters is that ending. *)
Lemma Ext_suffix before letters :
  Forall (λ c, c ≠ Separator ∧ c ≠ "."%char) (list_ascii_of_string letters) →
  Ext (before +:+ String "." letters) = String "." letters.
Proof.
  intros Hl. unfold Ext. rewrite list_of_app, rev_app_distr.
  cbn [list_ascii_of_string rev]. rewrite <-!app_assoc, extScan_app by done.
  rewrite string_of_list_ascii_of_string, str_app_nil_r. done.
Qed.

(** What [Clean] wrote is found again in the elements of the result. *)
Lemma elements_render rooted out :
  out ≠ [] → Forall noSeparator out →
  elements (render rooted out) = (if rooted then [""] else []) ++ out.
Proof.
  intros Hne Hsep. unfold render. destruct rooted.
  - change ("/" +:+ ?a) with (String Separator a). cbn [elements].
    change (IsPathSeparator Separator) with true. cbn iota.
    by rewrite elements_Join.
  - rewrite str_app_nil_l. by apply elements_Join.
Qed.

Lemma cleaned_snoc rooted out dotdot e :
  cleaned rooted (out, dotdot) → plainElement e → cleaned rooted (out ++ [e], dotdot).
Proof.
  intros (reals & Hout & Hreals & Hroot) He. simpl in *. subst out.
  exists (reals ++ [e]). simpl. rewrite app_assoc. split; [done|].
  split; [|done]. apply Forall_app. split; [done|]. by apply Forall_singleton.
Qed.

(** Joining what [Clean] wrote with a plain element appends the element. *)
Lemma Join_rendered_plain rooted out dotdot last file :
  cleaned rooted (out ++ [last], dotdot) → plainElement last → plainElement file →
  Join [render rooted (out ++ [last]); file]
  = render rooted ((out ++ [last]) ++ [file]).
Proof.
  intros Hcl Hlast Hfile. pose proof Hfile as (Hne & _).
  assert (render rooted (out ++ [last]) ≠ "") as Hdir.
  { rewrite render_snoc. destruct Hlast as (? & _).
    intros [_ ?]%str_app_eq_nil. done. }
  rewrite Join_dir_file, decide_False by done.
  rewrite Clean_dir_file by done.
  rewrite (render_snoc rooted (out ++ [last]) file).
  assert (isRooted (render rooted (out ++ [last])) = rooted) as ->.
  { unfold render. destruct rooted; [done|]. rewrite str_app_nil_l.
    destruct out as [|x out'].
    - cbn [app gostrings.Join]. destruct Hlast as (? & _ & _ & ?).
      by apply plainElement_not_rooted.
    - rewrite <-app_comm_cons in *.
      destruct (cleaned_head_not_rooted _ _ _ Hcl) as [Hx Hroot].
      destruct (Join_head x (out' ++ [last]) "/") as [more ->].
      by rewrite isRooted_app. }
  rewrite elements_render; [|by destruct out|by eapply cleaned_noSeparator].
  assert (foldl (cleanStep rooted) ([], 0)
            ((if rooted then [""] else []) ++ out ++ [last])
          = (out ++ [last], dotdot)) as ->; [|done].
  destruct rooted; cbn [app foldl].
  - change (cleanStep true ([], 0) "") with (([] : list string), 0).
    by apply foldl_cleaned_again.
  - by apply foldl_cleaned_again.
Qed.

(** Joining a directory with a plain element: what [Clean] leaves of the
    directory, and the element after it. *)
Lemma Join_dir_rendered dir file :
  plainElement file →
  ∃ dotdot,
    cleaned (cleanedDir dir).1 ((cleanedDir dir).2, dotdot)
    ∧ Join [dir; file] = render (cleanedDir dir).1 ((cleanedDir dir).2 ++ [file]).
Proof.
  intros Hfile. pose proof Hfile as (Hne & _). unfold cleanedDir.
  rewrite Join_dir_file by done. destruct (decide (dir = "")) as [->|Hdir].
  - exists 0. cbn [fst snd]. split; [apply cleaned_init|].
    rewrite Clean_plain by done. by rewrite render_snoc.
  - cbn [fst snd]. rewrite Clean_dir_file, <-render_snoc by done.
    pose proof (foldl_cleaned (isRooted dir) ([], 0) (elements dir)
                  (cleaned_init _) (elements_noSeparator dir)) as Hcl.
    destruct (foldl (cleanStep (isRooted dir)) ([], 0) (elements dir))
      as [out dotdot].
    by exists dotdot.
Qed.

(** The paths of two plain elements under one directory, with one file name
    after them, differ when the elements do. *)
Lemma Join_Join_inj dir e1 e2 file :
  plainElement e1 → plainElement e2 → plainElement file →
  Join [Join [dir; e1]; file] = Join [Join [dir; e2]; file] → e1 = e2.
Proof.
  intros He1 He2 Hfile.
  destruct (Join_dir_rendered dir e1 He1) as (dd1 & Hcl1 & ->).
  destruct (Join_dir_rendered dir e2 He2) as (dd2 & Hcl2 & ->).
  set (rooted := (cleanedDir dir).1) in *. set (out := (cleanedDir dir).2) in *.
  rewrite (Join_rendered_plain rooted out dd1 e1 file)
    by (done || by apply cleaned_snoc).
  rewrite (Join_rendered_plain rooted out dd2 e2 file)
    by (done || by apply cleaned_snoc).
  intros Heq%(f_equal elements).
  assert (∀ e dd, cleaned rooted (out, dd) → plainElement e →
            Forall noSeparator ((out ++ [e]) ++ [file])) as Hsep.
  { intros e dd Hcl He. apply Forall_app. split.
    - eapply cleaned_noSeparator, cleaned_snoc; done.
    - apply Forall_singleton. by destruct Hfile as (_ & _ & _ & ?). }
  rewrite !elements_render in Heq by (eauto || by destruct out).
  apply app_inv_head, app_inj_tail in Heq as [Heq _].
  by apply app_inj_tail in Heq as [_ ?].
Qed.

End filepath_facts.
(** * Properties of the renamer *)
Module rename_props.
Import rename rename_spec.

Section Props.
Context `{Externals}.

Lemma kindSuffixes_nonempty k suffix :
  kindSuffixes !! k = Some suffix → suffix ≠ "".
Proof.
  intros Hk.
  assert (Hall : map_Forall (λ _ v, v ≠ "") kindSuffixes)
    by (apply (bool_decide_unpack _); by vm_compute).
  exact (Hall k suffix Hk).
Qed.

(** C2. [canonicalName] returns the name for an empty kind, and otherwise the
    name, a dash and the suffix: the entry of [kindSuffixes] for the
    lower-cased kind, or the lower-cased kind when there is none.  It holds
    for every name, the empty one included. *)
Theorem canonicalName_spec (kind name : string) :
  canonicalName kind name =
    if decide (kind = "") then name
    else name +:+ "-" +:+
         match kindSuffixes !! ToLower kind with
         | Some suffix => suffix
         | None => ToLower kind
         end.
Proof.
  unfold canonicalName.
  destruct (decide (kind = "")) as [->|Hkind]; [done|].
  destruct (kindSuffixes !! ToLower kind) as [suffix|] eqn:Hk; simpl.
  - apply kindSuffixes_nonempty in Hk. by rewrite decide_False.
  - done.
Qed.

(** *** The path computed for a file is a fixed point *)

Lemma yaml_suffix_Ext (path : string) :
  gostrings.HasSuffix path ".yaml" = true ∨ gostrings.HasSuffix path ".yml" = true →
  (filepath.Ext path = ".yaml" ∨ filepath.Ext path = ".yml")
  ∧ ∀ before, filepath.Ext (before +:+ filepath.Ext path) = filepath.Ext path.
Proof.
  assert (Hyaml : Forall (λ c, c ≠ filepath.Separator ∧ c ≠ "."%char)
                         (list_ascii_of_string "yaml"))
    by (by repeat constructor).
  assert (Hyml : Forall (λ c, c ≠ filepath.Separator ∧ c ≠ "."%char)
                        (list_ascii_of_string "yml"))
    by (by repeat constructor).
  intros [[pre ->]%string_facts.HasSuffix_spec|[pre ->]%string_facts.HasSuffix_spec].
  - rewrite (filepath_facts.Ext_suffix pre "yaml" Hyaml). split; [by left|].
    intros before. apply (filepath_facts.Ext_suffix before "yaml" Hyaml).
  - rewrite (filepath_facts.Ext_suffix pre "yml" Hyml). split; [by right|].
    intros before. apply (filepath_facts.Ext_suffix before "yml" Hyml).
Qed.

Lemma newFile_plain (cn ext : string) :
  filepath.noSeparator cn → ext = ".yaml" ∨ ext = ".yml" →
  filepath.plainElement (cn +:+ ext).
Proof.
  intros Hcn Hext.
  assert (2 < String.length (cn +:+ ext)) as Hlen.
  { rewrite string_facts.str_length_app. destruct Hext as [-> | ->]; simpl; lia. }
  repeat split.
  - intros Heq. rewrite Heq in Hlen. simpl in Hlen. lia.
  - intros Heq. rewrite Heq in Hlen. simpl in Hlen. lia.
  - intros Heq. rewrite Heq in Hlen. simpl in Hlen. lia.
  - apply filepath_facts.noSeparator_app. split; [done|].
    destruct Hext as [-> | ->]; by repeat constructor.
Qed.

(** The new path is what [Clean] leaves of the directory, then the new file
    name; and computing from there gives the same path. *)
Lemma Join_dir_plain (dir file : string) :
  filepath.plainElement file →
  ∃ before, filepath.Join [dir; file] = before +:+ file
            ∧ (before = "" ∨ ∃ b, before = b +:+ "/")
            ∧ filepath.Join [before; file] = before +:+ file.
Proof.
  intros Hfile. pose proof Hfile as (Hne & _).
  rewrite filepath_facts.Join_dir_file by done.
  destruct (decide (dir = "")) as [->|Hdir].
  - exists "". rewrite filepath_facts.Join_dir_file by done.
    rewrite decide_True, filepath_facts.Clean_plain by done. auto.
  - rewrite filepath_facts.Clean_dir_file by done.
    set (rooted := filepath.isRooted dir).
    destruct (foldl (filepath.cleanStep rooted) ([], 0) (filepath.elements dir))
      as [out dotdot] eqn:Hfold.
    assert (filepath_spec.cleaned rooted (out, dotdot)) as Hcl.
    { rewrite <-Hfold. apply filepath_facts.foldl_cleaned.
      - apply filepath_facts.cleaned_init.
      - apply filepath_facts.elements_noSeparator. }
    exists (filepath_spec.prefixOf rooted out). cbn [fst].
    split; [done|]. split; [apply filepath_facts.prefixOf_shape|].
    rewrite filepath_facts.Join_dir_file by done. case_decide as Hp.
    + rewrite Hp. by apply filepath_facts.Clean_plain.
    + by eapply filepath_facts.Clean_prefix_again.
Qed.

Lemma newPathOf_shape (path kind name : string) :
  gostrings.HasSuffix path ".yaml" = true ∨ gostrings.HasSuffix path ".yml" = true →
  filepath.noSeparator (canonicalName kind name) →
  ∃ before, newPathOf path kind name
            = before +:+ canonicalName kind name +:+ filepath.Ext path
    ∧ (before = "" ∨ ∃ b, before = b +:+ "/")
    ∧ filepath.Join [before; canonicalName kind name +:+ filepath.Ext path]
      = before +:+ canonicalName kind name +:+ filepath.Ext path.
Proof.
  intros Hsuffix Hcn.
  destruct (yaml_suffix_Ext path Hsuffix) as [Hext _].
  unfold newPathOf. destruct (filepath.Split path) as [dir file].
  by apply Join_dir_plain, newFile_plain.
Qed.

Lemma newPathOf_suffix (path kind name : string) :
  gostrings.HasSuffix path ".yaml" = true ∨ gostrings.HasSuffix path ".yml" = true →
  filepath.noSeparator (canonicalName kind name) →
  gostrings.HasSuffix (newPathOf path kind name) ".yaml" = true
  ∨ gostrings.HasSuffix (newPathOf path kind name) ".yml" = true.
Proof.
  intros Hsuffix Hcn.
  destruct (newPathOf_shape path kind name Hsuffix Hcn) as (before & -> & _).
  destruct (yaml_suffix_Ext path Hsuffix) as [[-> | ->] _]; [left|right];
    apply string_facts.HasSuffix_spec;
    exists (before +:+ canonicalName kind name);
    by rewrite string_facts.str_app_assoc.
Qed.

Lemma newPathOf_fixed (path kind name : string) :
  gostrings.HasSuffix path ".yaml" = true ∨ gostrings.HasSuffix path ".yml" = true →
  filepath.noSeparator (canonicalName kind name) →
  newPathOf (newPathOf path kind name) kind name = newPathOf path kind name.
Proof.
  intros Hsuffix Hcn.
  destruct (yaml_suffix_Ext path Hsuffix) as [Hext Hext'].
  pose proof (newFile_plain _ _ Hcn Hext) as Hplain.
  destruct (newPathOf_shape path kind name Hsuffix Hcn)
    as (before & -> & Hshape & Hagain).
  unfold newPathOf.
  rewrite filepath_facts.Split_prefix_file; [|by destruct Hplain as (_&_&_&?)|done].
  replace (filepath.Ext (before +:+ canonicalName kind name +:+ filepath.Ext path))
    with (filepath.Ext path)
    by (by rewrite <-string_facts.str_app_assoc, Hext').
  done.
Qed.

(** *** One visit of the walk *)

Lemma yaml_filter (path : string) :
  gostrings.HasSuffix path ".yaml" = true ∨ gostrings.HasSuffix path ".yml" = true →
  negb (gostrings.HasSuffix path ".yaml") && negb (gostrings.HasSuffix path ".yml")
  = false.
Proof. intros [-> | ->]; [done|]. by rewrite andb_false_r. Qed.

(** A file whose name resolves is renamed to its new path, unless it is there
    already. *)
Lemma walkFn_named path fi err s node :
  IsDir fi = false →
  gostrings.HasSuffix path ".yaml" = true ∨ gostrings.HasSuffix path ".yml" = true →
  ReadFile (world s) path = inr node →
  GetName node path ≠ "" →
  let kind := GetKind node path in
  let name := GetName node path in
  let newPath := newPathOf path kind name in
  let newFile := canonicalName kind name +:+ filepath.Ext path in
  walkFn path (Some fi) err s =
    if decide (newPath = path) then (Done tt, record s [EvReadFile path None])
    else
      let '(e, w) := Rename (world s) path newPath in
      (match e with
       | Some e => Failed (Wrap e ("failed to rename " +:+ (filepath.Split path).2
                                   +:+ " to " +:+ newFile))
       | None => Done tt
       end,
       {| world := w;
          trace := trace s ++ [EvReadFile path None;
                               EvInfo ("renaming " +:+ (filepath.Split path).2
                                       +:+ " => " +:+ newFile);
                               EvRename path newPath e] |}).
Proof.
  intros Hdir Hsuffix Hread Hname. cbv zeta.
  unfold walkFn, newPathOf. rewrite Hdir, yaml_filter by done.
  unfold mbind, M_bind, bind, wrapf, yamlReadFile. rewrite Hread.
  rewrite decide_False by done.
  destruct (filepath.Split path) as [dir file]. cbn [snd].
  case_decide as Hnew.
  - rewrite decide_False by done. unfold emit, osRename. cbn [world trace].
    destruct (Rename _ _ _) as [[e|] w]; by rewrite <-!app_assoc.
  - by rewrite decide_True.
Qed.

(** One visit and the next.  A YAML file is visited; its name resolves and
    its canonical name has no separator in it.  Then the visit leaves it at its
    new path, by a rename when it was elsewhere; and when the file is visited
    at the new path, with the name and kind it had, the path computed is the
    path it is at and nothing is renamed: the visit is a read and no more. *)
Theorem walkFn_renamed_file_stays path fi err s node :
  IsDir fi = false →
  gostrings.HasSuffix path ".yaml" = true ∨ gostrings.HasSuffix path ".yml" = true →
  ReadFile (world s) path = inr node →
  GetName node path ≠ "" →
  filepath.noSeparator (canonicalName (GetKind node path) (GetName node path)) →
  let kind := GetKind node path in
  let name := GetName node path in
  let newPath := newPathOf path kind name in
  (newPath ≠ path →
   ∃ e w, Rename (world s) path newPath = (e, w)
          ∧ world (walkFn path (Some fi) err s).2 = w
          ∧ EvRename path newPath e ∈ trace (walkFn path (Some fi) err s).2)
  ∧ (newPath = path →
     walkFn path (Some fi) err s = (Done tt, record s [EvReadFile path None]))
  ∧ ∀ fi' err' s' node',
      IsDir fi' = false →
      ReadFile (world s') newPath = inr node' →
      GetName node' newPath = name →
      GetKind node' newPath = kind →
      newPathOf newPath kind name = newPath
      ∧ walkFn newPath (Some fi') err' s'
        = (Done tt, record s' [EvReadFile newPath None]).
Proof.
  intros Hdir Hsuffix Hread Hname Hcn kind name newPath.
  pose proof (walkFn_named path fi err s node Hdir Hsuffix Hread Hname) as Hvisit.
  cbv zeta in Hvisit. fold kind name newPath in Hvisit.
  split; [|split].
  - intros Hne. rewrite Hvisit, decide_False by done.
    destruct (Rename (world s) path newPath) as [e w]. exists e, w.
    split; [done|]. split; [done|]. cbn [snd trace].
    rewrite !elem_of_app, !elem_of_cons. auto.
  - intros Heq. by rewrite Hvisit, decide_True.
  - intros fi' err' s' node' Hdir' Hread' Hname' Hkind'.
    pose proof (newPathOf_fixed path kind name Hsuffix Hcn) as Hfixed.
    fold newPath in Hfixed. split; [done|].
    rewrite (walkFn_named newPath fi' err' s' node');
      [|done|by apply newPathOf_suffix|done|by rewrite Hname'].
    rewrite Hname', Hkind'. by rewrite decide_True.
Qed.

(** *** A parse failure ends the walk *)

Lemma stops_ret {A} (a : A) : stopsAtFailedRead (mret a).
Proof. intros s. exists []. split; [by rewrite app_nil_r|]. by left. Qed.

Lemma stops_quiet {A} (m : M state A) :
  (∀ s, ∃ evs, trace (m s).2 = trace s ++ evs ∧ Forall quiet evs) →
  stopsAtFailedRead m.
Proof. intros Hm s. destruct (Hm s) as (evs & ? & ?). exists evs. split; [done|by left]. Qed.

Lemma stops_emit ev : quiet ev → stopsAtFailedRead (emit ev).
Proof.
  intros Hev. apply stops_quiet. intros s. exists [ev].
  split; [done|]. by apply Forall_singleton.
Qed.

Lemma stops_lstat path : stopsAtFailedRead (lstat path).
Proof.
  apply stops_quiet. intros s. exists [EvLstat path].
  split; [done|]. by apply Forall_singleton.
Qed.

Lemma stops_readDir path : stopsAtFailedRead (readDir path).
Proof.
  apply stops_quiet. intros s. exists [EvReadDir path].
  split; [done|]. by apply Forall_singleton.
Qed.

Lemma stops_rename oldpath newpath msg :
  stopsAtFailedRead (wrapf (osRename oldpath newpath) msg).
Proof.
  apply stops_quiet. intros s. unfold wrapf, osRename.
  destruct (Rename _ _ _) as [err w]. exists [EvRename oldpath newpath err].
  split; [by destruct err|]. by apply Forall_singleton.
Qed.

Lemma stops_yamlReadFile path :
  stopsAtFailedRead (wrapf (yamlReadFile path) ("failed to load file " +:+ path)).
Proof.
  intros s. unfold wrapf, yamlReadFile.
  destruct (ReadFile _ _) as [err|node]; cbn [fst snd trace].
  - exists [EvReadFile path (Some err)]. split; [done|]. right.
    exists [], path, err. by repeat split.
  - exists [EvReadFile path None]. split; [done|]. left.
    by apply Forall_singleton.
Qed.

Lemma stopped_Done_quiet {A} (a : A) evs : stopped (Done a) evs → Forall quiet evs.
Proof. by intros [?|(? & ? & ? & _ & _ & ?)]. Qed.

Lemma stops_bind {A B} (m : M state A) (k : A → M state B) :
  stopsAtFailedRead m → (∀ a, stopsAtFailedRead (k a)) →
  stopsAtFailedRead (m ≫= k).
Proof.
  intros Hm Hk s. destruct (Hm s) as (evs1 & Htr1 & Hst1).
  unfold mbind, M_bind, bind. destruct (m s) as [[a| e | msg |] s1] eqn:Hms;
    cbn [fst snd] in *.
  - destruct (Hk a s1) as (evs2 & Htr2 & Hst2).
    exists (evs1 ++ evs2). rewrite Htr2, Htr1, app_assoc. split; [done|].
    apply stopped_Done_quiet in Hst1.
    destruct Hst2 as [Hq|(before & path & e & -> & Hq & Hr)].
    + left. by apply Forall_app.
    + right. exists (evs1 ++ before), path, e. rewrite app_assoc.
      repeat split; [|done]. by apply Forall_app.
  - exists evs1. split; [done|].
    destruct Hst1 as [?|(before & path & e' & ? & ? & Hr)]; [by left|].
    right. exists before, path, e'. repeat split; [done..|]. congruence.
  - exists evs1. split; [done|].
    destruct Hst1 as [?|(? & ? & ? & _ & _ & ?)]; [by left|done].
  - exists evs1. split; [done|].
    destruct Hst1 as [?|(? & ? & ? & _ & _ & ?)]; [by left|done].
Qed.

Lemma stops_forRange {A} (l : list A) (body : A → M state unit) :
  (∀ x, stopsAtFailedRead (body x)) → stopsAtFailedRead (forRange l body).
Proof.
  intros Hbody. induction l as [|x l IH]; [apply stops_ret|].
  cbn [forRange]. by apply stops_bind.
Qed.

Lemma stops_walkFn path info err : stopsAtFailedRead (walkFn path info err).
Proof.
  unfold walkFn. destruct info as [fi|]; [|apply stops_ret].
  destruct (IsDir fi); [apply stops_ret|].
  destruct (_ && _); [apply stops_ret|].
  apply stops_bind; [apply stops_yamlReadFile|]. intros node.
  case_decide; [by apply stops_emit|].
  destruct (filepath.Split path) as [dir file].
  case_decide; [|apply stops_ret].
  apply stops_bind; [by apply stops_emit|]. intros _. apply stops_rename.
Qed.

Lemma stops_walk fuel path info fn :
  (∀ p i e, stopsAtFailedRead (fn p i e)) →
  stopsAtFailedRead (walk fuel path info fn).
Proof.
  intros Hfn. revert path info.
  induction fuel as [|fuel IH]; intros path info.
  - intros s. exists []. split; [by rewrite app_nil_r|by left].
  - cbn [walk]. destruct (negb (IsDir info)); [apply Hfn|].
    apply stops_bind; [apply stops_readDir|]. intros [err|names]; [apply Hfn|].
    apply stops_bind; [apply Hfn|]. intros _.
    apply stops_forRange. intros name.
    apply stops_bind; [apply stops_lstat|]. intros [err|fileInfo]; [apply Hfn|].
    apply IH.
Qed.

Lemma stops_Walk fuel root fn :
  (∀ p i e, stopsAtFailedRead (fn p i e)) →
  stopsAtFailedRead (Walk fuel root fn).
Proof.
  intros Hfn. unfold Walk.
  apply stops_bind; [apply stops_lstat|]. intros [err|info]; [apply Hfn|].
  by apply stops_walk.
Qed.

(** A failed parse among the events: it is the last one. *)
Lemma stopped_split {A} (r : result A) evs pre post path e :
  stopped r evs → evs = pre ++ EvReadFile path (Some e) :: post →
  post = [] ∧ r = Failed (Wrap e ("failed to load file " +:+ path)).
Proof.
  intros [Hq|(before & path' & e' & -> & Hq & ->)] Hevs.
  - subst evs. apply Forall_app in Hq as [_ Hq]. by inversion_clear Hq.
  - destruct post as [|ev post _] using rev_ind.
    + apply app_inj_tail in Hevs as [_ Heq]. by simplify_eq.
    + rewrite app_comm_cons, app_assoc in Hevs.
      apply app_inj_tail in Hevs as [-> _].
      apply Forall_app in Hq as [_ Hq]. by inversion_clear Hq.
Qed.

(** C10.  A YAML file that does not parse makes its visit fail with the error
    of the parse, wrapped with the path of the file; in every run a failed
    parse is the last thing that happens, and the run returns that error,
    wrapped once more with the directory.  A file whose name does not resolve
    gets a warning, and its visit returns normally with the file system as it
    was; and after a visit that returned normally the loop of the walk goes on
    with the names that are left. *)
Theorem parse_failure_aborts_walk :
  (∀ path fi err s e,
     IsDir fi = false →
     gostrings.HasSuffix path ".yaml" = true ∨ gostrings.HasSuffix path ".yml" = true →
     ReadFile (world s) path = inl e →
     walkFn path (Some fi) err s
     = (Failed (Wrap e ("failed to load file " +:+ path)),
        record s [EvReadFile path (Some e)]))
  ∧ (∀ fuel o s,
       ∃ evs, trace (Run fuel o s).2 = trace s ++ evs
         ∧ ∀ pre post path e,
             evs = pre ++ EvReadFile path (Some e) :: post →
             post = []
             ∧ (Run fuel o s).1
               = Failed (Wrap (Wrap e ("failed to load file " +:+ path))
                              ("failed to rename YAML files in dir " +:+ Dir o)))
  ∧ (∀ path fi err s node,
       IsDir fi = false →
       gostrings.HasSuffix path ".yaml" = true ∨ gostrings.HasSuffix path ".yml" = true →
       ReadFile (world s) path = inr node →
       GetName node path = "" →
       walkFn path (Some fi) err s
       = (Done tt,
          record s [EvReadFile path None;
                    EvWarn ("no name for file " +:+ path +:+ " so ignoring")]))
  ∧ (∀ (names : list string) name (visit : string → M state unit) s s1,
       visit name s = (Done tt, s1) →
       forRange (name :: names) visit s = forRange names visit s1).
Proof.
  split; [|split; [|split]].
  - intros path fi err s e Hdir Hsuffix Hread.
    unfold walkFn. rewrite Hdir, yaml_filter by done.
    unfold mbind, M_bind, bind, wrapf, yamlReadFile. by rewrite Hread.
  - intros fuel o s.
    destruct (stops_Walk fuel (Dir o) walkFn stops_walkFn s) as (evs & Htr & Hst).
    exists evs. unfold Run, wrapf.
    destruct (Walk fuel (Dir o) walkFn s) as [r s1] eqn:Hwalk. cbn [fst snd] in *.
    split; [by destruct r|].
    intros pre post path e Hevs.
    destruct (stopped_split _ _ _ _ _ _ Hst Hevs) as [-> ->]. done.
  - intros path fi err s node Hdir Hsuffix Hread Hname.
    unfold walkFn. rewrite Hdir, yaml_filter by done.
    unfold mbind, M_bind, bind, wrapf, yamlReadFile. rewrite Hread.
    rewrite decide_True by done. unfold emit, record. cbn [world trace].
    by rewrite <-app_assoc.
  - intros names name visit s s1 Hvisit. cbn [forRange].
    unfold mbind, M_bind, bind. by rewrite Hvisit.
Qed.

End Props.

#[local] Existing Instance renamesim.externals.

(** The examples of the specification, with ASCII lower-casing. *)
Example canonicalName_Service_foo :
  canonicalName "Service" "foo" = "foo-svc".
Proof. by vm_compute. Qed.

Example canonicalName_Widget_foo :
  canonicalName "Widget" "foo" = "foo-widget".
Proof. by vm_compute. Qed.

Example canonicalName_no_kind :
  canonicalName "" "foo" = "foo".
Proof. by vm_compute. Qed.

(** The visit of [x.yaml], a service named [foo]: it is renamed to
    [foo-svc.yaml], and a visit of [foo-svc.yaml] renames nothing. *)
Lemma walkFn_renamed_file_stays_witness :
  let s := renamesim.start renamesim.serviceTree in
  let fi := {| IsDir := false |} in
  let s1 := (walkFn "x.yaml" (Some fi) None s).2 in
  (IsDir fi = false
   ∧ gostrings.HasSuffix "x.yaml" ".yaml" = true
   ∧ ReadFile (world s) "x.yaml" = inr ("Service", "foo")
   ∧ GetName ("Service", "foo") "x.yaml" ≠ ""
   ∧ filepath.noSeparator (canonicalName "Service" "foo")
   ∧ ReadFile (world s1) "foo-svc.yaml" = inr ("Service", "foo"))
  ∧ newPathOf "x.yaml" "Service" "foo" = "foo-svc.yaml"
  ∧ walkFn "foo-svc.yaml" (Some fi) None s1
    = (Done tt, record s1 [EvReadFile "foo-svc.yaml" None]).
Proof.
  intros s fi s1.
  assert (Hhyp : IsDir fi = false
   ∧ gostrings.HasSuffix "x.yaml" ".yaml" = true
   ∧ ReadFile (world s) "x.yaml" = inr ("Service", "foo")
   ∧ GetName ("Service", "foo") "x.yaml" ≠ ""
   ∧ filepath.noSeparator (canonicalName "Service" "foo")
   ∧ ReadFile (world s1) "foo-svc.yaml" = inr ("Service", "foo")).
  { repeat split; try (by vm_compute).
    apply (bool_decide_unpack _). by vm_compute. }
  split; [exact Hhyp|].
  destruct Hhyp as (Hdir & Hsuffix & Hread & Hname & Hcn & Hread').
  split; [by vm_compute|].
  pose proof (walkFn_renamed_file_stays "x.yaml" fi None s ("Service", "foo")
                Hdir (or_introl Hsuffix) Hread Hname Hcn) as (_ & _ & Hagain).
  exact (proj2 (Hagain fi None s1 ("Service", "foo") Hdir Hread' eq_refl eq_refl)).
Defined.

(** C5 fails when the name has a separator in it.  A service named [a/b] in
    [x.yaml], next to a directory [a]: the first run succeeds and moves the
    file to [a/b-svc.yaml]; the second run computes [a/a/b-svc.yaml] for it,
    which is not where it is, and makes another rename. *)
Lemma second_run_renames_again :
  let o := {| Dir := "." |} in
  let first := Run 5 o (renamesim.start renamesim.slashTree) in
  let second := Run 5 o (renamesim.start (world first.2)) in
  first.1 = Done tt
  ∧ world first.2 !! "a/b-svc.yaml" = Some (renamesim.Manifest "Service" "a/b")
  ∧ newPathOf "a/b-svc.yaml" "Service" "a/b" = "a/a/b-svc.yaml"
  ∧ trace second.2
    = [EvLstat "."; EvReadDir "."; EvLstat "a"; EvReadDir "a";
       EvLstat "a/b-svc.yaml"; EvReadFile "a/b-svc.yaml" None;
       EvInfo "renaming b-svc.yaml => a/b-svc.yaml";
       EvRename "a/b-svc.yaml" "a/a/b-svc.yaml"
         (Some (New "rename a/b-svc.yaml a/a/b-svc.yaml: no such file or directory"))].
Proof. repeat split; vm_compute; reflexivity. Qed.

(** A run over three files: [a.yaml] has no name, [b.yaml] does not parse,
    [c.yaml] is a service.  The warning for [a.yaml] is followed by the visit
    of [b.yaml], whose parse fails; the run ends there, and [c.yaml] is never
    looked at. *)
Lemma parse_failure_aborts_walk_witness :
  let s := renamesim.start renamesim.brokenTree in
  let o := {| Dir := "." |} in
  let fi := {| IsDir := false |} in
  let e := New "yaml: did not find expected node content" in
  (IsDir fi = false
   ∧ gostrings.HasSuffix "b.yaml" ".yaml" = true
   ∧ gostrings.HasSuffix "a.yaml" ".yaml" = true
   ∧ ReadFile (world s) "b.yaml" = inl e
   ∧ ReadFile (world s) "a.yaml" = inr ("Service", "")
   ∧ trace (Run 5 o s).2
     = [EvLstat "."; EvReadDir "."; EvLstat "a.yaml"; EvReadFile "a.yaml" None;
        EvWarn "no name for file a.yaml so ignoring"; EvLstat "b.yaml"]
       ++ EvReadFile "b.yaml" (Some e) :: [])
  ∧ walkFn "b.yaml" (Some fi) None s
    = (Failed (Wrap e "failed to load file b.yaml"),
       record s [EvReadFile "b.yaml" (Some e)])
  ∧ (Run 5 o s).1
    = Failed (Wrap (Wrap e "failed to load file b.yaml")
                   "failed to rename YAML files in dir .")
  ∧ walkFn "a.yaml" (Some fi) None s
    = (Done tt, record s [EvReadFile "a.yaml" None;
                          EvWarn "no name for file a.yaml so ignoring"]).
Proof.
  intros s o fi e.
  assert (Hhyp : IsDir fi = false
   ∧ gostrings.HasSuffix "b.yaml" ".yaml" = true
   ∧ gostrings.HasSuffix "a.yaml" ".yaml" = true
   ∧ ReadFile (world s) "b.yaml" = inl e
   ∧ ReadFile (world s) "a.yaml" = inr ("Service", "")
   ∧ trace (Run 5 o s).2
     = [EvLstat "."; EvReadDir "."; EvLstat "a.yaml"; EvReadFile "a.yaml" None;
        EvWarn "no name for file a.yaml so ignoring"; EvLstat "b.yaml"]
       ++ EvReadFile "b.yaml" (Some e) :: [])
    by (repeat split; by vm_compute).
  split; [exact Hhyp|].
  destruct Hhyp as (Hdir & Hb & Ha & Hreadb & Hreada & Htrace).
  destruct parse_failure_aborts_walk as (Hfail & Hrun & Hwarn & _).
  split; [|split].
  - exact (Hfail "b.yaml" fi None s e Hdir (or_introl Hb) Hreadb).
  - destruct (Hrun 5 o s) as (evs & Htr & Hlast).
    change (trace s) with (@nil event) in Htr. rewrite app_nil_l in Htr.
    rewrite Htr in Htrace. exact (proj2 (Hlast _ _ _ _ Htrace)).
  - exact (Hwarn "a.yaml" fi None s ("Service", "") Hdir (or_introl Ha) Hreada eq_refl).
Defined.

(** Two runs over a service in [x.yaml]: the first renames the file, the
    second reads it and renames nothing. *)
Example second_run_renames_nothing :
  let o := {| Dir := "." |} in
  let first := Run 5 o (renamesim.start renamesim.serviceTree) in
  let second := Run 5 o (renamesim.start (world first.2)) in
  trace first.2
  = [EvLstat "."; EvReadDir "."; EvLstat "x.yaml"; EvReadFile "x.yaml" None;
     EvInfo "renaming x.yaml => foo-svc.yaml";
     EvRename "x.yaml" "foo-svc.yaml" None]
  ∧ second.1 = Done tt
  ∧ trace second.2
    = [EvLstat "."; EvReadDir "."; EvLstat "foo-svc.yaml";
       EvReadFile "foo-svc.yaml" None].
Proof. repeat split; vm_compute; reflexivity. Qed.

End rename_props.

(** * Properties of the job generator *)
Module jobs_props.
Import v1alpha1 jobs jobs_spec.

Section Props.
Context `{Externals}.

(** Unfolding the monad at a call. *)
Ltac proj :=
  cbn [Dir ConfigFile OutDir DefaultXmlTemplate SourceConfig JenkinsServers
       opts world trace fst snd negb].

Ltac step :=
  repeat (progress (
    unfold mbind, M_bind, bind, mret, M_ret, ret, mthrow, M_throw, fail, wrapf,
      panic, getOpts, modifyOpts, emit, fileExists, readFile, loadFile,
      mkdirAll, writeFile, reading, writing;
    proj)).

Lemma mapRange_empty w : mapRange w ∅ = [].
Proof.
  apply Permutation_nil_r.
  rewrite <-(map_to_list_empty (A := list JenkinsTemplateConfig)).
  apply mapRange_perm.
Qed.

(** *** [Validate] *)

Lemma Validate_eq s :
  Validate s =
    let o := withPaths (opts s) in
    let s0 := {| opts := o; world := world s; trace := trace s |} in
    let cf := ConfigFile o in
    let tpl := DefaultXmlTemplate o in
    match FileExists (world s) cf with
    | inl e => (Failed (Wrap e ("failed to check if file exists " +:+ cf)),
                record s0 [EvFileExists cf])
    | inr false =>
        (Done tt,
         record s0 [EvFileExists cf;
                    EvInfo ("the source config file " +:+ info cf
                            +:+ " does not exist")])
    | inr true =>
        if decide (tpl ≠ "") then
          match FileExists (world s) tpl with
          | inl e => (Failed (Wrap e ("failed to check if file exists " +:+ tpl)),
                      record s0 [EvFileExists cf; EvFileExists tpl])
          | inr false =>
              (Failed (New ("the default-xml-template file " +:+ tpl
                            +:+ " does not exist")),
               record s0 [EvFileExists cf; EvFileExists tpl])
          | inr true => loadConfig s [EvFileExists cf; EvFileExists tpl]
          end
        else loadConfig s [EvFileExists cf]
    end.
Proof.
  destruct s as [[dir cfile out tpl config servers] w tr].
  unfold Validate, loadConfig, withPaths, configFileOf, outDirOf, record,
    withServers, withSourceConfig, withJenkinsServers.
  step. proj.
  repeat (case_decide; proj); try done.
  all: destruct (FileExists w _) as [e|[]]; proj;
       rewrite <-?app_assoc; try done.
  all: repeat (case_decide; proj); try done.
  all: try (destruct (FileExists w tpl) as [?|[]]; proj;
            rewrite <-?app_assoc; try done).
  all: destruct (LoadFile w _ config) as [?|c]; proj;
       rewrite <-?app_assoc; try done.
  all: by destruct servers.
Qed.

(** *** One repository *)

Lemma processJenkinsConfig_eq group repo jc s :
  processJenkinsConfig group repo jc s =
    if decide (v1alpha1.Server jc = "") then (Done tt, record s [ignoring repo])
    else if decide (XmlTemplate jc ≠ "") then
      let p := filepath.Join [Dir (opts s); XmlTemplate jc] in
      match FileExists (world s) p with
      | inl e => (Failed (Wrap e ("failed to check if file exists " +:+ p)),
                  record s [EvFileExists p])
      | inr false =>
          (Failed (New ("the xmlTemplate file " +:+ p +:+ " does not exist")),
           record s [EvFileExists p])
      | inr true => loadTemplate group repo jc p s [EvFileExists p]
      end
    else if decide (DefaultXmlTemplate (opts s) = "") then
      (Done tt, record s [ignoring repo])
    else loadTemplate group repo jc (DefaultXmlTemplate (opts s)) s [].
Proof.
  destruct s as [o w tr].
  unfold processJenkinsConfig, loadTemplate, record, withJenkinsServers, configOf.
  case_decide; [done|]. step. case_decide as Hxml.
  - step. destruct (FileExists w _) as [e|[]]; proj; [done| |done].
    rewrite decide_False by (by apply filepath_facts.Join_not_empty'). step.
    destruct (ReadFile w _) as [e|data]; proj; rewrite <-?app_assoc; [done|].
    unfold appendJenkinsServer. step. by destruct (JenkinsServers o).
  - step. case_decide; [done|]. step.
    destruct (ReadFile w _) as [e|data]; proj; [done|].
    unfold appendJenkinsServer. step. by destruct (JenkinsServers o).
Qed.

Lemma visitRepository_eq i j s group repo :
  Groups (SourceConfig (opts s)) !! i = Some group →
  Repositories group !! j = Some repo →
  visitRepository i j s =
    match Jenkins (defaultedRepo s group repo) with
    | None => (Done tt, defaulted s i j group repo)
    | Some jc =>
        wrapf (processJenkinsConfig (defaultedGroup s j group repo)
                                    (defaultedRepo s group repo) jc)
              "failed to process Jenkins Config" (defaulted s i j group repo)
    end.
Proof.
  intros Hi Hj. unfold visitRepository, defaulted, defaultedGroup, defaultedRepo.
  step. rewrite Hi, Hj.
  destruct (DefaultValues _ group repo) as [g repo']. step.
  by destruct (Jenkins repo').
Qed.

(** C6.  A repository is visited.  If it has no Jenkins configuration after
    the defaults, the visit does nothing but the defaulting.  If its Jenkins
    configuration has no server, or its template path, after falling back to
    the default one, is empty, the visit logs that the repository is ignored.
    In the three cases the visit returns normally, so that the loop goes on,
    and the configurations collected for the servers are what they were. *)
Theorem visitRepository_skips i j s group repo :
  Groups (SourceConfig (opts s)) !! i = Some group →
  Repositories group !! j = Some repo →
  let repo' := defaultedRepo s group repo in
  let s' := defaulted s i j group repo in
  JenkinsServers (opts s') = JenkinsServers (opts s)
  ∧ (Jenkins repo' = None → visitRepository i j s = (Done tt, s'))
  ∧ (∀ jc, Jenkins repo' = Some jc →
       v1alpha1.Server jc = "" ∨ resolvedTemplate (opts s) jc = "" →
       visitRepository i j s = (Done tt, record s' [ignoring repo'])).
Proof.
  intros Hi Hj repo' s'. split; [done|].
  rewrite (visitRepository_eq i j s group repo Hi Hj). fold repo' s'.
  split; [by intros ->|]. intros jc -> Hskip.
  unfold wrapf. rewrite processJenkinsConfig_eq.
  case_decide as Hserver; [done|].
  destruct Hskip as [?|Hskip]; [done|]. unfold resolvedTemplate in Hskip.
  case_decide as Hxml.
  - by apply filepath_facts.Join_not_empty' in Hskip.
  - change (DefaultXmlTemplate (opts s')) with (DefaultXmlTemplate (opts s)).
    by rewrite decide_True.
Qed.

(** A repository with a server and a template path, when its processing
    returns normally: the template was read at that path and a configuration
    was appended, last, to those of the server. *)
Lemma processJenkinsConfig_appends group repo jc s s' :
  v1alpha1.Server jc ≠ "" →
  resolvedTemplate (opts s) jc ≠ "" →
  processJenkinsConfig group repo jc s = (Done tt, s') →
  ∃ servers data,
    JenkinsServers (opts s) = Some servers
    ∧ ReadFile (world s) (resolvedTemplate (opts s) jc) = inr data
    ∧ opts s' = withJenkinsServers (opts s)
                  (<[v1alpha1.Server jc :=
                       default [] (servers !! v1alpha1.Server jc)
                       ++ [configOf group repo jc (resolvedTemplate (opts s) jc) data]]>
                     servers)
    ∧ world s' = world s.
Proof.
  intros Hserver Hpath. rewrite processJenkinsConfig_eq.
  unfold resolvedTemplate in *. rewrite decide_False by done.
  assert (∀ p evs, loadTemplate group repo jc p s evs = (Done tt, s') →
            ∃ servers data,
              JenkinsServers (opts s) = Some servers
              ∧ ReadFile (world s) p = inr data
              ∧ opts s' = withJenkinsServers (opts s)
                  (<[v1alpha1.Server jc :=
                       default [] (servers !! v1alpha1.Server jc)
                       ++ [configOf group repo jc p data]]> servers)
              ∧ world s' = world s) as Hload.
  { intros p evs. unfold loadTemplate.
    destruct (ReadFile (world s) p) as [e|data]; [done|].
    destruct (JenkinsServers (opts s)) as [servers|]; [|done].
    intros [= <-]. by exists servers, data. }
  case_decide.
  - cbv zeta. destruct (FileExists _ _) as [e|[]]; [done| |done]. apply Hload.
  - rewrite decide_False by done. apply Hload.
Qed.

(** C9.  A repository with a server and a template of its own: the path that
    is checked and read is the template joined with the working directory.
    A repository with a server and no template of its own: the path that is
    read is the default template as the flag gives it, not joined with the
    working directory; and that same path is what [Validate] checks when the
    configuration file exists.  So a relative default template is looked up
    from the directory of the process, as [tpl.xml] is, and not from the
    working directory, as [work/tpl.xml] would be. *)
Theorem template_path_resolution :
  (∀ group repo jc s,
     v1alpha1.Server jc ≠ "" → XmlTemplate jc ≠ "" →
     let p := filepath.Join [Dir (opts s); XmlTemplate jc] in
     let run := processJenkinsConfig group repo jc s in
     (FileExists (world s) p = inr true →
        trace run.2 = trace s ++ [EvFileExists p; EvReadFile p])
     ∧ (FileExists (world s) p ≠ inr true →
        trace run.2 = trace s ++ [EvFileExists p])
     ∧ (run.1 = Done tt →
        ∃ servers data,
          JenkinsServers (opts s) = Some servers
          ∧ ReadFile (world s) p = inr data
          ∧ JenkinsServers (opts run.2)
            = Some (<[v1alpha1.Server jc :=
                        default [] (servers !! v1alpha1.Server jc)
                        ++ [configOf group repo jc p data]]> servers)))
  ∧ (∀ group repo jc s,
       v1alpha1.Server jc ≠ "" → XmlTemplate jc = "" →
       DefaultXmlTemplate (opts s) ≠ "" →
       let p := DefaultXmlTemplate (opts s) in
       let run := processJenkinsConfig group repo jc s in
       trace run.2 = trace s ++ [EvReadFile p]
       ∧ (run.1 = Done tt →
          ∃ servers data,
            JenkinsServers (opts s) = Some servers
            ∧ ReadFile (world s) p = inr data
            ∧ JenkinsServers (opts run.2)
              = Some (<[v1alpha1.Server jc :=
                          default [] (servers !! v1alpha1.Server jc)
                          ++ [configOf group repo jc p data]]> servers)))
  ∧ (∀ s,
       FileExists (world s) (configFileOf (opts s)) = inr true →
       DefaultXmlTemplate (opts s) ≠ "" →
       ∃ more,
         trace (Validate s).2
         = trace s ++ EvFileExists (configFileOf (opts s))
                   :: EvFileExists (DefaultXmlTemplate (opts s)) :: more)
  ∧ filepath.Join ["work"; "tpl.xml"] = "work/tpl.xml".
Proof.
  assert (∀ group repo jc p s evs,
            trace (loadTemplate group repo jc p s evs).2
            = trace s ++ evs ++ [EvReadFile p]) as Htrace.
  { intros group repo jc p s evs. unfold loadTemplate.
    destruct (ReadFile _ _) as [e|data]; [done|].
    by destruct (JenkinsServers (opts s)). }
  assert (∀ group repo jc s,
            v1alpha1.Server jc ≠ "" → resolvedTemplate (opts s) jc ≠ "" →
            let run := processJenkinsConfig group repo jc s in
            run.1 = Done tt →
            ∃ servers data,
              JenkinsServers (opts s) = Some servers
              ∧ ReadFile (world s) (resolvedTemplate (opts s) jc) = inr data
              ∧ JenkinsServers (opts run.2)
                = Some (<[v1alpha1.Server jc :=
                            default [] (servers !! v1alpha1.Server jc)
                            ++ [configOf group repo jc
                                  (resolvedTemplate (opts s) jc) data]]> servers))
    as Happend.
  { intros group repo jc s Hserver Hpath run Hdone.
    destruct (processJenkinsConfig group repo jc s) as [r s'] eqn:Hrun.
    subst run. cbn [fst snd] in *. subst r.
    destruct (processJenkinsConfig_appends _ _ _ _ _ Hserver Hpath Hrun)
      as (servers & data & ? & ? & -> & _).
    by exists servers, data. }
  split; [|split; [|split]].
  - intros group repo jc s Hserver Hxml p run.
    assert (resolvedTemplate (opts s) jc = p) as Hp
      by (unfold resolvedTemplate; by rewrite decide_True).
    split; [|split].
    + unfold run. rewrite processJenkinsConfig_eq.
      rewrite decide_False, decide_True by done. fold p. cbv zeta.
      intros ->. by rewrite Htrace.
    + unfold run. rewrite processJenkinsConfig_eq.
      rewrite decide_False, decide_True by done. fold p. cbv zeta.
      intros Hno. by destruct (FileExists _ _) as [e|[]].
    + rewrite <-Hp. apply Happend; [done|]. rewrite Hp.
      by apply filepath_facts.Join_not_empty'.
  - intros group repo jc s Hserver Hxml Hdefault p run.
    assert (resolvedTemplate (opts s) jc = p) as Hp.
    { unfold resolvedTemplate. rewrite decide_False; [done|]. by intros []. }
    split.
    + unfold run. rewrite processJenkinsConfig_eq.
      rewrite !decide_False by (done || by intros []). by rewrite Htrace.
    + rewrite <-Hp. apply Happend; [done|]. by rewrite Hp.
  - intros s Hcf Hdefault. rewrite Validate_eq. cbv zeta.
    change (ConfigFile (withPaths (opts s))) with (configFileOf (opts s)).
    rewrite Hcf. change (DefaultXmlTemplate (withPaths (opts s)))
      with (DefaultXmlTemplate (opts s)).
    rewrite decide_True by done.
    destruct (FileExists (world s) (DefaultXmlTemplate (opts s))) as [e|[]];
      [by exists []| |by exists []].
    unfold loadConfig.
    change (ConfigFile (withPaths (opts s))) with (configFileOf (opts s)).
    destruct (LoadFile _ _ _); by eexists.
  - by vm_compute.
Qed.

(** C4.  A repository is visited, has a server and a template path after the
    defaults, and its visit returns normally.  Then a configuration was
    appended for its server, and the template data of that configuration has
    the seven keys [Owner], [GitServerURL], [GitKind], [GitName],
    [Repository], [URL] and [CloneURL] and no other, bound to the owner,
    provider, provider kind and provider name of the group and to the name,
    URL and HTTP clone URL of the repository, all as [DefaultValues] left
    them. *)
Theorem templateData_after_defaults i j s s' group repo jc :
  Groups (SourceConfig (opts s)) !! i = Some group →
  Repositories group !! j = Some repo →
  let g' := (DefaultValues (SourceConfig (opts s)) group repo).1 in
  let repo' := (DefaultValues (SourceConfig (opts s)) group repo).2 in
  Jenkins repo' = Some jc →
  v1alpha1.Server jc ≠ "" →
  resolvedTemplate (opts s) jc ≠ "" →
  visitRepository i j s = (Done tt, s') →
  ∃ servers cfg,
    JenkinsServers (opts s) = Some servers
    ∧ JenkinsServers (opts s')
      = Some (<[v1alpha1.Server jc :=
                  default [] (servers !! v1alpha1.Server jc) ++ [cfg]]> servers)
    ∧ Key cfg = Name repo'
    ∧ dom (TemplateData cfg)
      = (list_to_set ["Owner"; "GitServerURL"; "GitKind"; "GitName";
                      "Repository"; "URL"; "CloneURL"] : gset string)
    ∧ TemplateData cfg !! "Owner" = Some (Owner g')
    ∧ TemplateData cfg !! "GitServerURL" = Some (Provider g')
    ∧ TemplateData cfg !! "GitKind" = Some (ProviderKind g')
    ∧ TemplateData cfg !! "GitName" = Some (ProviderName g')
    ∧ TemplateData cfg !! "Repository" = Some (Name repo')
    ∧ TemplateData cfg !! "URL" = Some (URL repo')
    ∧ TemplateData cfg !! "CloneURL" = Some (HTTPCloneURL repo').
Proof.
  intros Hi Hj g' repo' Hjenkins Hserver Hpath.
  rewrite (visitRepository_eq i j s group repo Hi Hj).
  unfold defaultedRepo. fold repo'. rewrite Hjenkins.
  set (group' := defaultedGroup s j group repo).
  set (s1 := defaulted s i j group repo). unfold wrapf.
  destruct (processJenkinsConfig group' repo' jc s1) as [[| | |] s2] eqn:Hrun;
    try done.
  destruct a. intros [= <-].
  destruct (processJenkinsConfig_appends group' repo' jc s1 s2 Hserver Hpath Hrun)
    as (servers & data & Hservers & _ & -> & _).
  exists servers, (configOf group' repo' jc (resolvedTemplate (opts s1) jc) data).
  split; [done|]. split; [done|]. split; [done|].
  cbn [configOf TemplateData]. unfold templateDataOf.
  split; [by rewrite dom_list_to_map_L|].
  cbn [list_to_map foldr uncurry fst snd group' defaultedGroup Owner Provider
       ProviderKind ProviderName].
  repeat split; by simplify_map_eq.
Qed.

(** *** The jobs of a server *)

Lemma renderJobs_cons server c configs jobs s :
  renderJobs server (c :: configs) jobs s =
    match evaluateConfig server c s with
    | (Done output, s1) =>
        renderJobs server configs (<[Key c := VString output]> jobs) s1
    | (Failed e, s1) =>
        (Failed (Wrap e ("failed to evaluate template " +:+ XMLTemplateFile c)), s1)
    | (Panicked msg, s1) => (Panicked msg, s1)
    | (OutOfFuel, s1) => (OutOfFuel, s1)
    end.
Proof.
  cbn [renderJobs]. unfold mbind, M_bind, bind, wrapf, evaluateConfig.
  by destruct (evaluate _ _ _ _ s) as [[| | |] s1].
Qed.

Lemma evaluateConfig_result server c s :
  (∃ output, (evaluateConfig server c s).1 = Done output)
  ∨ (∃ e, (evaluateConfig server c s).1 = Failed e).
Proof.
  unfold evaluateConfig, evaluate.
  destruct (Evaluate _ _ _ _ _) as [[e|output] w]; cbn; eauto.
Qed.

Lemma evaluateConfig_state server c s :
  opts (evaluateConfig server c s).2 = opts s
  ∧ trace (evaluateConfig server c s).2 = trace s.
Proof.
  unfold evaluateConfig, evaluate.
  by destruct (Evaluate _ _ _ _ _) as [[e|output] w].
Qed.


Lemma renderJobs_state server configs jobs s :
  opts (renderJobs server configs jobs s).2 = opts s
  ∧ trace (renderJobs server configs jobs s).2 = trace s.
Proof.
  revert jobs s. induction configs as [|c configs IH]; intros jobs s; [done|].
  rewrite renderJobs_cons. pose proof (evaluateConfig_state server c s) as [Ho Ht].
  destruct (evaluateConfig server c s) as [[output| | |] s1]; cbn [snd] in *;
    [|done..].
  destruct (IH (<[Key c := VString output]> jobs) s1) as [-> ->]. done.
Qed.

(** The keys of the jobs rendered are the keys of the configurations, and the
    values are strings. *)
Lemma renderJobs_dom server configs jobs s jobs' s' :
  renderJobs server configs jobs s = (Done jobs', s') →
  dom jobs' = dom jobs ∪ list_to_set (Key <$> configs)
  ∧ ∀ k v, jobs' !! k = Some v →
           jobs !! k = Some v ∨ (k ∈ Key <$> configs ∧ ∃ output, v = VString output).
Proof.
  revert jobs s. induction configs as [|c configs IH]; intros jobs s.
  - intros [= <- <-]. split; [|auto].
    cbn [fmap list_fmap list_to_set]. by rewrite (right_id_L ∅ (∪)).
  - rewrite renderJobs_cons.
    destruct (evaluateConfig server c s) as [[output| | |] s1]; [|done..].
    intros [Hdom Hval]%IH. rewrite fmap_cons. split.
    + rewrite Hdom, dom_insert_L, list_to_set_cons.
      by rewrite (comm_L (∪) {[Key c]}), (assoc_L (∪)).
    + intros k v [Hk|[Hk Hv]]%Hval.
      * destruct (decide (k = Key c)) as [->|Hne].
        -- rewrite lookup_insert_eq in Hk. injection Hk as <-.
           right. split; [by left|eauto].
        -- rewrite lookup_insert_ne in Hk by done. auto.
      * right. split; [by right|done].
Qed.


(** Rendering returns its jobs, or the error of an evaluation: two
    configurations of one key are no error. *)
Lemma renderJobs_result server configs jobs s :
  (∃ jobs', (renderJobs server configs jobs s).1 = Done jobs')
  ∨ (∃ c e s1,
       c ∈ configs ∧ (evaluateConfig server c s1).1 = Failed e
       ∧ (renderJobs server configs jobs s).1
         = Failed (Wrap e ("failed to evaluate template " +:+ XMLTemplateFile c))).
Proof.
  revert jobs s. induction configs as [|c configs IH]; intros jobs s.
  - left. by exists jobs.
  - rewrite renderJobs_cons.
    destruct (evaluateConfig_result server c s) as [[output Hr]|[e Hr]];
      destruct (evaluateConfig server c s) as [r s1] eqn:Hev;
      cbn [fst] in Hr; subst r.
    + destruct (IH (<[Key c := VString output]> jobs) s1)
        as [?|(c' & e & s2 & ? & ? & ?)]; [by left|].
      right. exists c', e, s2. split; [by right|done].
    + right. exists c, e, s. rewrite Hev. split; [by left|done].
Qed.


(** *** One server *)

Lemma writeServer_eq server configs s :
  writeServer server configs s =
    match MkdirAll (world s) (serverDir (opts s) server) with
    | (Some e, w) =>
        (Failed (Wrap e ("failed to create dir " +:+ serverDir (opts s) server)),
         {| opts := opts s; world := w;
            trace := trace s ++ [EvMkdirAll (serverDir (opts s) server)] |})
    | (None, w) =>
        match renderJobs server configs ∅ (afterMkdir s server w) with
        | (Done jobs, s1) =>
            match Marshal (valuesOf jobs) with
            | inl e =>
                (Failed (Wrap e ("failed to marshal values YAML for server "
                                 +:+ server)), s1)
            | inr data =>
                match WriteFile (world s1) (valuesPath (opts s) server) data with
                | (Some e, w') =>
                    (Failed (Wrap e ("failed to save file "
                                     +:+ valuesPath (opts s) server)),
                     {| opts := opts s1; world := w';
                        trace := trace s1
                                 ++ [EvWriteFile (valuesPath (opts s) server) data] |})
                | (None, w') =>
                    (Done tt,
                     {| opts := opts s1; world := w';
                        trace := trace s1
                                 ++ [EvWriteFile (valuesPath (opts s) server) data] |})
                end
            end
        | (Failed e, s1) => (Failed e, s1)
        | (Panicked msg, s1) => (Panicked msg, s1)
        | (OutOfFuel, s1) => (OutOfFuel, s1)
        end
    end.
Proof.
  unfold writeServer, afterMkdir, creating, valuesPath, serverDir. step.
  destruct (MkdirAll _ _) as [[e|] w]; proj; [done|]. rewrite <-app_assoc.
  cbn [app].
  destruct (renderJobs _ _ _ _) as [[jobs| | |] s1]; [|done..].
  unfold marshal. destruct (Marshal _) as [e|data]; [done|]. proj.
  by destruct (WriteFile _ _ _) as [[e|] w'].
Qed.

(** A server whose file was written: the directory was made, the jobs were
    rendered and marshalled, and the result written to the file. *)
Lemma writeServer_Done server configs s s' :
  writeServer server configs s = (Done tt, s') →
  ∃ w jobs s1 data,
    MkdirAll (world s) (serverDir (opts s) server) = (None, w)
    ∧ renderJobs server configs ∅ (afterMkdir s server w) = (Done jobs, s1)
    ∧ Marshal (valuesOf jobs) = inr data
    ∧ opts s' = opts s
    ∧ trace s' = trace s ++ [EvMkdirAll (serverDir (opts s) server);
                             creating (opts s) server;
                             EvWriteFile (valuesPath (opts s) server) data].
Proof.
  rewrite writeServer_eq.
  destruct (MkdirAll _ _) as [[e|] w]; [done|].
  pose proof (renderJobs_state server configs ∅ (afterMkdir s server w)) as [Ho Ht].
  destruct (renderJobs _ _ _ _) as [[jobs| | |] s1] eqn:Hrender; [|done..].
  cbn [snd] in *. destruct (Marshal _) as [e|data] eqn:Hdata; [done|].
  destruct (WriteFile _ _ _) as [[e|] w']; [done|]. intros [= <-].
  exists w, jobs, s1, data. proj. rewrite Ho, Ht. cbn [afterMkdir opts trace].
  by rewrite <-app_assoc.
Qed.


(** *** The two loops of [Run] *)

Lemma reads_silent {A} (m : M state A) :
  (∀ s, world (m s).2 = world s ∧ trace (m s).2 = trace s) → reads m.
Proof.
  intros Hm s. destruct (Hm s) as [Hw Ht]. split; [done|]. exists [].
  rewrite app_nil_r. split; [done|]. split; [done|]. by left.
Qed.

Lemma reads_ret {A} (a : A) : reads (mret a).
Proof. by apply reads_silent. Qed.

Lemma reads_panic {A} msg : reads (panic (A := A) msg).
Proof. by apply reads_silent. Qed.

Lemma reads_getOpts : reads getOpts.
Proof. by apply reads_silent. Qed.

Lemma reads_modifyOpts f : reads (modifyOpts f).
Proof. by apply reads_silent. Qed.

Lemma reads_info msg : reads (emit (EvInfo msg)).
Proof.
  intros s. split; [done|]. exists [EvInfo msg]. split; [done|].
  split; [by apply Forall_singleton|]. left. by apply Forall_singleton.
Qed.

Lemma checks_Done {A} w (a : A) evs : checks w (Done a) evs → Forall (checkedIn w) evs.
Proof. by intros [?|(? & ? & ? & _ & _ & ?)]. Qed.

Lemma reads_bind {A B} (m : M state A) (k : A → M state B) :
  reads m → (∀ a, reads (k a)) → reads (m ≫= k).
Proof.
  intros Hm Hk s. destruct (Hm s) as (Hw1 & evs1 & Ht1 & Hn1 & Hc1).
  unfold mbind, M_bind, bind.
  destruct (m s) as [[a| e | msg |] s1] eqn:Hms; cbn [fst snd] in *.
  - destruct (Hk a s1) as (Hw2 & evs2 & Ht2 & Hn2 & Hc2).
    rewrite Hw1 in Hw2, Hc2. split; [done|].
    exists (evs1 ++ evs2). rewrite Ht2, Ht1, app_assoc. split; [done|].
    split; [by apply Forall_app|]. apply checks_Done in Hc1.
    destruct Hc2 as [Hq|(before & p & e & -> & Hp & Hr)].
    + left. by apply Forall_app.
    + right. exists (evs1 ++ before), p, e. by rewrite app_assoc.
  - split; [done|]. exists evs1. repeat split; try done.
    destruct Hc1 as [?|(before & p & e' & ? & ? & Hr)]; [by left|].
    right. by exists before, p, e.
  - split; [done|]. exists evs1. repeat split; try done.
    destruct Hc1 as [?|(? & ? & ? & _ & _ & ?)]; [by left|done].
  - split; [done|]. exists evs1. repeat split; try done.
    destruct Hc1 as [?|(? & ? & ? & _ & _ & ?)]; [by left|done].
Qed.

Lemma reads_wrapf {A} (m : M state A) msg : reads m → reads (wrapf m msg).
Proof.
  intros Hm s. destruct (Hm s) as (Hw & evs & Ht & Hn & Hc). unfold wrapf.
  destruct (m s) as [[a| e | msg' |] s1]; cbn [fst snd] in *;
    (split; [done|]); exists evs; (split; [done|]); (split; [done|]); try done.
  destruct Hc as [?|(before & p & e' & ? & ? & _)]; [by left|].
  right. by eexists before, p, _.
Qed.

Lemma reads_forRange {A} (l : list A) (body : A → M state unit) :
  (∀ x, reads (body x)) → reads (forRange l body).
Proof.
  intros Hbody. induction l as [|x l IH]; [apply reads_ret|].
  cbn [forRange]. by apply reads_bind.
Qed.

Lemma reads_processJenkinsConfig group repo jc :
  reads (processJenkinsConfig group repo jc).
Proof.
  assert (∀ p s evs,
            Forall notWrite evs → Forall (checkedIn (world s)) evs →
            let run := loadTemplate group repo jc p s evs in
            world run.2 = world s
            ∧ ∃ evs', trace run.2 = trace s ++ evs'
                      ∧ Forall notWrite evs'
                      ∧ checks (world s) run.1 evs') as Hload.
  { intros p s evs Hn Hc. unfold loadTemplate.
    assert (Forall notWrite (evs ++ [EvReadFile p]))
      by (apply Forall_app; split; [done|by apply Forall_singleton]).
    assert (Forall (checkedIn (world s)) (evs ++ [EvReadFile p]))
      by (apply Forall_app; split; [done|by apply Forall_singleton]).
    destruct (ReadFile _ _) as [e|data]; [|destruct (JenkinsServers (opts s))];
      cbv zeta; (split; [done|]); exists (evs ++ [EvReadFile p]);
      repeat split; try done; by left. }
  intros s. rewrite processJenkinsConfig_eq.
  case_decide; [apply (reads_info _ s)|].
  case_decide.
  - cbv zeta. set (p := filepath.Join _).
    destruct (FileExists (world s) p) as [e|[]] eqn:Hp.
    + split; [done|]. exists [EvFileExists p]. split; [done|].
      split; [by apply Forall_singleton|]. right.
      eexists [], p, _. rewrite Hp. by repeat split.
    + apply Hload; by apply Forall_singleton.
    + split; [done|]. exists [EvFileExists p]. split; [done|].
      split; [by apply Forall_singleton|]. right.
      eexists [], p, _. rewrite Hp. by repeat split.
  - case_decide; [apply (reads_info _ s)|].
    destruct (Hload (DefaultXmlTemplate (opts s)) s []) as (Hw & evs' & ? & ? & ?);
      [done..|].
    split; [done|]. by exists evs'.
Qed.

Lemma reads_visitRepository i j : reads (visitRepository i j).
Proof.
  unfold visitRepository. apply reads_bind; [apply reads_getOpts|]. intros o.
  destruct (Groups (SourceConfig o) !! i) as [group|]; [|apply reads_panic].
  destruct (Repositories group !! j) as [repo|]; [|apply reads_panic].
  destruct (DefaultValues _ _ _) as [g repo'].
  apply reads_bind; [apply reads_modifyOpts|]. intros _.
  destruct (Jenkins repo') as [jc|]; [|apply reads_ret].
  apply reads_wrapf, reads_processJenkinsConfig.
Qed.

Lemma reads_collect : reads collect.
Proof.
  unfold collect. apply reads_bind; [apply reads_getOpts|]. intros o.
  apply reads_forRange. intros i. unfold visitGroup.
  apply reads_bind; [apply reads_getOpts|]. intros o'.
  destruct (Groups (SourceConfig o') !! i) as [group|]; [|apply reads_panic].
  apply reads_forRange. intros j. apply reads_visitRepository.
Qed.

Lemma Validate_checks s :
  world (Validate s).2 = world s
  ∧ ∃ rest,
      trace (Validate s).2 = trace s ++ EvFileExists (configFileOf (opts s)) :: rest
      ∧ Forall notWrite rest
      ∧ checks (world s) (Validate s).1 rest.
Proof.
  rewrite Validate_eq. cbv zeta. unfold loadConfig.
  change (ConfigFile (withPaths (opts s))) with (configFileOf (opts s)).
  change (DefaultXmlTemplate (withPaths (opts s))) with (DefaultXmlTemplate (opts s)).
  set (cf := configFileOf (opts s)). set (tpl := DefaultXmlTemplate (opts s)).
  destruct (FileExists (world s) cf) as [e|[]].
  - split; [done|]. exists []. repeat split; try done. by left.
  - case_decide.
    + destruct (FileExists (world s) tpl) as [e|[]] eqn:Htpl.
      * split; [done|]. exists [EvFileExists tpl]. split; [done|].
        split; [by apply Forall_singleton|]. right.
        eexists [], tpl, _. rewrite Htpl. by repeat split.
      * destruct (LoadFile _ _ _); (split; [done|]);
          exists [EvFileExists tpl; EvLoadFile cf]; (split; [done|]);
          (split; [by repeat constructor|]); left; by repeat constructor.
      * split; [done|]. exists [EvFileExists tpl]. split; [done|].
        split; [by apply Forall_singleton|]. right.
        eexists [], tpl, _. rewrite Htpl. by repeat split.
    + destruct (LoadFile _ _ _); (split; [done|]);
        exists [EvLoadFile cf]; (split; [done|]);
        (split; [by repeat constructor|]); left; by repeat constructor.
  - split; [done|]. exists [EvInfo ("the source config file " +:+ info cf
                                     +:+ " does not exist")].
    split; [done|]. split; [by repeat constructor|]. left. by repeat constructor.
Qed.

Lemma writeServer_events server configs s :
  opts (writeServer server configs s).2 = opts s
  ∧ ∃ evs, trace (writeServer server configs s).2 = trace s ++ evs
           ∧ Forall noCheck evs.
Proof.
  rewrite writeServer_eq.
  destruct (MkdirAll _ _) as [[e|] w].
  { split; [done|]. eexists. split; [done|]. by repeat constructor. }
  pose proof (renderJobs_state server configs ∅ (afterMkdir s server w)) as [Ho Ht].
  cbn [afterMkdir opts trace] in Ho, Ht.
  assert (Forall noCheck [EvMkdirAll (serverDir (opts s) server);
                          creating (opts s) server]) as Hn
    by (by repeat constructor).
  destruct (renderJobs _ _ _ _) as [[jobs| | |] s1]; cbn [snd] in *;
    try (split; [done|]; eexists; split; [exact Ht|done]).
  destruct (Marshal _) as [e|data];
    try (split; [done|]; eexists; split; [exact Ht|done]).
  destruct (WriteFile _ _ _) as [[e|] w']; proj; (split; [done|]); rewrite Ht;
    rewrite <-app_assoc; eexists; (split; [done|]); by repeat constructor.
Qed.

Lemma forRange_writeServer_events servers s :
  let run := forRange servers (λ '(server, configs), writeServer server configs) s in
  opts run.2 = opts s
  ∧ ∃ evs, trace run.2 = trace s ++ evs ∧ Forall noCheck evs.
Proof.
  revert s. induction servers as [|[server configs] servers IH]; intros s.
  - split; [done|]. exists []. by rewrite app_nil_r.
  - cbn [forRange]. unfold mbind, M_bind, bind.
    destruct (writeServer_events server configs s) as (Ho & evs & Ht & Hn).
    destruct (writeServer server configs s) as [[[]| | |] s1]; cbn [fst snd] in *.
    2-4: split; [done|]; by exists evs.
    destruct (IH s1) as (Ho' & evs' & Ht' & Hn'). cbv zeta in *.
    rewrite Ho', Ht', Ho, Ht. split; [done|]. exists (evs ++ evs').
    rewrite app_assoc. split; [done|]. by apply Forall_app.
Qed.

Lemma Run_eq s :
  Run s =
    match Validate s with
    | (Done _, s1) =>
        match collect s1 with
        | (Done _, s2) => writeServers s2
        | (Failed e, s2) => (Failed e, s2)
        | (Panicked msg, s2) => (Panicked msg, s2)
        | (OutOfFuel, s2) => (OutOfFuel, s2)
        end
    | (Failed e, s1) => (Failed (Wrap e "failed to validate options"), s1)
    | (Panicked msg, s1) => (Panicked msg, s1)
    | (OutOfFuel, s1) => (OutOfFuel, s1)
    end.
Proof.
  unfold Run, mbind, M_bind, bind, wrapf.
  destruct (Validate s) as [[[]| | |] s1]; [|done..].
  by destruct (collect s1) as [[[]| | |] s2].
Qed.

Lemma checkedIn_not_missing w p evs :
  Forall (checkedIn w) evs → EvFileExists p ∈ evs → FileExists w p = inr false → False.
Proof.
  intros Hall Hin Hp. rewrite Forall_forall in Hall.
  specialize (Hall _ Hin). cbn in Hall. congruence.
Qed.

Lemma noCheck_not_check p evs : Forall noCheck evs → EvFileExists p ∈ evs → False.
Proof. intros Hall Hin. rewrite Forall_forall in Hall. exact (Hall _ Hin). Qed.

(** Every check of a template path is fatal when the path does not exist. *)
Lemma Run_missing_template s :
  ∃ rest,
    trace (Run s).2 = trace s ++ EvFileExists (configFileOf (opts s)) :: rest
    ∧ ((∃ p, EvFileExists p ∈ rest ∧ FileExists (world s) p = inr false) →
       (∃ e, (Run s).1 = Failed e) ∧ Forall notWrite rest).
Proof.
  rewrite Run_eq.
  destruct (Validate_checks s) as (Hw1 & rest1 & Ht1 & Hn1 & Hc1).
  destruct (Validate s) as [[[]| e | msg |] s1]; cbn [fst snd] in *.
  2: { exists rest1. split; [done|]. intros _. split; [by eexists|done]. }
  2,3: exists rest1; (split; [done|]); intros (p & Hin & Hp);
       destruct Hc1 as [Hc1|(? & ? & ? & _ & _ & ?)]; [|done];
       destruct (checkedIn_not_missing _ _ _ Hc1 Hin Hp).
  apply checks_Done in Hc1.
  destruct (reads_collect s1) as (Hw2 & evs2 & Ht2 & Hn2 & Hc2).
  rewrite Hw1 in Hc2.
  destruct (collect s1) as [[[]| e | msg |] s2]; cbn [fst snd] in *.
  - apply checks_Done in Hc2.
    destruct (forRange_writeServer_events
                (mapRange (world s2) (default ∅ (JenkinsServers (opts s2)))) s2)
      as (_ & evs3 & Ht3 & Hn3).
    exists (rest1 ++ evs2 ++ evs3). unfold writeServers. cbv zeta in Ht3.
    rewrite Ht3, Ht2, Ht1. split; [by rewrite <-!app_assoc|].
    intros (p & Hin & Hp). rewrite !elem_of_app in Hin.
    destruct Hin as [Hin|[Hin|Hin]].
    + destruct (checkedIn_not_missing _ _ _ Hc1 Hin Hp).
    + destruct (checkedIn_not_missing _ _ _ Hc2 Hin Hp).
    + destruct (noCheck_not_check _ _ Hn3 Hin).
  - exists (rest1 ++ evs2). rewrite Ht2, Ht1. split; [by rewrite <-!app_assoc|].
    intros _. split; [by eexists|by apply Forall_app].
  - exists (rest1 ++ evs2). rewrite Ht2, Ht1. split; [by rewrite <-!app_assoc|].
    intros (p & Hin & Hp). rewrite elem_of_app in Hin.
    destruct Hc2 as [Hc2|(? & ? & ? & _ & _ & ?)]; [|done].
    destruct Hin as [Hin|Hin];
      [destruct (checkedIn_not_missing _ _ _ Hc1 Hin Hp)
      |destruct (checkedIn_not_missing _ _ _ Hc2 Hin Hp)].
  - exists (rest1 ++ evs2). rewrite Ht2, Ht1. split; [by rewrite <-!app_assoc|].
    intros (p & Hin & Hp). rewrite elem_of_app in Hin.
    destruct Hc2 as [Hc2|(? & ? & ? & _ & _ & ?)]; [|done].
    destruct Hin as [Hin|Hin];
      [destruct (checkedIn_not_missing _ _ _ Hc1 Hin Hp)
      |destruct (checkedIn_not_missing _ _ _ Hc2 Hin Hp)].
Qed.

(** C1, as far as it holds.  When the configuration file exists and the
    default template is named and does not exist, the run fails in
    [Validate], having done nothing but the two checks.  When a repository
    has, after the defaults, a server and a template of its own that does not
    exist at its path under the working directory, its visit fails, having
    done nothing but the check.  And in every run, a check of a template path
    that finds no file makes the run return an error, with no directory made
    and no file written: the events after the first check, that of the
    configuration file, have no [MkdirAll] and no [WriteFile] among them. *)
Theorem missing_template_fails_before_writes :
  (∀ s,
     let tpl := DefaultXmlTemplate (opts s) in
     FileExists (world s) (configFileOf (opts s)) = inr true →
     tpl ≠ "" →
     FileExists (world s) tpl = inr false →
     (Run s).1
     = Failed (Wrap (New ("the default-xml-template file " +:+ tpl
                          +:+ " does not exist"))
                    "failed to validate options")
     ∧ trace (Run s).2
       = trace s ++ [EvFileExists (configFileOf (opts s)); EvFileExists tpl])
  ∧ (∀ i j s group repo jc,
       Groups (SourceConfig (opts s)) !! i = Some group →
       Repositories group !! j = Some repo →
       Jenkins (defaultedRepo s group repo) = Some jc →
       v1alpha1.Server jc ≠ "" →
       XmlTemplate jc ≠ "" →
       let p := filepath.Join [Dir (opts s); XmlTemplate jc] in
       FileExists (world s) p = inr false →
       visitRepository i j s
       = (Failed (Wrap (New ("the xmlTemplate file " +:+ p +:+ " does not exist"))
                       "failed to process Jenkins Config"),
          record (defaulted s i j group repo) [EvFileExists p]))
  ∧ (∀ s,
       ∃ rest,
         trace (Run s).2 = trace s ++ EvFileExists (configFileOf (opts s)) :: rest
         ∧ ((∃ p, EvFileExists p ∈ rest ∧ FileExists (world s) p = inr false) →
            (∃ e, (Run s).1 = Failed e) ∧ Forall notWrite rest)).
Proof.
  split; [|split].
  - intros s tpl Hcf Htpl Hmissing. rewrite Run_eq, Validate_eq. cbv zeta.
    change (ConfigFile (withPaths (opts s))) with (configFileOf (opts s)).
    change (DefaultXmlTemplate (withPaths (opts s))) with tpl.
    by rewrite Hcf, decide_True, Hmissing.
  - intros i j s group repo jc Hi Hj Hjenkins Hserver Hxml p Hmissing.
    rewrite (visitRepository_eq i j s group repo Hi Hj), Hjenkins.
    unfold wrapf. rewrite processJenkinsConfig_eq.
    rewrite decide_False, decide_True by done. cbv zeta.
    change (Dir (opts (defaulted s i j group repo))) with (Dir (opts s)).
    change (world (defaulted s i j group repo)) with (world s).
    fold p. by rewrite Hmissing.
  - apply Run_missing_template.
Qed.

(** *** The files written *)

Lemma filter_isWrite_notWrite evs : Forall notWrite evs → filter isWrite evs = [].
Proof.
  induction 1 as [|ev evs Hev _ IH]; [done|].
  rewrite filter_cons_False; [done|]. destruct ev; cbn in *; tauto.
Qed.

Lemma forRange_writeServer_Done servers s s' :
  forRange servers (λ '(server, configs), writeServer server configs) s
  = (Done tt, s') →
  opts s' = opts s
  ∧ ∃ evs, trace s' = trace s ++ evs
           ∧ Forall2 (writtenFor (opts s)) servers (filter isWrite evs).
Proof.
  revert s. induction servers as [|[server configs] servers IH]; intros s.
  - intros [= <-]. split; [done|]. exists []. by rewrite app_nil_r.
  - cbn [forRange]. unfold mbind, M_bind, bind.
    destruct (writeServer server configs s) as [[[]| | |] s1] eqn:Hone; [|done..].
    intros Hrest. destruct (IH s1 Hrest) as (Ho' & evs' & Ht' & Hall).
    destruct (writeServer_Done _ _ _ _ Hone)
      as (w & jobs & s2 & data & _ & Hrender & Hdata & Ho & Ht).
    rewrite Ho', Ho. split; [done|]. eexists. rewrite Ht', Ht, <-app_assoc.
    split; [done|]. rewrite filter_app. cbn [filter list_filter creating].
    rewrite Ho in Hall.
    change (filter isWrite [EvMkdirAll _; _; ?ev]) with [ev].
    constructor; [|done]. exists jobs, data. split; [done|]. split; [done|].
    destruct (renderJobs_dom _ _ _ _ _ _ Hrender) as [Hdom Hval]. split.
    + by rewrite Hdom, dom_empty_L, (left_id_L ∅ (∪)).
    + intros k v [Hk|[_ ?]]%Hval; [by rewrite lookup_empty in Hk|done].
Qed.

Lemma values_yaml_plain : filepath.plainElement "values.yaml".
Proof. repeat split; try done. by repeat constructor. Qed.

(** C7.  After a run that returned normally the writes made are, in the order
    in which the servers were gone through, one for each server that has
    configurations: at [<outDir>/<server>/values.yaml], of the marshalled
    value [master.jobs.<key> = <output>], with one entry for each key among
    the configurations of the server.  Servers whose names are plain path
    elements have paths of their own, so that each of these paths is written
    once. *)
Theorem one_values_file_per_server s s' :
  Run s = (Done tt, s') →
  ∃ order evs,
    order ≡ₚ map_to_list (default ∅ (JenkinsServers (opts s')))
    ∧ trace s' = trace s ++ evs
    ∧ Forall2 (writtenFor (opts s')) order (filter isWrite evs)
    ∧ ∀ server1 server2,
        filepath.plainElement server1 → filepath.plainElement server2 →
        filepath.Join [filepath.Join [OutDir (opts s'); server1]; "values.yaml"]
        = filepath.Join [filepath.Join [OutDir (opts s'); server2]; "values.yaml"] →
        server1 = server2.
Proof.
  rewrite Run_eq.
  destruct (Validate_checks s) as (_ & rest1 & Ht1 & Hn1 & _).
  destruct (Validate s) as [[[]| | |] s1]; [|done..]. cbn [snd] in *.
  destruct (reads_collect s1) as (_ & evs2 & Ht2 & Hn2 & _).
  destruct (collect s1) as [[[]| | |] s2]; [|done..]. cbn [snd] in *.
  unfold writeServers. intros Hwrite.
  destruct (forRange_writeServer_Done _ _ _ Hwrite) as (Ho & evs3 & Ht3 & Hall).
  exists (mapRange (world s2) (default ∅ (JenkinsServers (opts s2)))),
         ((EvFileExists (configFileOf (opts s)) :: rest1) ++ evs2 ++ evs3).
  rewrite Ho. split; [apply mapRange_perm|].
  split; [by rewrite Ht3, Ht2, Ht1, <-!app_assoc|].
  split.
  - rewrite !filter_app, filter_cons_False by (by intros []).
    by rewrite (filter_isWrite_notWrite rest1), (filter_isWrite_notWrite evs2).
  - intros server1 server2 H1 H2.
    by apply filepath_facts.Join_Join_inj, values_yaml_plain.
Qed.

Lemma Run_no_config s :
  FileExists (world s) (configFileOf (opts s)) = inr false →
  Groups (SourceConfig (opts s)) = [] →
  JenkinsServers (opts s) = None →
  Run s
  = (Done tt,
     {| opts := withPaths (opts s); world := world s;
        trace := trace s ++ [EvFileExists (configFileOf (opts s));
                             EvInfo ("the source config file "
                                     +:+ info (configFileOf (opts s))
                                     +:+ " does not exist")] |}).
Proof.
  intros Hmissing Hgroups Hservers. rewrite Run_eq, Validate_eq. cbv zeta.
  change (ConfigFile (withPaths (opts s))) with (configFileOf (opts s)).
  rewrite Hmissing. unfold collect, writeServers, record. step.
  cbn [withPaths SourceConfig]. rewrite Hgroups. cbn [length seq forRange].
  step. cbn [withPaths JenkinsServers]. rewrite Hservers. cbn [default].
  rewrite mapRange_empty. done.
Qed.

(** C8.  The command is started with its flags, whatever they are, and there
    is no file at the path of the source configuration.  Then the run returns
    normally: it has looked for the file and logged that it does not exist,
    and nothing else has happened; no directory is made and no file written.
    The configuration is the empty one the command started with. *)
Theorem Run_without_config (dir out config defaultXmlTemplate : string) (w : World) :
  let o := NewCmdJenkinsJobs dir out config defaultXmlTemplate in
  let s := {| opts := o; world := w; trace := [] |} in
  FileExists w (configFileOf o) = inr false →
  (Run s).1 = Done tt
  ∧ world (Run s).2 = w
  ∧ trace (Run s).2
    = [EvFileExists (configFileOf o);
       EvInfo ("the source config file " +:+ info (configFileOf o)
               +:+ " does not exist")]
  ∧ SourceConfig (opts (Run s).2) = {| Groups := [] |}
  ∧ JenkinsServers (opts (Run s).2) = None.
Proof.
  intros o s Hmissing. by rewrite (Run_no_config s Hmissing eq_refl eq_refl).
Qed.

End Props.

#[local] Existing Instance jobssim.externals.

Lemma result_and_state {A S} (x : result A * S) (r : result A) :
  x.1 = r → x = (r, x.2).
Proof. destruct x. cbn. by intros ->. Qed.

(** A run with no configuration file and a default template that does not
    exist either. *)
Lemma Run_without_config_witness :
  let o := NewCmdJenkinsJobs "." "" "" "missing.xml" in
  let s := jobssim.start o jobssim.noConfig in
  FileExists jobssim.noConfig (configFileOf o) = inr false
  ∧ (Run s).1 = Done tt
  ∧ trace (Run s).2
    = [EvFileExists ".jx/gitops/source-config.yaml";
       EvInfo "the source config file .jx/gitops/source-config.yaml does not exist"].
Proof.
  intros o s.
  assert (Hmissing : FileExists jobssim.noConfig (configFileOf o) = inr false)
    by (vm_compute; reflexivity).
  split; [exact Hmissing|].
  destruct (Run_without_config (H := jobssim.externals)
              "." "" "" "missing.xml" jobssim.noConfig Hmissing)
    as (Hdone & _ & Htrace & _).
  split; [exact Hdone|exact Htrace].
Defined.

(** The repository [app] has no server: it is ignored, with a message. *)
Lemma visitRepository_skips_witness :
  let repo := jobssim.repository "app" "" "missing.xml" in
  let group := jobssim.acmeGroup [repo] in
  let s := jobssim.loaded "." "" (jobssim.acme [repo]) jobssim.noServer in
  (Groups (SourceConfig (opts s)) !! 0 = Some group
   ∧ Repositories group !! 0 = Some repo
   ∧ Jenkins (defaultedRepo s group repo)
     = Some {| v1alpha1.Server := ""; XmlTemplate := "missing.xml" |})
  ∧ (visitRepository 0 0 s).1 = Done tt
  ∧ JenkinsServers (opts (visitRepository 0 0 s).2) = Some ∅
  ∧ trace (visitRepository 0 0 s).2
    = [EvInfo "ignoring repository https://github.com/acme/app as it has no Jenkins server defined"].
Proof.
  intros repo group s.
  assert (Hhyp : Groups (SourceConfig (opts s)) !! 0 = Some group
                 ∧ Repositories group !! 0 = Some repo
                 ∧ Jenkins (defaultedRepo s group repo)
                   = Some {| v1alpha1.Server := ""; XmlTemplate := "missing.xml" |})
    by (repeat split; reflexivity).
  split; [exact Hhyp|]. destruct Hhyp as (Hi & Hj & Hjenkins).
  destruct (visitRepository_skips (H := jobssim.externals) 0 0 s group repo Hi Hj)
    as (_ & _ & Hskip).
  rewrite (Hskip _ Hjenkins (or_introl eq_refl)).
  repeat split; vm_compute; reflexivity.
Defined.

(** The repository [app1] on [ci1], with the default template: its URL and
    the provider of its group are the ones the defaults give. *)
Lemma templateData_after_defaults_witness :
  let repo := jobssim.repository "app1" "ci1" "" in
  let group := jobssim.acmeGroup [repo] in
  let jc := {| v1alpha1.Server := "ci1"; XmlTemplate := "" |} in
  let s := jobssim.loaded "." "default.xml" (jobssim.acme [repo]) jobssim.oneJob in
  let s' := (visitRepository 0 0 s).2 in
  (Groups (SourceConfig (opts s)) !! 0 = Some group
   ∧ Repositories group !! 0 = Some repo
   ∧ Jenkins (DefaultValues (SourceConfig (opts s)) group repo).2 = Some jc
   ∧ v1alpha1.Server jc ≠ ""
   ∧ resolvedTemplate (opts s) jc ≠ ""
   ∧ visitRepository 0 0 s = (Done tt, s'))
  ∧ ∃ cfg,
      JenkinsServers (opts s') = Some (<["ci1" := [] ++ [cfg]]> ∅)
      ∧ Key cfg = "app1"
      ∧ TemplateData cfg !! "Owner" = Some "acme"
      ∧ TemplateData cfg !! "GitServerURL" = Some "https://github.com"
      ∧ TemplateData cfg !! "URL" = Some "https://github.com/acme/app1"
      ∧ TemplateData cfg !! "CloneURL" = Some "https://github.com/acme/app1.git".
Proof.
  intros repo group jc s s'.
  assert (Hhyp : Groups (SourceConfig (opts s)) !! 0 = Some group
   ∧ Repositories group !! 0 = Some repo
   ∧ Jenkins (DefaultValues (SourceConfig (opts s)) group repo).2 = Some jc
   ∧ v1alpha1.Server jc ≠ ""
   ∧ resolvedTemplate (opts s) jc ≠ ""
   ∧ visitRepository 0 0 s = (Done tt, s')).
  { split; [reflexivity|]. split; [reflexivity|].
    split; [vm_compute; reflexivity|]. split; [by vm_compute|].
    split; [by vm_compute|]. apply result_and_state. vm_compute. reflexivity. }
  split; [exact Hhyp|].
  destruct Hhyp as (Hi & Hj & Hjenkins & Hserver & Hpath & Hvisit).
  destruct (templateData_after_defaults (H := jobssim.externals)
              0 0 s s' group repo jc Hi Hj Hjenkins Hserver Hpath Hvisit)
    as (servers & cfg & Hservers & Hs' & Hkey & _ & Howner & Hgit & _ & _ & _
        & Hurl & Hclone).
  injection Hservers as <-. exists cfg.
  split; [exact Hs'|]. split; [exact Hkey|]. split; [exact Howner|].
  split; [exact Hgit|]. split; [exact Hurl|exact Hclone].
Defined.

(** The working directory is [work]: the template [tpl.xml] of a repository
    is looked up at [work/tpl.xml], and the default template [tpl.xml] at
    [tpl.xml], where it is not. *)
Lemma template_path_resolution_witness :
  let own := {| v1alpha1.Server := "ci"; XmlTemplate := "tpl.xml" |} in
  let none := {| v1alpha1.Server := "ci"; XmlTemplate := "" |} in
  let repo := jobssim.repository "app" "ci" "tpl.xml" in
  let group := jobssim.acmeGroup [repo] in
  let s := jobssim.loaded "work" "tpl.xml" (jobssim.acme [repo]) jobssim.workTree in
  let s0 := jobssim.start {| Dir := "work"; ConfigFile := ""; OutDir := "";
                             DefaultXmlTemplate := "tpl.xml";
                             SourceConfig := {| Groups := [] |};
                             JenkinsServers := None |} jobssim.workTree in
  (v1alpha1.Server own ≠ "" ∧ XmlTemplate own ≠ ""
   ∧ FileExists (world s) "work/tpl.xml" = inr true
   ∧ XmlTemplate none = "" ∧ DefaultXmlTemplate (opts s) ≠ ""
   ∧ FileExists (world s0) (configFileOf (opts s0)) = inr true)
  ∧ trace (processJenkinsConfig group repo own s).2
    = [EvFileExists "work/tpl.xml"; EvReadFile "work/tpl.xml"]
  ∧ trace (processJenkinsConfig group repo none s).2 = [EvReadFile "tpl.xml"]
  ∧ ∃ more,
      trace (Validate s0).2
      = EvFileExists "work/.jx/gitops/source-config.yaml"
        :: EvFileExists "tpl.xml" :: more.
Proof.
  intros own none repo group s s0.
  assert (Hhyp : v1alpha1.Server own ≠ "" ∧ XmlTemplate own ≠ ""
   ∧ FileExists (world s) "work/tpl.xml" = inr true
   ∧ XmlTemplate none = "" ∧ DefaultXmlTemplate (opts s) ≠ ""
   ∧ FileExists (world s0) (configFileOf (opts s0)) = inr true)
    by (repeat split; try (vm_compute; reflexivity); by vm_compute).
  split; [exact Hhyp|].
  destruct Hhyp as (Hserver & Hown & Hexists & Hnone & Hdefault & Hcf).
  destruct (template_path_resolution (H := jobssim.externals))
    as (Hjoined & Hverbatim & Hvalidate & _).
  split; [|split].
  - exact (proj1 (Hjoined group repo own s Hserver Hown) Hexists).
  - exact (proj1 (Hverbatim group repo none s Hserver Hnone Hdefault)).
  - exact (Hvalidate s0 Hcf Hdefault).
Defined.

(** The run over one repository on [ci1]: one file is written. *)
Lemma one_values_file_per_server_witness :
  let s := jobssim.start (NewCmdJenkinsJobs "." "" "" "default.xml") jobssim.oneJob in
  let s' := (Run s).2 in
  Run s = (Done tt, s')
  ∧ ∃ order evs,
      order ≡ₚ map_to_list (default ∅ (JenkinsServers (opts s')))
      ∧ trace s' = trace s ++ evs
      ∧ Forall2 (writtenFor (opts s')) order (filter isWrite evs)
      ∧ ∀ server1 server2,
          filepath.plainElement server1 → filepath.plainElement server2 →
          filepath.Join [filepath.Join [OutDir (opts s'); server1]; "values.yaml"]
          = filepath.Join [filepath.Join [OutDir (opts s'); server2]; "values.yaml"] →
          server1 = server2.
Proof.
  intros s s'.
  assert (Hrun : Run s = (Done tt, s'))
    by (apply result_and_state; vm_compute; reflexivity).
  split; [exact Hrun|].
  exact (one_values_file_per_server (H := jobssim.externals) s s' Hrun).
Defined.


(** The configuration file exists and the default template does not: the run
    fails in [Validate].  The template of a repository with a server does not
    exist: the visit fails.  In both runs nothing was written. *)
Lemma missing_template_fails_before_writes_witness :
  let s := jobssim.start (NewCmdJenkinsJobs "." "" "" "missing.xml") jobssim.noServer in
  let repo := jobssim.repository "app" "ci" "missing.xml" in
  let group := jobssim.acmeGroup [repo] in
  let jc := {| v1alpha1.Server := "ci"; XmlTemplate := "missing.xml" |} in
  let s1 := jobssim.loaded "." "" (jobssim.acme [repo]) jobssim.noTemplate in
  let s2 := jobssim.start (NewCmdJenkinsJobs "." "" "" "") jobssim.noTemplate in
  (FileExists (world s) (configFileOf (opts s)) = inr true
   ∧ DefaultXmlTemplate (opts s) ≠ ""
   ∧ FileExists (world s) "missing.xml" = inr false
   ∧ Groups (SourceConfig (opts s1)) !! 0 = Some group
   ∧ Repositories group !! 0 = Some repo
   ∧ Jenkins (defaultedRepo s1 group repo) = Some jc
   ∧ v1alpha1.Server jc ≠ "" ∧ XmlTemplate jc ≠ ""
   ∧ trace (Run s2).2
     = [] ++ EvFileExists (configFileOf (opts s2))
          :: [EvLoadFile ".jx/gitops/source-config.yaml";
              EvFileExists "missing.xml"])
  ∧ (Run s).1
    = Failed (Wrap (New "the default-xml-template file missing.xml does not exist")
                   "failed to validate options")
  ∧ (visitRepository 0 0 s1).1
    = Failed (Wrap (New "the xmlTemplate file missing.xml does not exist")
                   "failed to process Jenkins Config")
  ∧ (∃ e, (Run s2).1 = Failed e)
  ∧ Forall notWrite [EvLoadFile ".jx/gitops/source-config.yaml";
                     EvFileExists "missing.xml"].
Proof.
  intros s repo group jc s1 s2.
  assert (Hhyp : FileExists (world s) (configFileOf (opts s)) = inr true
   ∧ DefaultXmlTemplate (opts s) ≠ ""
   ∧ FileExists (world s) "missing.xml" = inr false
   ∧ Groups (SourceConfig (opts s1)) !! 0 = Some group
   ∧ Repositories group !! 0 = Some repo
   ∧ Jenkins (defaultedRepo s1 group repo) = Some jc
   ∧ v1alpha1.Server jc ≠ "" ∧ XmlTemplate jc ≠ ""
   ∧ trace (Run s2).2
     = [] ++ EvFileExists (configFileOf (opts s2))
          :: [EvLoadFile ".jx/gitops/source-config.yaml";
              EvFileExists "missing.xml"])
    by (repeat split; try (vm_compute; reflexivity); by vm_compute).
  split; [exact Hhyp|].
  destruct Hhyp as (Hcf & Hdefault & Hmissing & Hi & Hj & Hjenkins & Hserver
                    & Hxml & Htrace).
  destruct (missing_template_fails_before_writes (H := jobssim.externals))
    as (Hvalidate & Hvisit & Hrun).
  split; [exact (proj1 (Hvalidate s Hcf Hdefault Hmissing))|].
  split.
  { rewrite (Hvisit 0 0 s1 group repo jc Hi Hj Hjenkins Hserver Hxml);
      [reflexivity|vm_compute; reflexivity]. }
  destruct (Hrun s2) as (rest & Hrest & Hfatal).
  rewrite Htrace in Hrest. apply app_inv_head in Hrest. injection Hrest as <-.
  apply Hfatal. exists "missing.xml". split.
  - apply elem_of_cons. right. apply elem_of_cons. by left.
  - vm_compute. reflexivity.
Defined.

(** C1 fails in two ways.  With no configuration file, a default template
    that does not exist is never looked at and the run returns normally.
    And a repository with no server is ignored before its template is looked
    at: the template it names does not exist, and the run returns normally. *)
Lemma missing_template_without_error :
  let s := jobssim.start (NewCmdJenkinsJobs "." "" "" "missing.xml") jobssim.noConfig in
  let s' := jobssim.start (NewCmdJenkinsJobs "." "" "" "") jobssim.noServer in
  (FileExists (world s) (DefaultXmlTemplate (opts s)) = inr false
   ∧ (Run s).1 = Done tt)
  ∧ FileExists (world s') (filepath.Join [Dir (opts s'); "missing.xml"]) = inr false
  ∧ (Run s').1 = Done tt
  ∧ trace (Run s').2
    = [EvFileExists ".jx/gitops/source-config.yaml";
       EvLoadFile ".jx/gitops/source-config.yaml";
       EvInfo "ignoring repository https://github.com/acme/app as it has no Jenkins server defined"].
Proof. repeat split; vm_compute; reflexivity. Qed.

End jobs_props.

(** * More about paths and strings *)
Module filepath_last_facts.
Import filepath filepath_spec string_facts filepath_facts.

Lemma str_app_inv_tail (a b c : string) : a +:+ c = b +:+ c → a = b.
Proof.
  intros Heq. apply (f_equal list_ascii_of_string) in Heq.
  rewrite !list_of_app in Heq. apply app_inv_tail in Heq.
  rewrite <-(string_of_list_ascii_of_string a), Heq.
  apply string_of_list_ascii_of_string.
Qed.

Lemma str_app_inv_head (a b c : string) : a +:+ b = a +:+ c → b = c.
Proof.
  intros Heq. apply (f_equal list_ascii_of_string) in Heq.
  rewrite !list_of_app in Heq. apply app_inv_head in Heq.
  rewrite <-(string_of_list_ascii_of_string b), Heq.
  apply string_of_list_ascii_of_string.
Qed.

(** A list is cut in one way only at the last occurrence of an element. *)
Lemma split_at_last {A} (c : A) (a1 a2 b1 b2 : list A) :
  c ∉ b1 → c ∉ b2 → a1 ++ c :: b1 = a2 ++ c :: b2 → a1 = a2 ∧ b1 = b2.
Proof.
  intros Hb1 Hb2. revert a2. induction a1 as [|x a1 IH]; intros [|y a2] Heq;
    simplify_eq/=.
  - done.
  - destruct Hb1. apply elem_of_app. right. by left.
  - destruct Hb2. apply elem_of_app. right. by left.
  - by destruct (IH a2) as [-> ->].
Qed.

Lemma str_split_at_last (c : ascii) (a1 a2 b1 b2 : string) :
  c ∉ list_ascii_of_string b1 → c ∉ list_ascii_of_string b2 →
  a1 +:+ String c b1 = a2 +:+ String c b2 → a1 = a2 ∧ b1 = b2.
Proof.
  intros Hb1 Hb2 Heq. apply (f_equal list_ascii_of_string) in Heq.
  rewrite !list_of_app in Heq. cbn [list_ascii_of_string] in Heq.
  apply split_at_last in Heq as [Ha Hb]; [|done..].
  split.
  - rewrite <-(string_of_list_ascii_of_string a1), Ha.
    apply string_of_list_ascii_of_string.
  - rewrite <-(string_of_list_ascii_of_string b1), Hb.
    apply string_of_list_ascii_of_string.
Qed.

(** Every path is a directory part, empty or ending in a separator, and an
    element after it. *)
Lemma last_element (s : string) :
  ∃ h t, s = h +:+ t ∧ noSeparator t ∧ (h = "" ∨ ∃ b, h = b +:+ "/").
Proof.
  induction s as [|c s (h & t & -> & Ht & Hh)].
  - exists "", "". split; [done|]. split; [apply noSeparator_nil|by left].
  - destruct Hh as [-> | [b ->]].
    + destruct (IsPathSeparator c) eqn:Hc.
      * exists "/", t. apply bool_decide_eq_true in Hc as ->.
        split; [done|]. split; [done|]. right. by exists "".
      * exists "", (String c t). split; [done|].
        split; [by apply noSeparator_cons|by left].
    + exists (String c b +:+ "/"), t. split; [by rewrite !str_app_cons|].
      split; [done|]. right. by exists (String c b).
Qed.

Lemma Clean_root_file (t : string) : plainElement t → Clean ("/" +:+ t) = "/" +:+ t.
Proof.
  intros Ht. pose proof Ht as (Hne & _ & _ & Hsep).
  change ("/" +:+ t) with (String Separator t).
  unfold Clean. rewrite decide_False by done.
  cbn [isRooted elements]. unfold IsPathSeparator.
  rewrite !(bool_decide_eq_true_2 (Separator = Separator)) by done.
  rewrite elements_plain by done. cbn [foldl].
  change (cleanStep true ([], 0) "") with (@nil string, 0).
  rewrite cleanStep_plain by done. cbn [fst app].
  unfold render. cbn [gostrings.Join]. by rewrite decide_False.
Qed.

(** [Join] keeps what its last argument ends with, when that is more than
    two bytes with no separator among them. *)
Lemma Join_keeps_suffix (dir x ext : string) :
  noSeparator ext → 2 < String.length ext →
  ∃ before, Join [dir; x +:+ ext] = before +:+ ext.
Proof.
  intros Hext Hlen.
  destruct (last_element x) as (h & t & -> & Ht & Hh).
  assert (plainElement (t +:+ ext)) as Hplain.
  { assert (2 < String.length (t +:+ ext)) as Hlen'
      by (rewrite str_length_app; lia).
    repeat split.
    - intros Heq. rewrite Heq in Hlen'. simpl in Hlen'. lia.
    - intros Heq. rewrite Heq in Hlen'. simpl in Hlen'. lia.
    - intros Heq. rewrite Heq in Hlen'. simpl in Hlen'. lia.
    - by apply noSeparator_app. }
  assert ((h +:+ t) +:+ ext ≠ "") as Hne.
  { intros Heq. apply (f_equal String.length) in Heq.
    rewrite !str_length_app in Heq. simpl in Heq. lia. }
  rewrite Join_dir_file by done. rewrite str_app_assoc.
  destruct (decide (dir = "")) as [->|Hdir].
  - destruct Hh as [-> | [b ->]].
    + rewrite str_app_nil_l, Clean_plain by done. by exists t.
    + destruct (decide (b = "")) as [->|Hb].
      * rewrite str_app_nil_l, Clean_root_file by done.
        exists ("/" +:+ t). by rewrite str_app_assoc.
      * rewrite str_app_assoc, Clean_dir_file by done.
        eexists (_ +:+ t). by rewrite str_app_assoc.
  - destruct Hh as [-> | [b ->]].
    + rewrite str_app_nil_l, Clean_dir_file by done.
      eexists (_ +:+ t). by rewrite str_app_assoc.
    + replace (dir +:+ "/" +:+ (b +:+ "/") +:+ t +:+ ext)
        with ((dir +:+ "/" +:+ b) +:+ "/" +:+ t +:+ ext)
        by (by rewrite !str_app_assoc).
      rewrite Clean_dir_file; [|by intros [? _]%str_app_eq_nil|done].
      eexists (_ +:+ t). by rewrite str_app_assoc.
Qed.

End filepath_last_facts.

(** * The runs of the renamer *)
Module rename_run_props.
Import rename rename_spec rename_run_spec.

Section Props.
Context `{Externals}.

(** *** The canonical name *)

Lemma kindSuffixes_no_dash k suffix :
  kindSuffixes !! k = Some suffix → "-"%char ∉ list_ascii_of_string suffix.
Proof.
  intros Hk.
  assert (Hall : map_Forall (λ _ v, "-"%char ∉ list_ascii_of_string v) kindSuffixes)
    by (apply (bool_decide_unpack _); by vm_compute).
  exact (Hall k suffix Hk).
Qed.

Lemma kindSuffixes_inj k1 k2 suffix :
  kindSuffixes !! k1 = Some suffix → kindSuffixes !! k2 = Some suffix → k1 = k2.
Proof.
  intros Hk1 Hk2.
  assert (Hall : map_Forall (λ k1 v1,
                   map_Forall (λ k2 v2, v1 = v2 → k1 = k2) kindSuffixes)
                   kindSuffixes)
    by (apply (bool_decide_unpack _); by vm_compute).
  exact (Hall k1 suffix Hk1 k2 suffix Hk2 eq_refl).
Qed.

Lemma canonicalName_known (kind name : string) :
  knownKind kind →
  ∃ suffix, kindSuffixes !! ToLower kind = Some suffix
            ∧ canonicalName kind name = name +:+ String "-" suffix.
Proof.
  intros [Hkind [suffix Hk]]. exists suffix. split; [done|].
  pose proof (rename_props.kindSuffixes_nonempty _ _ Hk) as Hne.
  unfold canonicalName. rewrite Hk. simpl.
  by rewrite !decide_False.
Qed.

(** *** What a run leaves in the trace *)

Lemma orderly_nil : orderly [].
Proof.
  split.
  - by intros path err ?%elem_of_nil.
  - intros pre post oldpath newpath err Heq. by destruct pre.
Qed.

Lemma orderly_app evs1 evs2 : orderly evs1 → orderly evs2 → orderly (evs1 ++ evs2).
Proof.
  intros [Hread1 Hren1] [Hread2 Hren2]. split.
  - intros path err [?|?]%elem_of_app; eauto.
  - intros pre post oldpath newpath err Heq.
    apply app_eq_app in Heq as [l [[-> Heq]|[-> ->]]].
    + destruct l as [|ev l]; simplify_eq/=.
      * destruct (Hren2 [] post oldpath newpath err eq_refl) as (Hin & _).
        by apply elem_of_nil in Hin.
      * apply (Hren1 pre l oldpath newpath err eq_refl).
    + destruct (Hren2 l post oldpath newpath err eq_refl) as (Hin & Hne & Hnew).
      split; [|done]. apply elem_of_app. by right.
Qed.

Lemma ended_nil {A} (a : A) : ended (Done a) [].
Proof. left. split; [constructor|]. left. by exists a. Qed.

Lemma ended_succeeded {A} (a : A) evs : Forall succeeded evs → ended (Done a) evs.
Proof. intros Hq. left. split; [done|]. left. by exists a. Qed.

Lemma ended_Done_succeeded {A} (a : A) evs :
  ended (Done a) evs → Forall succeeded evs.
Proof. by intros [[? _]|(? & ? & ? & _ & _ & _ & ?)]. Qed.

Lemma visits_ret {A} (a : A) : visits (mret a).
Proof.
  intros s. exists []. split; [by rewrite app_nil_r|].
  split; [apply orderly_nil|apply ended_nil].
Qed.

Lemma visits_lstat path : visits (lstat path).
Proof.
  intros s. exists [EvLstat path]. split; [done|]. split.
  - split.
    + by intros p e ?%list_elem_of_singleton.
    + intros [|? [|? ?]] post oldpath newpath err Heq; simplify_eq/=.
  - by apply ended_succeeded, Forall_singleton.
Qed.

Lemma visits_readDir path : visits (readDir path).
Proof.
  intros s. exists [EvReadDir path]. split; [done|]. split.
  - split.
    + by intros p e ?%list_elem_of_singleton.
    + intros [|? [|? ?]] post oldpath newpath err Heq; simplify_eq/=.
  - by apply ended_succeeded, Forall_singleton.
Qed.

Lemma visits_bind {A B} (m : M state A) (k : A → M state B) :
  visits m → (∀ a, visits (k a)) → visits (m ≫= k).
Proof.
  intros Hm Hk s. destruct (Hm s) as (evs1 & Htr1 & Hord1 & Hend1).
  unfold mbind, M_bind, bind. destruct (m s) as [[a| e | msg |] s1] eqn:Hms;
    cbn [fst snd] in *.
  - destruct (Hk a s1) as (evs2 & Htr2 & Hord2 & Hend2).
    exists (evs1 ++ evs2). rewrite Htr2, Htr1, app_assoc. split; [done|].
    split; [by apply orderly_app|].
    apply ended_Done_succeeded in Hend1.
    destruct Hend2 as [[Hq Hr]|(before & last & e & -> & Hq & Hlast & Hr)].
    + left. split; [by apply Forall_app|done].
    + right. exists (evs1 ++ before), last, e. rewrite app_assoc.
      repeat split; [|done..]. by apply Forall_app.
  - exists evs1. split; [done|]. split; [done|].
    destruct Hend1 as [[_ [[? ?]|?]]|(before & last & e' & ? & ? & ? & Hr)];
      [done..|].
    right. exists before, last, e'. repeat split; [done..|congruence].
  - by destruct Hend1 as [[_ [[? ?]|?]]|(? & ? & ? & _ & _ & _ & ?)].
  - exists evs1. split; [done|]. split; [done|].
    destruct Hend1 as [[? _]|(? & ? & ? & _ & _ & _ & ?)]; [|done].
    left. split; [done|by right].
Qed.

Lemma visits_forRange {A} (l : list A) (body : A → M state unit) :
  (∀ x, visits (body x)) → visits (forRange l body).
Proof.
  intros Hbody. induction l as [|x l IH]; [apply visits_ret|].
  cbn [forRange]. by apply visits_bind.
Qed.

Lemma orderly_read path err : yamlPath path → orderly [EvReadFile path err].
Proof.
  intros Hpath. split.
  - by intros p e [= -> ->]%list_elem_of_singleton.
  - intros [|? [|? ?]] post oldpath newpath e' Heq; simplify_eq/=.
Qed.

Lemma visits_walkFn path info err : visits (walkFn path info err).
Proof.
  unfold walkFn. destruct info as [fi|]; [|apply visits_ret].
  destruct (IsDir fi); [apply visits_ret|].
  destruct (_ && _) eqn:Hfilter; [apply visits_ret|].
  assert (yamlPath path) as Hpath.
  { apply andb_false_iff in Hfilter as [?%negb_false_iff|?%negb_false_iff];
      [by left|by right]. }
  intros s. unfold mbind, M_bind, bind, wrapf, yamlReadFile.
  destruct (ReadFile (world s) path) as [e|node] eqn:Hread.
  { exists [EvReadFile path (Some e)]. split; [done|].
    split; [by apply orderly_read|].
    right. exists [], (EvReadFile path (Some e)), (Wrap e ("failed to load file " +:+ path)).
    by repeat split. }
  case_decide as Hname.
  { exists [EvReadFile path None;
            EvWarn ("no name for file " +:+ path +:+ " so ignoring")].
    cbn [emit fst snd trace]. rewrite <-app_assoc. split; [done|]. split.
    - apply (orderly_app [_] [_]); [by apply orderly_read|].
      split.
      + by intros p e' ?%list_elem_of_singleton.
      + intros [|? [|? ?]] post oldpath newpath e' Heq; simplify_eq/=.
    - apply ended_succeeded. by repeat constructor. }
  pose proof (eq_refl (newPathOf path (GetKind node path) (GetName node path)))
    as Hnew.
  unfold newPathOf at 1 in Hnew.
  destruct (filepath.Split path) as [dir file] eqn:Hsplit.
  case_decide as Hne.
  2:{ exists [EvReadFile path None]. split; [done|].
      split; [by apply orderly_read|].
      apply ended_succeeded. by repeat constructor. }
  unfold emit, osRename. cbn [world trace].
  destruct (Rename _ _ _) as [e w] eqn:Hren.
  exists [EvReadFile path None;
          EvInfo ("renaming " +:+ file +:+ " => "
                  +:+ canonicalName (GetKind node path) (GetName node path)
                  +:+ filepath.Ext path);
          EvRename path (newPathOf path (GetKind node path) (GetName node path)) e].
  rewrite <-Hnew. split; [by destruct e; rewrite <-!app_assoc|]. split.
  - split.
    + intros p e' Hin. rewrite !elem_of_cons in Hin.
      destruct Hin as [[= -> ->]|[?|[?|?%elem_of_nil]]]; done.
    + intros [|? [|? [|? [|? ?]]]] post oldpath newpath e' Heq;
        cbn [app] in Heq; simplify_eq.
      split; [apply elem_of_cons; by left|].
      split; [exact Hne|].
      exists (GetKind node oldpath), (GetName node oldpath).
      split; [exact Hname|exact Hnew].
  - destruct e as [e|].
    + right. eexists [_; _], _, _. split; [done|].
      split; [by repeat constructor|]. split; [|done].
      cbn [failureOf]. eexists _, _. split; [done|]. by rewrite Hsplit.
    + apply ended_succeeded. by repeat constructor.
Qed.

Lemma visits_walk fuel path info fn :
  (∀ p i e, visits (fn p i e)) → visits (walk fuel path info fn).
Proof.
  intros Hfn. revert path info.
  induction fuel as [|fuel IH]; intros path info.
  - intros s. exists []. split; [by rewrite app_nil_r|].
    split; [apply orderly_nil|]. left. split; [constructor|by right].
  - cbn [walk]. destruct (negb (IsDir info)); [apply Hfn|].
    apply visits_bind; [apply visits_readDir|]. intros [err|names]; [apply Hfn|].
    apply visits_bind; [apply Hfn|]. intros _.
    apply visits_forRange. intros name.
    apply visits_bind; [apply visits_lstat|]. intros [err|fileInfo]; [apply Hfn|].
    apply IH.
Qed.

Lemma visits_Walk fuel root fn :
  (∀ p i e, visits (fn p i e)) → visits (Walk fuel root fn).
Proof.
  intros Hfn. unfold Walk.
  apply visits_bind; [apply visits_lstat|]. intros [err|info]; [apply Hfn|].
  by apply visits_walk.
Qed.

(** The events of a run, and its result before [Run] wraps it. *)
Lemma Run_visits fuel o s :
  ∃ evs, trace (Run fuel o s).2 = trace s ++ evs
         ∧ orderly evs
         ∧ ended (Walk fuel (Dir o) walkFn s).1 evs
         ∧ (Run fuel o s).1
           = match (Walk fuel (Dir o) walkFn s).1 with
             | Failed e =>
                 Failed (Wrap e ("failed to rename YAML files in dir " +:+ Dir o))
             | r => r
             end.
Proof.
  destruct (visits_Walk fuel (Dir o) walkFn visits_walkFn s)
    as (evs & Htr & Hord & Hend).
  exists evs. unfold Run, wrapf.
  destruct (Walk fuel (Dir o) walkFn s) as [r s1]. cbn [fst snd] in *.
  by destruct r.
Qed.

(** A failure among the events: it is the last one, and its error is
    returned. *)
Lemma ended_split {A} (r : result A) evs pre post ev :
  ended r evs → evs = pre ++ ev :: post → ¬ succeeded ev →
  post = [] ∧ ∃ e, failureOf ev e ∧ r = Failed e.
Proof.
  intros [[Hq _]|(before & last & e & -> & Hq & Hlast & ->)] Hevs Hev.
  - subst evs. apply Forall_app in Hq as [_ Hq]. by inversion_clear Hq.
  - destruct post as [|ev' post _] using rev_ind.
    + apply app_inj_tail in Hevs as [_ ->]. eauto.
    + rewrite app_comm_cons, app_assoc in Hevs.
      apply app_inj_tail in Hevs as [-> _].
      apply Forall_app in Hq as [_ Hq]. by inversion_clear Hq.
Qed.

(** The new path of a YAML file has the extension of the file, whatever the
    name and the kind are. *)
Lemma newPathOf_keeps_extension (path kind name : string) :
  yamlPath path →
  (gostrings.HasSuffix path ".yaml" = true
   ∧ gostrings.HasSuffix (newPathOf path kind name) ".yaml" = true)
  ∨ (gostrings.HasSuffix path ".yml" = true
     ∧ gostrings.HasSuffix (newPathOf path kind name) ".yml" = true).
Proof.
  assert (Hyaml : Forall (λ c, c ≠ filepath.Separator ∧ c ≠ "."%char)
                         (list_ascii_of_string "yaml"))
    by (by repeat constructor).
  assert (Hyml : Forall (λ c, c ≠ filepath.Separator ∧ c ≠ "."%char)
                        (list_ascii_of_string "yml"))
    by (by repeat constructor).
  intros [Hpath|Hpath]; [left|right]; (split; [done|]);
    apply string_facts.HasSuffix_spec in Hpath as [pre ->];
    apply string_facts.HasSuffix_spec; unfold newPathOf;
    destruct (filepath.Split _) as [dir file].
  - rewrite (filepath_facts.Ext_suffix pre "yaml" Hyaml).
    apply filepath_last_facts.Join_keeps_suffix; [by repeat constructor|simpl; lia].
  - rewrite (filepath_facts.Ext_suffix pre "yml" Hyml).
    apply filepath_last_facts.Join_keeps_suffix; [by repeat constructor|simpl; lia].
Qed.

(** X1.  In every run, whatever the file system holds and whatever the fuel
    is, a file that is parsed has the suffix [.yaml] or [.yml]; and a file
    that is renamed has that suffix and was parsed, without error, earlier in
    the same run. *)
Theorem Run_parses_before_renaming fuel o s :
  ∃ evs, trace (Run fuel o s).2 = trace s ++ evs
    ∧ (∀ path err, EvReadFile path err ∈ evs → yamlPath path)
    ∧ ∀ pre post oldpath newpath err,
        evs = pre ++ EvRename oldpath newpath err :: post →
        yamlPath oldpath ∧ EvReadFile oldpath None ∈ pre.
Proof.
  destruct (Run_visits fuel o s) as (evs & Htr & [Hread Hren] & _).
  exists evs. split; [done|]. split; [done|].
  intros pre post oldpath newpath err Hevs.
  destruct (Hren pre post oldpath newpath err Hevs) as (Hin & _).
  split; [|done]. apply (Hread oldpath None). subst evs.
  apply elem_of_app. by left.
Qed.

(** X2.  In every run a rename goes to another path than the one the file
    has, and the new path ends with the extension of the old one: [.yaml]
    stays [.yaml] and [.yml] stays [.yml], also when the name or the kind has
    a separator or a dot in it. *)
Theorem Run_rename_keeps_extension fuel o s :
  ∃ evs, trace (Run fuel o s).2 = trace s ++ evs
    ∧ ∀ oldpath newpath err,
        EvRename oldpath newpath err ∈ evs →
        newpath ≠ oldpath
        ∧ ((gostrings.HasSuffix oldpath ".yaml" = true
            ∧ gostrings.HasSuffix newpath ".yaml" = true)
           ∨ (gostrings.HasSuffix oldpath ".yml" = true
              ∧ gostrings.HasSuffix newpath ".yml" = true)).
Proof.
  destruct (Run_visits fuel o s) as (evs & Htr & [Hread Hren] & _).
  exists evs. split; [done|].
  intros oldpath newpath err (pre & post & Hevs)%list_elem_of_split.
  destruct (Hren pre post oldpath newpath err Hevs)
    as (Hin & Hne & kind & name & _ & ->).
  split; [done|]. apply newPathOf_keeps_extension.
  apply (Hread oldpath None). subst evs. apply elem_of_app. by left.
Qed.

(** X3.  How a run ends.  Either no parse and no rename failed, and the run
    returns normally (or the walk is out of fuel); or the last event is a
    parse or a rename that failed, no event before it is a failure, and the
    run returns the error of that failure, wrapped with the directory.  So
    the errors of [Lstat] and of reading a directory are never returned, and
    the run never panics. *)
Theorem Run_fails_at_last_event fuel o s :
  ∃ evs, trace (Run fuel o s).2 = trace s ++ evs
    ∧ ((Forall succeeded evs
        ∧ ((Run fuel o s).1 = Done tt ∨ (Run fuel o s).1 = OutOfFuel))
       ∨ ∃ before last e,
           evs = before ++ [last]
           ∧ Forall succeeded before
           ∧ failureOf last e
           ∧ (Run fuel o s).1
             = Failed (Wrap e ("failed to rename YAML files in dir " +:+ Dir o))).
Proof.
  destruct (Run_visits fuel o s) as (evs & Htr & _ & Hend & Hrun).
  exists evs. split; [done|]. rewrite Hrun.
  destruct Hend as [[Hq Hr]|(before & last & e & -> & Hq & Hlast & ->)].
  - left. split; [done|]. destruct Hr as [[[] ->]| ->]; auto.
  - right. by exists before, last, e.
Qed.

(** X4.  A root that [Lstat] gives an error for, and a root directory whose
    names cannot be read: the error is dropped, nothing is parsed or
    renamed, and the run returns normally. *)
Theorem Run_ignores_root_errors fuel o s :
  (∀ err, Lstat (world s) (Dir o) = inl err →
          Run fuel o s = (Done tt, record s [EvLstat (Dir o)]))
  ∧ (∀ info err,
       Lstat (world s) (Dir o) = inr info → IsDir info = true →
       readDirNames (world s) (Dir o) = inl err →
       Run (S fuel) o s
       = (Done tt, record s [EvLstat (Dir o); EvReadDir (Dir o)])).
Proof.
  split.
  - intros err Hlstat. unfold Run, wrapf, Walk, mbind, M_bind, bind, lstat.
    by rewrite Hlstat.
  - intros info err Hlstat Hdir Hread.
    unfold Run, wrapf, Walk, mbind, M_bind, bind, lstat. rewrite Hlstat.
    cbn [walk]. rewrite Hdir. cbn [negb].
    unfold mbind, M_bind, bind, readDir. cbn [world trace]. rewrite Hread.
    cbn [walkFn]. rewrite Hdir. unfold ret, record. cbn [world trace].
    by rewrite <-app_assoc.
Qed.

(** X5.  For one kind, files of different names get different canonical
    names: [canonicalName] is injective in the name. *)
Theorem canonicalName_inj_name (kind name1 name2 : string) :
  canonicalName kind name1 = canonicalName kind name2 → name1 = name2.
Proof.
  unfold canonicalName. case_decide; [done|].
  apply filepath_last_facts.str_app_inv_tail.
Qed.

(** X6.  For kinds that have an entry in [kindSuffixes], the canonical name
    tells the name and the kind: two manifests get one canonical name only
    when their names are equal and their kinds are equal up to the case of
    the letters.  (No suffix of the table has a dash in it, and no two kinds
    share a suffix.) *)
Theorem canonicalName_inj_known (kind1 kind2 name1 name2 : string) :
  knownKind kind1 → knownKind kind2 →
  canonicalName kind1 name1 = canonicalName kind2 name2 →
  name1 = name2 ∧ ToLower kind1 = ToLower kind2.
Proof.
  intros Hk1 Hk2.
  destruct (canonicalName_known kind1 name1 Hk1) as (suffix1 & Hs1 & ->).
  destruct (canonicalName_known kind2 name2 Hk2) as (suffix2 & Hs2 & ->).
  intros [-> ->]%filepath_last_facts.str_split_at_last;
    [|by eapply kindSuffixes_no_dash..].
  split; [done|]. by eapply kindSuffixes_inj.
Qed.

End Props.

#[local] Existing Instance renamesim.externals.

(** A run over a service in [x.yaml]: the rename of [x.yaml] comes after its
    parse. *)
Lemma Run_parses_before_renaming_witness :
  let s := renamesim.start renamesim.serviceTree in
  let o := {| Dir := "." |} in
  let pre := [EvLstat "."; EvReadDir "."; EvLstat "x.yaml";
              EvReadFile "x.yaml" None;
              EvInfo "renaming x.yaml => foo-svc.yaml"] in
  trace (Run 5 o s).2 = pre ++ EvRename "x.yaml" "foo-svc.yaml" None :: []
  ∧ yamlPath "x.yaml" ∧ EvReadFile "x.yaml" None ∈ pre.
Proof.
  intros s o pre.
  assert (Htrace : trace (Run 5 o s).2
                   = pre ++ EvRename "x.yaml" "foo-svc.yaml" None :: [])
    by (vm_compute; reflexivity).
  split; [exact Htrace|].
  destruct (Run_parses_before_renaming 5 o s) as (evs & Htr & _ & Hren).
  change (trace s) with (@nil event) in Htr. rewrite app_nil_l in Htr.
  rewrite Htr in Htrace. exact (Hren _ _ _ _ _ Htrace).
Defined.

(** The same run: [x.yaml] goes to [foo-svc.yaml]. *)
Lemma Run_rename_keeps_extension_witness :
  let s := renamesim.start renamesim.serviceTree in
  let o := {| Dir := "." |} in
  EvRename "x.yaml" "foo-svc.yaml" None ∈ trace (Run 5 o s).2
  ∧ "foo-svc.yaml" ≠ "x.yaml"
  ∧ ((gostrings.HasSuffix "x.yaml" ".yaml" = true
      ∧ gostrings.HasSuffix "foo-svc.yaml" ".yaml" = true)
     ∨ (gostrings.HasSuffix "x.yaml" ".yml" = true
        ∧ gostrings.HasSuffix "foo-svc.yaml" ".yml" = true)).
Proof.
  intros s o.
  assert (Hin : EvRename "x.yaml" "foo-svc.yaml" None ∈ trace (Run 5 o s).2).
  { replace (trace (Run 5 o s).2)
      with ([EvLstat "."; EvReadDir "."; EvLstat "x.yaml";
             EvReadFile "x.yaml" None;
             EvInfo "renaming x.yaml => foo-svc.yaml"]
            ++ [EvRename "x.yaml" "foo-svc.yaml" None])
      by (vm_compute; reflexivity).
    apply elem_of_app. right. apply elem_of_cons. by left. }
  split; [exact Hin|].
  destruct (Run_rename_keeps_extension 5 o s) as (evs & Htr & Hren).
  change (trace s) with (@nil event) in Htr. rewrite app_nil_l in Htr.
  rewrite Htr in Hin. exact (Hren _ _ _ Hin).
Defined.

(** An empty file system: the directory of the run is not there, and the run
    returns normally. *)
Lemma Run_ignores_root_errors_witness :
  let s := renamesim.start ∅ in
  let o := {| Dir := "manifests" |} in
  Lstat (world s) (Dir o)
  = inl (New "lstat manifests: no such file or directory")
  ∧ Run 5 o s = (Done tt, record s [EvLstat "manifests"]).
Proof.
  intros s o.
  assert (Hlstat : Lstat (world s) (Dir o)
                   = inl (New "lstat manifests: no such file or directory"))
    by (vm_compute; reflexivity).
  split; [exact Hlstat|].
  exact (proj1 (Run_ignores_root_errors 5 o s) _ Hlstat).
Defined.

Lemma canonicalName_inj_name_witness :
  canonicalName "Service" "foo" = canonicalName "Service" "foo" ∧ "foo" = "foo".
Proof.
  split; [reflexivity|].
  apply (canonicalName_inj_name "Service" "foo" "foo"). reflexivity.
Defined.

(** [Service] and [SERVICE] are one kind. *)
Lemma canonicalName_inj_known_witness :
  (knownKind "Service" ∧ knownKind "SERVICE"
   ∧ canonicalName "Service" "foo" = canonicalName "SERVICE" "foo")
  ∧ "foo" = "foo" ∧ ToLower "Service" = ToLower "SERVICE".
Proof.
  assert (Hhyp : knownKind "Service" ∧ knownKind "SERVICE"
                 ∧ canonicalName "Service" "foo" = canonicalName "SERVICE" "foo").
  { split; [|split]; [split; [done|by eexists; vm_compute]..|by vm_compute]. }
  split; [exact Hhyp|]. destruct Hhyp as (Hk1 & Hk2 & Heq).
  exact (canonicalName_inj_known "Service" "SERVICE" "foo" "foo" Hk1 Hk2 Heq).
Defined.

(** Without an entry in [kindSuffixes] two manifests can share a canonical
    name: a dash in the kind is enough. *)
Example canonicalName_collision :
  canonicalName "b-c" "a" = canonicalName "c" "a-b".
Proof. by vm_compute. Qed.

(** A failed rename ends the run: the service [a/b] of [x.yaml] would go to
    the directory [a], which is not there. *)
Example Run_failed_rename :
  let w : gmap string renamesim.file :=
    list_to_map [(".", renamesim.Directory);
                 ("x.yaml", renamesim.Manifest "Service" "a/b");
                 ("y.yaml", renamesim.Manifest "Service" "foo")] in
  let e := New "rename x.yaml a/b-svc.yaml: no such file or directory" in
  let run := Run 5 {| Dir := "." |} (renamesim.start w) in
  run.1 = Failed (Wrap (Wrap e "failed to rename x.yaml to a/b-svc.yaml")
                       "failed to rename YAML files in dir .")
  ∧ trace run.2 = [EvLstat "."; EvReadDir "."; EvLstat "x.yaml";
                   EvReadFile "x.yaml" None;
                   EvInfo "renaming x.yaml => a/b-svc.yaml";
                   EvRename "x.yaml" "a/b-svc.yaml" (Some e)].
Proof. split; vm_compute; reflexivity. Qed.

End rename_run_props.

(** * The runs of the job generator *)
Module jobs_run_props.
Import v1alpha1 jobs jobs_spec jobs_run_spec jobs_props.

Section Props.
Context `{Externals}.

#[local] Ltac proj :=
  cbn [Dir ConfigFile OutDir DefaultXmlTemplate SourceConfig JenkinsServers
       opts world trace fst snd negb].

#[local] Ltac step :=
  repeat (progress (
    unfold mbind, M_bind, bind, mret, M_ret, ret, mthrow, M_throw, fail, wrapf,
      panic, getOpts, modifyOpts, emit, fileExists, readFile, loadFile,
      mkdirAll, writeFile, reading, writing;
    proj)).

(** *** What the first loop does to the options *)

Lemma extends_refl servers : extends servers servers.
Proof. intros server configs Hs. exists []. by rewrite app_nil_r. Qed.

Lemma extends_trans servers1 servers2 servers3 :
  extends servers1 servers2 → extends servers2 servers3 →
  extends servers1 servers3.
Proof.
  intros H12 H23 server configs Hs.
  destruct (H12 server configs Hs) as [more1 Hs2].
  destruct (H23 server _ Hs2) as [more2 Hs3].
  exists (more1 ++ more2). by rewrite app_assoc.
Qed.

Lemma sameShape_refl config : sameShape config config.
Proof. unfold sameShape. induction (Groups config); by constructor. Qed.

Lemma sameShape_trans config1 config2 config3 :
  sameShape config1 config2 → sameShape config2 config3 →
  sameShape config1 config3.
Proof.
  unfold sameShape. intros H12 H23.
  eapply Forall2_trans; [|exact H12|exact H23].
  simpl. intros g1 g2 g3 ? ?. congruence.
Qed.

Lemma grows_refl o : grows o o.
Proof.
  repeat split; [apply sameShape_refl|].
  destruct (JenkinsServers o); [|done]. split; [apply extends_refl|done].
Qed.

Lemma grows_trans o1 o2 o3 : grows o1 o2 → grows o2 o3 → grows o1 o3.
Proof.
  intros (? & ? & ? & ? & Hshape12 & Hs12) (? & ? & ? & ? & Hshape23 & Hs23).
  repeat split; [congruence..|by eapply sameShape_trans|].
  destruct (JenkinsServers o1), (JenkinsServers o2), (JenkinsServers o3);
    try done.
  destruct Hs12, Hs23. split; [by eapply extends_trans|auto].
Qed.

Lemma wrapf_state {A} (m : M state A) msg s : (wrapf m msg s).2 = (m s).2.
Proof. unfold wrapf. by destruct (m s) as [[]]. Qed.

Lemma wrapf_panicked {A} (m : M state A) msg s msg' :
  (wrapf m msg s).1 = Panicked msg' ↔ (m s).1 = Panicked msg'.
Proof. unfold wrapf. by destruct (m s) as [[]]. Qed.

(** The configuration a repository with a server and a template adds. *)
Lemma append_grows o servers server cfg :
  JenkinsServers o = Some servers →
  server ≠ "" → Server cfg = server → XMLTemplateFile cfg ≠ "" →
  grows o (withJenkinsServers o
             (<[server := default [] (servers !! server) ++ [cfg]]> servers)).
Proof.
  intros Hs Hserver Hcfg Htpl. repeat split; [apply sameShape_refl|].
  rewrite Hs. cbn [withJenkinsServers JenkinsServers]. split.
  - intros server' configs Hs'.
    destruct (decide (server' = server)) as [->|Hne].
    + exists [cfg]. by rewrite lookup_insert_eq, Hs'.
    + exists []. by rewrite lookup_insert_ne, app_nil_r.
  - intros Hwell. apply map_Forall_insert_2; [|done].
    split; [done|]. split; [by destruct (default _ _)|].
    apply Forall_app. split; [|by apply Forall_singleton].
    destruct (servers !! server) as [configs|] eqn:Hconfigs; [|constructor].
    by destruct (Hwell server configs Hconfigs) as (_ & _ & ?).
Qed.

Lemma record_opts s evs : opts (record s evs) = opts s.
Proof. done. Qed.

Lemma processJenkinsConfig_grows group repo jc s :
  grows (opts s) (opts (processJenkinsConfig group repo jc s).2).
Proof.
  rewrite processJenkinsConfig_eq.
  case_decide as Hserver; [apply grows_refl|].
  assert (∀ p evs, p ≠ "" →
            grows (opts s) (opts (loadTemplate group repo jc p s evs).2)) as Hload.
  { intros p evs Hp. unfold loadTemplate.
    destruct (ReadFile _ _) as [e|data]; [apply grows_refl|].
    destruct (JenkinsServers (opts s)) as [servers|] eqn:Hs; [|apply grows_refl].
    by apply append_grows. }
  case_decide as Htpl.
  - cbv zeta. destruct (FileExists _ _) as [e|[]]; [apply grows_refl| |apply grows_refl].
    apply Hload. by apply filepath_facts.Join_not_empty'.
  - case_decide; [apply grows_refl|]. by apply Hload.
Qed.

Lemma defaulted_grows s i j group repo :
  Groups (SourceConfig (opts s)) !! i = Some group →
  grows (opts s) (opts (defaulted s i j group repo)).
Proof.
  intros Hi. repeat split.
  - unfold sameShape. cbn [defaulted opts withSourceConfig SourceConfig Groups].
    apply Forall2_same_length_lookup_2; [by rewrite length_insert|].
    intros i' g g' Hg Hg'.
    destruct (decide (i = i')) as [<-|Hne].
    + rewrite list_lookup_insert_eq in Hg' by by eapply lookup_lt_Some.
      simplify_eq. cbn [defaultedGroup Repositories]. by rewrite length_insert.
    + rewrite list_lookup_insert_ne in Hg' by done. congruence.
  - cbn [defaulted opts withSourceConfig JenkinsServers].
    destruct (JenkinsServers (opts s)); [|done]. split; [apply extends_refl|done].
Qed.

Lemma visitRepository_grows i j s :
  grows (opts s) (opts (visitRepository i j s).2).
Proof.
  destruct (Groups (SourceConfig (opts s)) !! i) as [group|] eqn:Hi.
  2:{ unfold visitRepository. step. rewrite Hi. apply grows_refl. }
  destruct (Repositories group !! j) as [repo|] eqn:Hj.
  2:{ unfold visitRepository. step. rewrite Hi, Hj. apply grows_refl. }
  rewrite (visitRepository_eq i j s group repo Hi Hj).
  destruct (Jenkins _) as [jc|]; cbn [snd]; [|by apply defaulted_grows].
  rewrite wrapf_state. eapply grows_trans; [by apply defaulted_grows|].
  apply processJenkinsConfig_grows.
Qed.

Lemma forRange_grows {A} (l : list A) (body : A → M state unit) :
  (∀ x s, grows (opts s) (opts (body x s).2)) →
  ∀ s, grows (opts s) (opts (forRange l body s).2).
Proof.
  intros Hbody. induction l as [|x l IH]; intros s; [apply grows_refl|].
  cbn [forRange]. unfold mbind, M_bind, bind.
  pose proof (Hbody x s) as Hx.
  destruct (body x s) as [[[]| e | msg |] s1]; cbn [snd] in *; [|done..].
  eapply grows_trans; [exact Hx|apply IH].
Qed.

Lemma visitGroup_grows i s : grows (opts s) (opts (visitGroup i s).2).
Proof.
  unfold visitGroup. step.
  destruct (Groups (SourceConfig (opts s)) !! i) as [group|]; [|apply grows_refl].
  apply forRange_grows. intros j. apply visitRepository_grows.
Qed.

Lemma collect_grows s : grows (opts s) (opts (collect s).2).
Proof. unfold collect. step. apply forRange_grows, visitGroup_grows. Qed.

Lemma grows_servers o o' :
  grows o o' → JenkinsServers o ≠ None → JenkinsServers o' ≠ None.
Proof.
  intros (_ & _ & _ & _ & _ & Hs) Hsome.
  by destruct (JenkinsServers o), (JenkinsServers o').
Qed.

Lemma grows_length o o' :
  grows o o' →
  length (Groups (SourceConfig o')) = length (Groups (SourceConfig o)).
Proof. intros (_ & _ & _ & _ & Hshape & _). symmetry. by eapply Forall2_length. Qed.

Lemma grows_group o o' i group :
  grows o o' → Groups (SourceConfig o) !! i = Some group →
  ∃ group', Groups (SourceConfig o') !! i = Some group'
            ∧ length (Repositories group') = length (Repositories group).
Proof.
  intros (_ & _ & _ & _ & Hshape & _) Hi.
  by destruct (Forall2_lookup_l _ _ _ _ _ Hshape Hi) as (group' & ? & ?); eauto.
Qed.

Lemma grows_serversOf o o' :
  grows o o' →
  extends (serversOf o) (serversOf o')
  ∧ (wellKeyed (serversOf o) → wellKeyed (serversOf o')).
Proof.
  intros (_ & _ & _ & _ & _ & Hs). unfold serversOf.
  destruct (JenkinsServers o), (JenkinsServers o');
    first [done | split; [apply extends_refl|done]].
Qed.

(** *** A run returns *)

Lemma returns_wrapf {A} (m : M state A) msg s :
  returns (m s).1 → returns (wrapf m msg s).1.
Proof. unfold wrapf. by destruct (m s) as [[]]. Qed.

Lemma processJenkinsConfig_returns group repo jc s :
  JenkinsServers (opts s) ≠ None →
  returns (processJenkinsConfig group repo jc s).1.
Proof.
  intros Hs. rewrite processJenkinsConfig_eq.
  assert (∀ p evs, returns (loadTemplate group repo jc p s evs).1) as Hload.
  { intros p evs. unfold loadTemplate.
    destruct (ReadFile _ _); [done|]. by destruct (JenkinsServers (opts s)). }
  case_decide; [done|]. case_decide.
  - cbv zeta. by destruct (FileExists _ _) as [e|[]].
  - by case_decide.
Qed.

Lemma visitRepository_returns i j s group :
  JenkinsServers (opts s) ≠ None →
  Groups (SourceConfig (opts s)) !! i = Some group →
  j < length (Repositories group) →
  returns (visitRepository i j s).1.
Proof.
  intros Hs Hi [repo Hj]%lookup_lt_is_Some_2.
  rewrite (visitRepository_eq i j s group repo Hi Hj).
  destruct (Jenkins _) as [jc|]; [|done].
  by apply returns_wrapf, processJenkinsConfig_returns.
Qed.

Lemma visitRepositories_returns i js s group :
  JenkinsServers (opts s) ≠ None →
  Groups (SourceConfig (opts s)) !! i = Some group →
  Forall (λ j, j < length (Repositories group)) js →
  returns (forRange js (visitRepository i) s).1.
Proof.
  revert s group. induction js as [|j js IH]; intros s group Hs Hi Hjs; [done|].
  apply Forall_cons in Hjs as [Hj Hjs]. cbn [forRange].
  unfold mbind, M_bind, bind.
  pose proof (visitRepository_returns i j s group Hs Hi Hj) as Hret.
  pose proof (visitRepository_grows i j s) as Hgrows.
  destruct (visitRepository i j s) as [[[]| e | msg |] s1]; cbn [fst snd] in *;
    [|done..].
  destruct (grows_group _ _ _ _ Hgrows Hi) as (group' & Hi' & Hlen).
  apply (IH s1 group'); [by eapply grows_servers|done|by rewrite Hlen].
Qed.

Lemma visitGroup_returns i s :
  JenkinsServers (opts s) ≠ None →
  i < length (Groups (SourceConfig (opts s))) →
  returns (visitGroup i s).1.
Proof.
  intros Hs [group Hi]%lookup_lt_is_Some_2. unfold visitGroup. step.
  rewrite Hi. apply (visitRepositories_returns i _ s group Hs Hi).
  apply Forall_forall. intros j Hj%elem_of_seq. lia.
Qed.

Lemma visitGroups_returns (l : list nat) s :
  JenkinsServers (opts s) ≠ None →
  Forall (λ i, i < length (Groups (SourceConfig (opts s)))) l →
  returns (forRange l visitGroup s).1.
Proof.
  revert s. induction l as [|i l IH]; intros s Hs Hl; [done|].
  apply Forall_cons in Hl as [Hi Hl]. cbn [forRange].
  unfold mbind, M_bind, bind.
  pose proof (visitGroup_returns i s Hs Hi) as Hret.
  pose proof (visitGroup_grows i s) as Hgrows.
  destruct (visitGroup i s) as [[[]| e | msg |] s1]; cbn [fst snd] in *;
    [|done..].
  apply IH; [by eapply grows_servers|]. by rewrite (grows_length _ _ Hgrows).
Qed.

Lemma collect_returns s : ready (opts s) → returns (collect s).1.
Proof.
  intros [Hnil|Hs]; unfold collect; step.
  - by rewrite Hnil.
  - apply visitGroups_returns; [done|].
    apply Forall_forall. intros i Hi%elem_of_seq. lia.
Qed.

Lemma renderJobs_returns server configs jobs s :
  returns (renderJobs server configs jobs s).1.
Proof.
  by destruct (renderJobs_result server configs jobs s)
    as [[jobs' ->]|(c & e & s1 & _ & _ & ->)].
Qed.

Lemma writeServer_returns server configs s :
  returns (writeServer server configs s).1.
Proof.
  rewrite writeServer_eq. destruct (MkdirAll _ _) as [[e|] w]; [done|].
  pose proof (renderJobs_returns server configs ∅ (afterMkdir s server w)) as Hret.
  destruct (renderJobs _ _ _ _) as [[jobs| e | msg |] s1]; cbn [fst] in Hret;
    [|done..].
  destruct (Marshal _) as [e|data]; [done|].
  by destruct (WriteFile _ _ _) as [[e|] w'].
Qed.

Lemma forRange_returns {A} (l : list A) (body : A → M state unit) s :
  (∀ x s, returns (body x s).1) → returns (forRange l body s).1.
Proof.
  intros Hbody. revert s. induction l as [|x l IH]; intros s; [done|].
  cbn [forRange]. unfold mbind, M_bind, bind. pose proof (Hbody x s) as Hret.
  destruct (body x s) as [[[]| e | msg |] s1]; cbn [fst] in *; [|done..].
  apply IH.
Qed.

Lemma writeServers_returns s : returns (writeServers s).1.
Proof.
  unfold writeServers. apply forRange_returns.
  intros [server configs] s'. apply writeServer_returns.
Qed.

Lemma Validate_returns s : returns (Validate s).1.
Proof.
  rewrite Validate_eq. cbv zeta.
  assert (∀ evs, returns (loadConfig s evs).1) as Hload.
  { intros evs. unfold loadConfig. by destruct (LoadFile _ _ _). }
  destruct (FileExists _ _) as [e|[]]; [done| |done].
  case_decide; [|done]. by destruct (FileExists _ _) as [e|[]].
Qed.

(** *** The options after [Validate] *)

Lemma loadConfig_opts s evs :
  let o' := opts (loadConfig s evs).2 in
  Dir o' = Dir (opts s) ∧ ConfigFile o' = configFileOf (opts s)
  ∧ OutDir o' = outDirOf (opts s)
  ∧ DefaultXmlTemplate o' = DefaultXmlTemplate (opts s)
  ∧ serversOf o' = serversOf (opts s)
  ∧ ((loadConfig s evs).1 = Done tt → JenkinsServers o' ≠ None).
Proof.
  unfold loadConfig. destruct (LoadFile _ _ _) as [e|config]; cbn [fst snd opts].
  - by repeat split.
  - unfold withServers, serversOf.
    destruct (JenkinsServers (opts s)) eqn:Hs;
      unfold withJenkinsServers, withSourceConfig, withPaths; proj;
      rewrite ?Hs; by repeat split.
Qed.

Lemma Validate_opts s :
  let o' := opts (Validate s).2 in
  Dir o' = Dir (opts s) ∧ ConfigFile o' = configFileOf (opts s)
  ∧ OutDir o' = outDirOf (opts s)
  ∧ DefaultXmlTemplate o' = DefaultXmlTemplate (opts s)
  ∧ serversOf o' = serversOf (opts s)
  ∧ ((Validate s).1 = Done tt → ready (opts s) → ready o').
Proof.
  rewrite Validate_eq. cbv zeta.
  assert (∀ evs,
    let o' := opts (loadConfig s evs).2 in
    Dir o' = Dir (opts s) ∧ ConfigFile o' = configFileOf (opts s)
    ∧ OutDir o' = outDirOf (opts s)
    ∧ DefaultXmlTemplate o' = DefaultXmlTemplate (opts s)
    ∧ serversOf o' = serversOf (opts s)
    ∧ ((loadConfig s evs).1 = Done tt → ready (opts s) → ready o')) as Hload.
  { intros evs. destruct (loadConfig_opts s evs) as (? & ? & ? & ? & ? & Hs).
    repeat split; [done..|]. intros Hdone _. right. by apply Hs. }
  destruct (FileExists _ _) as [e|[]]; [by repeat split| |by repeat split].
  case_decide; [|apply Hload].
  destruct (FileExists _ _) as [e|[]]; [by repeat split|apply Hload|by repeat split].
Qed.

(** *** The events of the second loop *)

Lemma writesFor_nil o names : writesFor o names [].
Proof.
  split; [constructor|]. split.
  - by intros path ?%elem_of_nil.
  - intros pre post path data Heq. by destruct pre.
Qed.

Lemma writesFor_app o names evs1 evs2 :
  writesFor o names evs1 → writesFor o names evs2 →
  writesFor o names (evs1 ++ evs2).
Proof.
  intros (Hr1 & Hm1 & Hw1) (Hr2 & Hm2 & Hw2).
  split; [by apply Forall_app|]. split.
  - intros path [?|?]%elem_of_app; eauto.
  - intros pre post path data Heq.
    apply app_eq_app in Heq as [l [[-> Heq]|[-> ->]]].
    + destruct l as [|ev l]; simplify_eq/=.
      * destruct (Hw2 [] post path data eq_refl) as (server & _ & _ & Hin).
        by apply elem_of_nil in Hin.
      * apply (Hw1 pre l path data eq_refl).
    + destruct (Hw2 l post path data eq_refl) as (server & ? & ? & Hin).
      exists server. split; [done|]. split; [done|].
      apply elem_of_app. by right.
Qed.

Lemma writesFor_mono o names names' evs :
  names ⊆ names' → writesFor o names evs → writesFor o names' evs.
Proof.
  intros Hsub (Hr & Hm & Hw). split; [done|]. split.
  - intros path Hin. destruct (Hm path Hin) as (server & ? & ?). eauto.
  - intros pre post path data Heq.
    destruct (Hw pre post path data Heq) as (server & ? & ? & ?). eauto 6.
Qed.

(** One turn of the second loop: the directory of the server is made; the
    message and the write follow when nothing fails. *)
Lemma writeServer_writes server configs s :
  let run := writeServer server configs s in
  opts run.2 = opts s
  ∧ ∃ rest,
      trace run.2 = trace s ++ EvMkdirAll (serverDir (opts s) server) :: rest
      ∧ (rest = [] ∨ rest = [creating (opts s) server]
         ∨ ∃ data, rest = [creating (opts s) server;
                           EvWriteFile (valuesPath (opts s) server) data]).
Proof.
  cbv zeta. rewrite writeServer_eq.
  destruct (MkdirAll _ _) as [[e|] w]; cbn [fst snd opts trace].
  { split; [done|]. exists []. auto. }
  destruct (renderJobs_state server configs ∅ (afterMkdir s server w))
    as [Hopts Htrace].
  destruct (renderJobs _ _ _ _) as [[jobs| e | msg |] s1]; cbn [fst snd] in *.
  2-4: split; [done|]; exists [creating (opts s) server];
       rewrite Htrace; cbn [afterMkdir trace]; auto.
  destruct (Marshal _) as [e|data]; cbn [fst snd].
  { split; [done|]. exists [creating (opts s) server].
    rewrite Htrace. cbn [afterMkdir trace]. auto. }
  destruct (WriteFile _ _ _) as [[e|] w']; cbn [fst snd opts trace];
    (split; [done|]);
    exists [creating (opts s) server;
            EvWriteFile (valuesPath (opts s) server) data];
    rewrite Htrace; cbn [afterMkdir trace]; rewrite <-app_assoc; eauto.
Qed.

Lemma writeServer_writesFor o server rest :
  rest = [] ∨ rest = [creating o server]
  ∨ (∃ data, rest = [creating o server; EvWriteFile (valuesPath o server) data]) →
  writesFor o [server] (EvMkdirAll (serverDir o server) :: rest).
Proof.
  assert (server ∈ [server]) as Hin by (by apply list_elem_of_singleton).
  intros [->|[->|[data ->]]]; (split; [by repeat constructor|]); split.
  - intros path [= ->]%list_elem_of_singleton. eauto.
  - intros [|? [|? ?]] post path data Heq; simplify_eq/=.
  - intros path Hp. rewrite !elem_of_cons in Hp.
    destruct Hp as [[= ->]|[?|?%elem_of_nil]]; [eauto|done..].
  - intros [|? [|? [|? ?]]] post path data Heq; simplify_eq/=.
  - intros path Hp. rewrite !elem_of_cons in Hp.
    destruct Hp as [[= ->]|[?|[?|?%elem_of_nil]]]; [eauto|done..].
  - intros [|? [|? [|? [|? ?]]]] post path data' Heq; simplify_eq/=.
    exists server. split; [done|]. split; [done|]. apply elem_of_cons. by left.
Qed.

Lemma forRange_writeServer_writes servers s :
  let run := forRange servers (λ '(server, configs), writeServer server configs) s in
  opts run.2 = opts s
  ∧ ∃ evs, trace run.2 = trace s ++ evs
           ∧ writesFor (opts s) servers.*1 evs
           ∧ ((evs = [] ∧ world run.2 = world s)
              ∨ ∃ path rest, evs = EvMkdirAll path :: rest).
Proof.
  cbv zeta. revert s. induction servers as [|[server configs] servers IH]; intros s.
  { split; [done|]. exists []. rewrite app_nil_r.
    split; [done|]. split; [apply writesFor_nil|by left]. }
  cbn [forRange]. unfold mbind, M_bind, bind.
  destruct (writeServer_writes server configs s) as (Hopts & rest & Htrace & Hrest).
  apply (writeServer_writesFor (opts s) server) in Hrest.
  apply (writesFor_mono _ _ ((server, configs) :: servers).*1) in Hrest;
    [|intros x ->%list_elem_of_singleton; apply elem_of_cons; by left].
  destruct (writeServer server configs s) as [[[]| e | msg |] s1];
    cbn [fst snd] in *.
  2-4: split; [done|]; eexists; split; [exact Htrace|]; split; [done|];
       right; eauto.
  destruct (IH s1) as (Hopts' & evs & Htrace' & Hevs & _).
  split; [congruence|].
  exists ((EvMkdirAll (serverDir (opts s) server) :: rest) ++ evs).
  split; [by rewrite Htrace', Htrace, <-app_assoc|].
  split; [|right; eauto].
  apply writesFor_app; [done|]. rewrite Hopts in Hevs.
  eapply writesFor_mono; [|done].
  intros x Hx. apply elem_of_cons. by right.
Qed.

Lemma writeServers_writes s :
  opts (writeServers s).2 = opts s
  ∧ ∃ evs names,
      trace (writeServers s).2 = trace s ++ evs
      ∧ writesFor (opts s) names evs
      ∧ (∀ server, server ∈ names → is_Some (serversOf (opts s) !! server))
      ∧ ((evs = [] ∧ world (writeServers s).2 = world s)
         ∨ ∃ path rest, evs = EvMkdirAll path :: rest).
Proof.
  unfold writeServers.
  destruct (forRange_writeServer_writes
              (mapRange (world s) (default ∅ (JenkinsServers (opts s)))) s)
    as (Hopts & evs & Htrace & Hevs & Hfirst).
  split; [done|]. eexists evs, _. split; [done|]. split; [exact Hevs|].
  split; [|done].
  intros server ([server' configs] & -> & Hin)%list_elem_of_fmap.
  rewrite mapRange_perm in Hin. apply elem_of_map_to_list in Hin.
  by exists configs.
Qed.

(** *** The three parts of a run *)

Lemma Run_parts s :
  let o' := opts (Run s).2 in
  (Dir o' = Dir (opts s) ∧ ConfigFile o' = configFileOf (opts s)
   ∧ OutDir o' = outDirOf (opts s)
   ∧ DefaultXmlTemplate o' = DefaultXmlTemplate (opts s))
  ∧ extends (serversOf (opts s)) (serversOf o')
  ∧ (wellKeyed (serversOf (opts s)) → wellKeyed (serversOf o'))
  ∧ (ready (opts s) → returns (Run s).1)
  ∧ ∃ evs1 evs2 names,
      trace (Run s).2 = trace s ++ evs1 ++ evs2
      ∧ Forall notWrite evs1
      ∧ writesFor o' names evs2
      ∧ (∀ server, server ∈ names → is_Some (serversOf o' !! server))
      ∧ ((evs2 = [] ∧ world (Run s).2 = world s)
         ∨ ∃ path rest, evs2 = EvMkdirAll path :: rest).
Proof.
  cbv zeta. rewrite Run_eq.
  destruct (Validate_opts s) as (HDir & HConfigFile & HOutDir & HTemplate & Hservers & Hready).
  destruct (Validate_checks s) as (Hworld & rest & Htrace & Hrest & _).
  pose proof (Validate_returns s) as Hret.
  destruct (Validate s) as [r1 s1]. cbn [fst snd] in *.
  assert (extends (serversOf (opts s)) (serversOf (opts s1))
          ∧ (wellKeyed (serversOf (opts s)) → wellKeyed (serversOf (opts s1))))
    as [Hext1 Hwell1]
    by (rewrite Hservers; split; [apply extends_refl|done]).
  assert (Forall notWrite (EvFileExists (configFileOf (opts s)) :: rest)) as Hrest'
    by (by constructor).
  destruct r1 as [[]| e | msg |]; cbn [fst snd].
  2-4: split; [done|]; split; [done|]; split; [done|]; split; [done|];
       eexists _, [], []; rewrite app_nil_r; split; [exact Htrace|];
       split; [done|]; split; [apply writesFor_nil|];
       split; [by intros ? ?%elem_of_nil|by left].
  pose proof (collect_grows s1) as Hgrows.
  destruct (reads_collect s1) as (Hworld2 & evsc & Htrace2 & Hevsc & _).
  pose proof (collect_returns s1) as Hret2.
  destruct (grows_serversOf _ _ Hgrows) as [Hext2 Hwell2].
  pose proof Hgrows as (HDir2 & HConfigFile2 & HOutDir2 & HTemplate2 & _).
  destruct (collect s1) as [r2 s2]. cbn [fst snd] in *.
  assert (Forall notWrite ((EvFileExists (configFileOf (opts s)) :: rest) ++ evsc))
    as Hreads by (by apply Forall_app).
  assert (trace s2 = trace s ++ (EvFileExists (configFileOf (opts s)) :: rest) ++ evsc)
    as Htrace12 by (by rewrite Htrace2, Htrace, <-app_assoc).
  destruct r2 as [[]| e | msg |]; cbn [fst snd].
  2-4: (split; [repeat split; congruence|]);
       (split; [by eapply extends_trans|]); (split; [by auto|]);
       (split; [by auto|]);
       eexists _, [], []; rewrite app_nil_r; split; [exact Htrace12|];
       split; [done|]; split; [apply writesFor_nil|];
       split; [by intros ? ?%elem_of_nil|left; split; [done|congruence]].
  destruct (writeServers_writes s2) as (Hopts3 & evs2 & names & Htrace3 & Hevs2 & Hnames & Hfirst).
  pose proof (writeServers_returns s2) as Hret3.
  destruct (writeServers s2) as [r3 s3]. cbn [fst snd] in *. rewrite Hopts3.
  split; [repeat split; congruence|].
  split; [by eapply extends_trans|]. split; [by auto|]. split; [done|].
  exists ((EvFileExists (configFileOf (opts s)) :: rest) ++ evsc), evs2, names.
  split; [by rewrite Htrace3, Htrace12, <-!app_assoc|].
  split; [done|]. split; [done|]. split; [done|].
  destruct Hfirst as [[-> Hw]|?]; [left|by right]. split; [done|]. congruence.
Qed.

(** X7.  A run reads before it writes.  Its events are those of the
    validation and of the loop over the repositories, with no directory made
    and no file written among them, followed by those of the loop over the
    servers, with no existence check, no load and no read among them.  When
    the second part is empty the world is as it was; otherwise it begins with
    the making of a directory. *)
Theorem Run_reads_before_writes s :
  ∃ evs1 evs2,
    trace (Run s).2 = trace s ++ evs1 ++ evs2
    ∧ Forall notWrite evs1
    ∧ Forall notRead evs2
    ∧ ((evs2 = [] ∧ world (Run s).2 = world s)
       ∨ ∃ path rest, evs2 = EvMkdirAll path :: rest).
Proof.
  destruct (Run_parts s)
    as (_ & _ & _ & _ & evs1 & evs2 & names & Htrace & Hevs1 & (Hevs2 & _) & _ & Hfirst).
  by exists evs1, evs2.
Qed.

(** X8.  A run that starts with no group in its configuration, or with a map
    of servers that is not [nil], does not panic: it returns normally or with
    an error.  The options [NewCmdJenkinsJobs] creates have no group. *)
Theorem Run_returns s :
  ready (opts s) → (Run s).1 = Done tt ∨ ∃ e, (Run s).1 = Failed e.
Proof.
  intros Hready. destruct (Run_parts s) as (_ & _ & _ & Hret & _).
  specialize (Hret Hready). destruct (Run s).1 as [[]| e | msg |]; eauto; done.
Qed.

(** X9.  A run keeps the configurations the options hold when it starts:
    every server is still there when it ends, whatever the result is, with
    the configurations it had at the front of its list. *)
Theorem Run_keeps_configurations s server configs :
  serversOf (opts s) !! server = Some configs →
  ∃ more, serversOf (opts (Run s).2) !! server = Some (configs ++ more).
Proof.
  destruct (Run_parts s) as (_ & Hext & _). apply Hext.
Qed.

(** X10.  The servers a run collects are well keyed.  When the servers the
    options hold at the start are (none, for the options of
    [NewCmdJenkinsJobs]), then at the end no server has the empty name or an
    empty list, and every configuration is kept under the server it names and
    has a template path that is not empty. *)
Theorem Run_collects_well_keyed s :
  wellKeyed (serversOf (opts s)) → wellKeyed (serversOf (opts (Run s).2)).
Proof.
  destruct (Run_parts s) as (_ & _ & Hwell & _). apply Hwell.
Qed.

(** X11.  What a run makes and writes, whatever its result is.  A directory
    is made only for a server of [JenkinsServers], at the output directory
    joined with its name; a file is written only for such a server, at
    [values.yaml] in its directory, and after that directory was made.  The
    output directory is [OutDir], or [<Dir>/jenkins] when that is empty. *)
Theorem Run_writes_for_servers s :
  let o' := opts (Run s).2 in
  ∃ evs,
    trace (Run s).2 = trace s ++ evs
    ∧ (∀ path, EvMkdirAll path ∈ evs →
         ∃ server, is_Some (serversOf o' !! server)
                   ∧ path = filepath.Join [outDirOf (opts s); server])
    ∧ ∀ pre post path data,
        evs = pre ++ EvWriteFile path data :: post →
        ∃ server,
          is_Some (serversOf o' !! server)
          ∧ path = filepath.Join [filepath.Join [outDirOf (opts s); server];
                                  "values.yaml"]
          ∧ EvMkdirAll (filepath.Join [outDirOf (opts s); server]) ∈ pre.
Proof.
  cbv zeta. destruct (Run_parts s)
    as ((_ & _ & HOutDir & _) & _ & _ & _ & evs1 & evs2 & names & Htrace
        & Hevs1 & (_ & Hmk & Hwr) & Hnames & _).
  unfold serverDir, valuesPath, serverDir in *. rewrite HOutDir in *.
  exists (evs1 ++ evs2). split; [done|]. split.
  - intros path [Hin|Hin]%elem_of_app.
    + by eapply Forall_forall in Hevs1; [|done].
    + destruct (Hmk path Hin) as (server & ? & ?). eauto.
  - intros pre post path data Heq.
    apply app_eq_app in Heq as [l [[-> Heq]|[-> ->]]].
    + destruct l as [|ev l]; simplify_eq/=.
      * destruct (Hwr [] post path data eq_refl) as (server & _ & _ & Hin).
        by apply elem_of_nil in Hin.
      * apply Forall_app in Hevs1 as [_ Hevs1]. by inversion_clear Hevs1.
    + destruct (Hwr l post path data eq_refl) as (server & ? & ? & Hin).
      exists server. split; [auto|]. split; [done|].
      apply elem_of_app. by right.
Qed.

(** X12.  What a run does to the paths of its options, whatever its result
    is: [Dir] and [DefaultXmlTemplate] are as they were; [ConfigFile] and
    [OutDir] are as they were when they were not empty, and otherwise
    [<Dir>/.jx/gitops/source-config.yaml] and [<Dir>/jenkins]; neither is
    empty at the end. *)
Theorem Run_settles_paths s :
  let o' := opts (Run s).2 in
  Dir o' = Dir (opts s)
  ∧ DefaultXmlTemplate o' = DefaultXmlTemplate (opts s)
  ∧ ConfigFile o' = configFileOf (opts s)
  ∧ OutDir o' = outDirOf (opts s)
  ∧ ConfigFile o' ≠ "" ∧ OutDir o' ≠ "".
Proof.
  cbv zeta. destruct (Run_parts s) as ((-> & -> & -> & ->) & _).
  repeat split.
  - unfold configFileOf. case_decide as Hc; [|done].
    intros Hnil%filepath_facts.Join_empty.
    apply Forall_cons in Hnil as [_ Hnil]. by apply Forall_cons in Hnil as [? _].
  - unfold outDirOf. case_decide as Hc; [|done].
    by apply filepath_facts.Join_not_empty'.
Qed.

End Props.

#[local] Existing Instance jobssim.externals.

(** A run over one repository, from the options of [NewCmdJenkinsJobs]. *)
Lemma Run_returns_witness :
  let s := jobssim.start (NewCmdJenkinsJobs "." "" "" "default.xml") jobssim.oneJob in
  ready (opts s) ∧ (Run s).1 = Done tt.
Proof.
  intros s. assert (Hready : ready (opts s)) by (by left).
  split; [exact Hready|].
  destruct (Run_returns s Hready) as [?|[e He]]; [done|].
  exfalso. revert He. vm_compute. discriminate.
Defined.

(** With a configuration in the options, no configuration file and the [nil]
    map of servers, the first repository with a server panics. *)
Example Run_panics_on_nil_map :
  let o := {| Dir := "."; ConfigFile := ""; OutDir := "";
              DefaultXmlTemplate := "default.xml";
              SourceConfig := jobssim.acme [jobssim.repository "app" "ci" ""];
              JenkinsServers := None |} in
  let w : gmap string jobssim.file :=
    list_to_map [(".", jobssim.Directory); ("default.xml", jobssim.Text "<job/>")] in
  (Run (jobssim.start o w)).1 = Panicked "assignment to entry in nil map".
Proof. vm_compute. reflexivity. Qed.

(** A run over two repositories on [ci], from options that hold a
    configuration for [ci] already. *)
Lemma Run_keeps_configurations_witness :
  let old := jobssim.jobConfig "old" "<old/>" in
  let o := {| Dir := "."; ConfigFile := ""; OutDir := "";
              DefaultXmlTemplate := "";
              SourceConfig := {| Groups := [] |};
              JenkinsServers := Some {[ "ci" := [old] ]} |} in
  let s := jobssim.start o jobssim.twoJobs in
  serversOf (opts s) !! "ci" = Some [old]
  ∧ ∃ more, serversOf (opts (Run s).2) !! "ci" = Some ([old] ++ more).
Proof.
  intros old o s.
  assert (Hold : serversOf (opts s) !! "ci" = Some [old]) by (by vm_compute).
  split; [exact Hold|]. exact (Run_keeps_configurations s "ci" [old] Hold).
Defined.

Lemma Run_collects_well_keyed_witness :
  let s := jobssim.start (NewCmdJenkinsJobs "." "" "" "default.xml") jobssim.oneJob in
  wellKeyed (serversOf (opts s)) ∧ wellKeyed (serversOf (opts (Run s).2)).
Proof.
  intros s. assert (Hwell : wellKeyed (serversOf (opts s))) by apply map_Forall_empty.
  split; [exact Hwell|]. exact (Run_collects_well_keyed s Hwell).
Defined.

(** The run over one repository makes [jenkins/ci1] and then writes
    [jenkins/ci1/values.yaml]. *)
Lemma Run_writes_for_servers_witness :
  let s := jobssim.start (NewCmdJenkinsJobs "." "" "" "default.xml") jobssim.oneJob in
  let pre := [EvFileExists ".jx/gitops/source-config.yaml";
              EvFileExists "default.xml";
              EvLoadFile ".jx/gitops/source-config.yaml";
              EvReadFile "default.xml";
              EvMkdirAll "jenkins/ci1";
              EvInfo "creating Jenkins values.yaml file jenkins/ci1/values.yaml"] in
  (∃ data, trace (Run s).2
           = pre ++ EvWriteFile "jenkins/ci1/values.yaml" data :: [])
  ∧ ∃ server,
      is_Some (serversOf (opts (Run s).2) !! server)
      ∧ "jenkins/ci1/values.yaml"
        = filepath.Join [filepath.Join [outDirOf (opts s); server]; "values.yaml"]
      ∧ EvMkdirAll (filepath.Join [outDirOf (opts s); server]) ∈ pre.
Proof.
  intros s pre.
  assert (Htrace : ∃ data, trace (Run s).2
                           = pre ++ EvWriteFile "jenkins/ci1/values.yaml" data :: []).
  { eexists. vm_compute. reflexivity. }
  split; [exact Htrace|]. destruct Htrace as [data Htrace].
  destruct (Run_writes_for_servers s) as (evs & Htr & _ & Hwr).
  change (trace s) with (@nil event) in Htr. rewrite app_nil_l in Htr.
  rewrite Htr in Htrace. exact (Hwr _ _ _ _ Htrace).
Defined.

End jobs_run_props.

(** * Two runs of the renamer *)
Module rename_twice.
Import rename renamesim rename_spec rename_twice_spec.
Import filepath filepath_spec string_facts filepath_facts.

#[local] Existing Instance renamesim.externals.

(** *** Clean paths *)

Lemma Clean_dot : Clean "." = ".".
Proof. by vm_compute. Qed.

Lemma Clean_rendered (path : string) :
  Clean path = "."
  ∨ ∃ rooted out dotdot,
      cleaned rooted (out, dotdot) ∧ render rooted out ≠ ""
      ∧ Clean path = render rooted out.
Proof.
  unfold Clean. case_decide as Hpath; [by left|].
  set (rooted := isRooted path).
  destruct (foldl (cleanStep rooted) ([], 0) (elements path)) as [out dotdot] eqn:Hfold.
  assert (cleaned rooted (out, dotdot)) as Hcl.
  { rewrite <-Hfold. apply foldl_cleaned; [apply cleaned_init|].
    apply elements_noSeparator. }
  cbn [fst]. case_decide as Hs; [by left|].
  right. by exists rooted, out, dotdot.
Qed.

Lemma Clean_render rooted out dotdot :
  cleaned rooted (out, dotdot) → render rooted out ≠ "" →
  Clean (render rooted out) = render rooted out.
Proof.
  intros Hcl Hs. unfold Clean. rewrite decide_False by done.
  destruct out as [|x out].
  { destruct rooted; [by vm_compute|done]. }
  assert (isRooted (render rooted (x :: out)) = rooted) as Hrooted.
  { unfold render. destruct rooted; [done|]. rewrite str_app_nil_l.
    destruct (cleaned_head_not_rooted x out dotdot Hcl) as [Hx Hnr].
    destruct (Join_head x out "/") as [more ->]. by rewrite isRooted_app. }
  rewrite Hrooted, elements_render by
    (by first [done | eapply cleaned_noSeparator]).
  assert (foldl (cleanStep rooted) ([], 0)
            ((if rooted then [""] else []) ++ x :: out) = (x :: out, dotdot)) as ->.
  { rewrite foldl_app.
    assert (foldl (cleanStep rooted) ([], 0) (if rooted then [""] else [])
            = ([], 0)) as -> by (by destruct rooted).
    by apply foldl_cleaned_again. }
  cbn [fst]. by rewrite decide_False.
Qed.

Lemma Clean_idem (path : string) : Clean (Clean path) = Clean path.
Proof.
  destruct (Clean_rendered path) as [->|(rooted & out & dotdot & Hcl & Hs & ->)];
    [apply Clean_dot|]. by eapply Clean_render.
Qed.

Lemma Join_clean (dir file : string) :
  file ≠ "" → Clean (Join [dir; file]) = Join [dir; file].
Proof.
  intros Hfile. rewrite Join_dir_file by done.
  case_decide; apply Clean_idem.
Qed.

Lemma newPathOf_clean path kind name :
  yamlFile path → Clean (newPathOf path kind name) = newPathOf path kind name.
Proof.
  intros Hpath. destruct (rename_props.yaml_suffix_Ext path Hpath) as [Hext _].
  unfold newPathOf. destruct (Split path) as [dir file].
  apply Join_clean. intros [_ Heq]%str_app_eq_nil.
  rewrite Heq in Hext. by destruct Hext.
Qed.

(** *** The in-memory file tree *)

Lemma Lstat_inr (w : gmap string file) p info :
  renamesim.Lstat w p = inr info →
  ∃ f, w !! Clean p = Some f ∧ (IsDir info = true ↔ f = Directory).
Proof.
  unfold renamesim.Lstat. destruct (w !! Clean p) as [[]|]; intros; simplify_eq;
    eexists; (split; [done|]); by split.
Qed.

Lemma Lstat_inl (w : gmap string file) p err :
  renamesim.Lstat w p = inl err → w !! Clean p = None.
Proof.
  unfold renamesim.Lstat. by destruct (w !! Clean p) as [[]|].
Qed.

Lemma readDirNames_inr (w : gmap string file) d :
  w !! Clean d = Some Directory →
  ∃ names,
    renamesim.readDirNames w d = inr names
    ∧ ∀ n, n ∈ names ↔ ∃ k, is_Some (w !! k) ∧ childOf d k ∧ n = (Split k).2.
Proof.
  intros Hd. unfold renamesim.readDirNames. rewrite Hd. eexists. split; [done|].
  intros n. rewrite merge_sort_Permutation, list_elem_of_omap. split.
  - intros (k & [[k' f] [-> Hin]]%list_elem_of_fmap & Hk).
    apply elem_of_map_to_list in Hin. cbn [fst] in Hk.
    case_decide as Hchild; [|done]. simplify_eq.
    exists k'. split; [by eexists|]. by split.
  - intros (k & [f Hk] & Hchild & ->). exists k. split.
    + apply list_elem_of_fmap. exists (k, f). split; [done|].
      by apply elem_of_map_to_list.
    + by rewrite decide_True.
Qed.

Lemma Rename_None (w : gmap string file) old new w1 :
  renamesim.Rename w old new = (None, w1) →
  ∃ f, w !! Clean old = Some f
       ∧ w !! Clean new ≠ Some Directory
       ∧ w1 = <[Clean new := f]> (delete (Clean old) w).
Proof.
  unfold renamesim.Rename. destruct (w !! Clean old) as [f|]; [|done].
  destruct (w !! Clean (Split (Clean new)).1) as [[]|];
    destruct (w !! Clean new) as [[]|]; intros; simplify_eq; eauto.
Qed.

(** *** One step of the first run *)

Lemma lowers_refl G : lowers G G.
Proof. intros d f Hd. eauto. Qed.

Lemma lowers_trans G1 G2 G3 : lowers G1 G2 → lowers G2 G3 → lowers G1 G3.
Proof.
  intros H12 H23 d f Hd. destruct (H12 d f Hd) as (f2 & Hd2 & ?).
  destruct (H23 d f2 Hd2) as (f3 & Hd3 & ?). exists f3. split; [done|lia].
Qed.

Lemma handled_mono w0 F F' G G' fuel p :
  F ⊆ F' → lowers G G' → handled w0 F G fuel p → handled w0 F' G' fuel p.
Proof.
  intros HF HG [(f & Hp & Hf)|[Hp|[Hp|Hp]]].
  - left. destruct (HG p f Hp) as (f' & ? & ?). exists f'. split; [done|lia].
  - right. left. by apply HF.
  - right. right. by left.
  - right. right. by right.
Qed.

Lemma walked_start w : plainNames w → walked w w ∅ ∅.
Proof.
  intros Hplain. split; done.
Qed.

(** A file was parsed and stays where it is. *)
Lemma walked_parse w0 w F G p kind name :
  walked w0 w F G →
  w !! p = Some (Manifest kind name) →
  (name ≠ "" → newPathOf p kind name = p) →
  walked w0 w ({[p]} ∪ F) G.
Proof.
  intros Hw Hp Hfix. split.
  - intros k [->%elem_of_singleton|Hk]%elem_of_union;
      [|by apply (walked_settled _ _ _ _ Hw)].
    intros kind' name' Hk _ Hname. simplify_eq. by apply Hfix.
  - intros k [->%elem_of_singleton|Hk]%elem_of_union;
      [by rewrite Hp|by apply (walked_parsed _ _ _ _ Hw)].
  - intros k [->%elem_of_singleton|Hk]%elem_of_union;
      [by rewrite Hp|by apply (walked_file _ _ _ _ Hw)].
  - intros k [_ Hk]%not_elem_of_union. by apply (walked_untouched _ _ _ _ Hw).
  - apply (walked_dirs _ _ _ _ Hw).
  - apply (walked_plain _ _ _ _ Hw).
  - apply (walked_dir _ _ _ _ Hw).
  - intros d f k Hd Hchild Hk.
    destruct (walked_listed _ _ _ _ Hw d f k Hd Hchild Hk) as [Hdir Hfile].
    split; [done|]. intros ? ?. apply elem_of_union. right. auto.
Qed.

(** A file was parsed and renamed. *)
Lemma walked_rename w0 w F G p kind name :
  walked w0 w F G →
  w !! p = Some (Manifest kind name) →
  yamlFile p → name ≠ "" →
  newPathOf p kind name ≠ p →
  w !! newPathOf p kind name ≠ Some Directory →
  walked w0 (<[newPathOf p kind name := Manifest kind name]> (delete p w))
         ({[p; newPathOf p kind name]} ∪ F) G.
Proof.
  intros Hw Hp Hyaml Hname Hne Hnodir.
  set (new := newPathOf p kind name) in *.
  assert (newPathOf new kind name = new) as Hfixed.
  { apply rename_props.newPathOf_fixed; [done|].
    by apply (walked_plain _ _ _ _ Hw p). }
  assert (∀ k, k ≠ new → k ≠ p →
               <[new := Manifest kind name]> (delete p w) !! k = w !! k) as Hother.
  { intros k ? ?. by rewrite lookup_insert_ne, lookup_delete_ne. }
  assert (<[new := Manifest kind name]> (delete p w) !! p = None) as Hgone
    by (by rewrite lookup_insert_ne, lookup_delete_eq).
  assert (<[new := Manifest kind name]> (delete p w) !! new
          = Some (Manifest kind name)) as Hnew by apply lookup_insert_eq.
  assert (∀ k, k ∈ ({[p; new]} ∪ F : gset string) →
               k = p ∨ k = new ∨ (k ≠ p ∧ k ≠ new ∧ k ∈ F)) as Hcases.
  { intros k Hk. destruct (decide (k = p)); [by left|].
    destruct (decide (k = new)); [by right; left|]. right. right.
    apply elem_of_union in Hk as [Hk|Hk]; [|done].
    by apply elem_of_union in Hk as [?%elem_of_singleton|?%elem_of_singleton]. }
  assert (∀ k, k ∉ ({[p; new]} ∪ F : gset string) →
               k ≠ p ∧ k ≠ new ∧ k ∉ F) as Hnot.
  { intros k [[?%not_elem_of_singleton ?%not_elem_of_singleton]%not_elem_of_union
                ?]%not_elem_of_union. done. }
  assert (new ∈ ({[p; new]} ∪ F : gset string)) as Hin.
  { apply elem_of_union. left. apply elem_of_union. right.
    by apply elem_of_singleton. }
  split.
  - intros k [->|[->|(? & ? & Hk)]]%Hcases kind' name' Hk' ? ?.
    + by rewrite Hgone in Hk'.
    + rewrite Hnew in Hk'. by simplify_eq.
    + rewrite Hother in Hk' by done. by eapply (walked_settled _ _ _ _ Hw).
  - intros k [->|[->|(? & ? & Hk)]]%Hcases.
    + by rewrite Hgone.
    + by rewrite Hnew.
    + rewrite Hother by done. by apply (walked_parsed _ _ _ _ Hw).
  - intros k [->|[->|(? & ? & Hk)]]%Hcases.
    + by rewrite Hgone.
    + by rewrite Hnew.
    + rewrite Hother by done. by apply (walked_file _ _ _ _ Hw).
  - intros k (? & ? & Hk)%Hnot. rewrite Hother by done.
    by apply (walked_untouched _ _ _ _ Hw).
  - intros k. rewrite <-(walked_dirs _ _ _ _ Hw).
    destruct (decide (k = new)) as [->|?]; [by rewrite Hnew|].
    destruct (decide (k = p)) as [->|?]; [by rewrite Hgone, Hp|].
    by rewrite Hother.
  - intros k kind' name' Hk.
    destruct (decide (k = new)) as [->|?].
    { rewrite Hnew in Hk. simplify_eq. by apply (walked_plain _ _ _ _ Hw p). }
    destruct (decide (k = p)) as [->|?]; [by rewrite Hgone in Hk|].
    rewrite Hother in Hk by done. by apply (walked_plain _ _ _ _ Hw k).
  - intros d f Hd. destruct (walked_dir _ _ _ _ Hw d f Hd) as [Hf Hdir].
    split; [done|].
    destruct (decide (Clean d = new)) as [Heq|?]; [by rewrite Heq in Hdir|].
    destruct (decide (Clean d = p)) as [Heq|?]; [by rewrite Heq, Hp in Hdir|].
    by rewrite Hother.
  - intros d f k Hd Hchild Hk.
    destruct (decide (k = new)) as [->|?].
    { rewrite Hnew. by split. }
    destruct (decide (k = p)) as [->|?]; [by rewrite Hgone in Hk; destruct Hk|].
    rewrite Hother in Hk |- * by done.
    destruct (walked_listed _ _ _ _ Hw d f k Hd Hchild Hk) as [Hdir Hfile].
    split; [done|]. intros ? ?. apply elem_of_union. right. auto.
Qed.

(** A directory was gone through, with the fuel [f]. *)
Lemma walked_dir_done w0 w F G d f :
  walked w0 w F G →
  0 < f → w !! Clean d = Some Directory →
  (∀ k, childOf d k → is_Some (w !! k) →
        (w !! k = Some Directory → ∃ f', G !! k = Some f' ∧ f' < f)
        ∧ (w !! k ≠ Some Directory → yamlFile k → k ∈ F)) →
  (∀ f_old, G !! d = Some f_old → f < f_old) →
  walked w0 w F (<[d := f]> G) ∧ lowers G (<[d := f]> G).
Proof.
  intros Hw Hf Hd Hchildren Hold. split; [split|].
  - apply (walked_settled _ _ _ _ Hw).
  - apply (walked_parsed _ _ _ _ Hw).
  - apply (walked_file _ _ _ _ Hw).
  - apply (walked_untouched _ _ _ _ Hw).
  - apply (walked_dirs _ _ _ _ Hw).
  - apply (walked_plain _ _ _ _ Hw).
  - intros d' f' Hd'. destruct (decide (d' = d)) as [->|Hne].
    + rewrite lookup_insert_eq in Hd'. by simplify_eq.
    + rewrite lookup_insert_ne in Hd' by done.
      apply (walked_dir _ _ _ _ Hw d' f' Hd').
  - intros d' f' k Hd' Hchild Hk.
    assert (k ≠ d → ∀ fk, G !! k = Some fk → <[d := f]> G !! k = Some fk) as Hkeep
      by (by intros ? fk ?; rewrite lookup_insert_ne).
    destruct (decide (d' = d)) as [->|Hne].
    + rewrite lookup_insert_eq in Hd'. simplify_eq.
      destruct (Hchildren k Hchild Hk) as [Hdir Hfile]. split; [|done].
      intros (fk & Hfk & ?)%Hdir. exists fk. split; [|done].
      apply Hkeep; [|done]. intros Heq. destruct Hchild as (Hne & Hn & Hjoin).
      pose proof (Join_clean d _ Hn) as Hc. rewrite Hjoin in Hc.
      apply Hne. by rewrite <-Heq.
    + rewrite lookup_insert_ne in Hd' by done.
      destruct (walked_listed _ _ _ _ Hw d' f' k Hd' Hchild Hk) as [Hdir Hfile].
      split; [|done]. intros (fk & Hfk & ?)%Hdir.
      destruct (decide (k = d)) as [->|?].
      * exists f. rewrite lookup_insert_eq. split; [done|].
        specialize (Hold fk Hfk). lia.
      * exists fk. split; [by apply Hkeep|done].
  - intros d' f' Hd'. destruct (decide (d' = d)) as [->|Hne].
    + exists f. rewrite lookup_insert_eq. split; [done|].
      specialize (Hold f' Hd'). lia.
    + exists f'. by rewrite lookup_insert_ne.
Qed.

(** *** The visit of a file *)

Lemma walkFn_nil p err s : walkFn p None err s = (Done tt, s).
Proof. done. Qed.

Lemma walkFn_skip p info err s :
  IsDir info = true ∨ ¬ yamlFile p → walkFn p (Some info) err s = (Done tt, s).
Proof.
  intros Hskip. unfold walkFn. destruct (IsDir info); [done|].
  destruct Hskip as [?|Hno]; [done|]. unfold yamlFile in Hno.
  destruct (gostrings.HasSuffix p ".yaml"), (gostrings.HasSuffix p ".yml");
    try done; destruct Hno; auto.
Qed.

Lemma walkFn_file p info err s :
  IsDir info = false → yamlFile p →
  walkFn p (Some info) err s =
    match renamesim.ReadFile (tree s) p with
    | inl e =>
        (Failed (Wrap e ("failed to load file " +:+ p)),
         record s [EvReadFile p (Some e)])
    | inr (kind, name) =>
        if decide (name = "") then
          (Done tt,
           record s [EvReadFile p None;
                     EvWarn ("no name for file " +:+ p +:+ " so ignoring")])
        else if decide (newPathOf p kind name = p) then
          (Done tt, record s [EvReadFile p None])
        else
          let '(e, w) := renamesim.Rename (tree s) p (newPathOf p kind name) in
          (match e with
           | Some e => Failed (Wrap e ("failed to rename " +:+ (Split p).2
                                       +:+ " to " +:+ canonicalName kind name
                                       +:+ Ext p))
           | None => Done tt
           end,
           {| world := w;
              trace := trace s ++ [EvReadFile p None;
                                   EvInfo ("renaming " +:+ (Split p).2 +:+ " => "
                                           +:+ canonicalName kind name +:+ Ext p);
                                   EvRename p (newPathOf p kind name) e] |})
    end.
Proof.
  intros Hdir Hyaml.
  destruct (renamesim.ReadFile (tree s) p) as [e|[kind name]] eqn:Hread.
  - unfold walkFn. rewrite Hdir, rename_props.yaml_filter by done.
    unfold mbind, M_bind, bind, wrapf, yamlReadFile.
    change (rename.ReadFile (world s) p) with (renamesim.ReadFile (tree s) p).
    by rewrite Hread.
  - case_decide as Hname.
    + unfold walkFn. rewrite Hdir, rename_props.yaml_filter by done.
      unfold mbind, M_bind, bind, wrapf, yamlReadFile.
      change (rename.ReadFile (world s) p) with (renamesim.ReadFile (tree s) p).
      rewrite Hread. cbn [GetName externals snd].
      rewrite decide_True by done. unfold emit, record. cbn [world trace].
      by rewrite <-app_assoc.
    + by rewrite (rename_props.walkFn_named p info err s (kind, name)).
Qed.

Lemma ReadFile_at (w : gmap string file) p :
  Clean p = p →
  renamesim.ReadFile w p =
    match w !! p with
    | Some (Manifest kind name) => inr (kind, name)
    | Some Unparsable => inl (New "yaml: did not find expected node content")
    | Some Directory => inl (New ("read " +:+ p +:+ ": is a directory"))
    | None => inl (noEntry "open" p)
    end.
Proof. intros Hp. unfold renamesim.ReadFile. by rewrite Hp. Qed.

(** The visit of a file in the first run. *)
Lemma walkFn_first w0 p info err s F G f :
  walked w0 (tree s) F G →
  tree s !! p = Some f → f ≠ Directory → IsDir info = false → Clean p = p →
  (walkFn p (Some info) err s).1 = Done tt →
  ∃ F', F ⊆ F'
        ∧ walked w0 (tree (walkFn p (Some info) err s).2) F' G
        ∧ (p ∈ F' ∨ (¬ yamlFile p ∧ w0 !! p ≠ Some Directory)).
Proof.
  intros Hw Hp Hf Hdir Hclean.
  destruct (decide (yamlFile p)) as [Hyaml|Hno].
  2:{ rewrite walkFn_skip by auto. intros _. exists F. split; [done|].
      split; [done|]. right. split; [done|].
      intros Hd%(walked_dirs _ _ _ _ Hw). rewrite Hp in Hd. by simplify_eq. }
  rewrite walkFn_file, ReadFile_at, Hp by done.
  destruct f as [|kind name|]; [done| |done].
  assert (p ∈ ({[p]} ∪ F : gset string)) as Hin
    by (apply elem_of_union; left; by apply elem_of_singleton).
  case_decide as Hname.
  { intros _. exists ({[p]} ∪ F). split; [apply union_subseteq_r|].
    split; [|by left]. by eapply walked_parse. }
  case_decide as Hnew.
  { intros _. exists ({[p]} ∪ F). split; [apply union_subseteq_r|].
    split; [|by left]. by eapply walked_parse. }
  destruct (renamesim.Rename _ _ _) as [[e|] w1] eqn:Hren; [done|].
  intros _. apply Rename_None in Hren as (f' & Hp' & Hnodir & ->).
  rewrite Hclean, newPathOf_clean in * by done. rewrite Hp in Hp'. simplify_eq.
  exists ({[p; newPathOf p kind name]} ∪ F).
  split; [apply union_subseteq_r|]. split; [by apply walked_rename|].
  left. apply elem_of_union. left. apply elem_of_union. left.
  by apply elem_of_singleton.
Qed.

(** *** The first run *)

Lemma forRange_cons_eq {S A} (x : A) (l : list A) (body : A → M S unit) s :
  forRange (x :: l) body s =
    match body x s with
    | (Done _, s1) => forRange l body s1
    | (Failed e, s1) => (Failed e, s1)
    | (Panicked msg, s1) => (Panicked msg, s1)
    | (OutOfFuel, s1) => (OutOfFuel, s1)
    end.
Proof. done. Qed.

(** The body of the loop of [walk] over the names of [d]. *)
Lemma child_first w0 fuel d n s F G :
  (∀ p info s F G,
     walked w0 (tree s) F G →
     renamesim.Lstat (tree s) p = inr info →
     (IsDir info = false → Clean p = p) →
     (walk fuel p info walkFn s).1 = Done tt →
     ∃ F' G', F ⊆ F' ∧ lowers G G'
              ∧ walked w0 (tree (walk fuel p info walkFn s).2) F' G'
              ∧ handled w0 F' G' fuel p) →
  walked w0 (tree s) F G → n ≠ "" →
  let body := (r ← lstat (Join [d; n]);
               match r with
               | inl err => walkFn (Join [d; n]) None (Some err)
               | inr fileInfo => walk fuel (Join [d; n]) fileInfo walkFn
               end) in
  (body s).1 = Done tt →
  ∃ F' G', F ⊆ F' ∧ lowers G G'
           ∧ walked w0 (tree (body s).2) F' G'
           ∧ handled w0 F' G' fuel (Join [d; n]).
Proof.
  intros IH Hw Hn. cbv zeta. unfold mbind, M_bind, bind, lstat. cbn [fst snd].
  change (rename.Lstat (world s) (Join [d; n]))
    with (renamesim.Lstat (tree s) (Join [d; n])).
  set (s1 := {| world := world s; trace := trace s ++ [EvLstat (Join [d; n])] |}).
  destruct (renamesim.Lstat (tree s) (Join [d; n])) as [err|info] eqn:Hlstat.
  - intros _. rewrite walkFn_nil. exists F, G.
    split; [done|]. split; [apply lowers_refl|]. split; [done|].
    apply Lstat_inl in Hlstat.
    destruct (decide (Clean (Join [d; n]) ∈ F)) as [?|Hnot]; [by right; left|].
    right. right. right.
    by rewrite <-(walked_untouched _ _ _ _ Hw _ Hnot).
  - apply (IH _ info s1 F G); [exact Hw|exact Hlstat|].
    intros _. by apply Join_clean.
Qed.

Lemma children_first w0 fuel d names s F G :
  (∀ p info s F G,
     walked w0 (tree s) F G →
     renamesim.Lstat (tree s) p = inr info →
     (IsDir info = false → Clean p = p) →
     (walk fuel p info walkFn s).1 = Done tt →
     ∃ F' G', F ⊆ F' ∧ lowers G G'
              ∧ walked w0 (tree (walk fuel p info walkFn s).2) F' G'
              ∧ handled w0 F' G' fuel p) →
  walked w0 (tree s) F G → Forall (λ n, n ≠ "") names →
  let body := (λ name,
               r ← lstat (Join [d; name]);
               match r with
               | inl err => walkFn (Join [d; name]) None (Some err)
               | inr fileInfo => walk fuel (Join [d; name]) fileInfo walkFn
               end) in
  (forRange names body s).1 = Done tt →
  ∃ F' G', F ⊆ F' ∧ lowers G G'
           ∧ walked w0 (tree (forRange names body s).2) F' G'
           ∧ ∀ n, n ∈ names → handled w0 F' G' fuel (Join [d; n]).
Proof.
  intros IH Hw0 Hnames0 body. revert s F G Hw0 Hnames0.
  induction names as [|n names IHnames]; intros s F G Hw Hnames.
  { intros _. exists F, G. split; [done|]. split; [apply lowers_refl|].
    split; [done|]. by intros n ?%elem_of_nil. }
  apply Forall_cons in Hnames as [Hn Hnames]. rewrite forRange_cons_eq.
  pose proof (child_first w0 fuel d n s F G IH Hw Hn) as Hchild.
  change ((body n s).1 = Done tt →
          ∃ F' G', F ⊆ F' ∧ lowers G G'
                   ∧ walked w0 (tree (body n s).2) F' G'
                   ∧ handled w0 F' G' fuel (Join [d; n])) in Hchild.
  destruct (body n s) as [[[]| e | msg |] s1]; cbn [fst snd] in *; [|done..].
  intros Hdone. destruct (Hchild eq_refl) as (F1 & G1 & HF1 & HG1 & Hw1 & Hh1).
  destruct (IHnames s1 F1 G1 Hw1 Hnames Hdone) as (F2 & G2 & HF2 & HG2 & Hw2 & Hh2).
  exists F2, G2. split; [by etrans|]. split; [by eapply lowers_trans|].
  split; [done|]. intros n' [->|Hin]%elem_of_cons; [|by apply Hh2].
  by eapply handled_mono.
Qed.

(** What a directory lists after its loop: everything that is there. *)
Lemma listed_first w0 fuel d (names : list string) wa Fa Ga w F G :
  walked w0 wa Fa Ga → walked w0 w F G → Fa ⊆ F →
  (∀ n, n ∈ names ↔ ∃ k, is_Some (wa !! k) ∧ childOf d k ∧ n = (Split k).2) →
  (∀ n, n ∈ names → handled w0 F G fuel (Join [d; n])) →
  ∀ k, childOf d k → is_Some (w !! k) →
       (w !! k = Some Directory → ∃ f', G !! k = Some f' ∧ f' < S fuel)
       ∧ (w !! k ≠ Some Directory → yamlFile k → k ∈ F).
Proof.
  intros Hwa Hw HF Hnames Hhandled k Hchild Hk.
  pose proof Hchild as (Hne & Hn & Hjoin).
  pose proof (Join_clean d _ Hn) as Hclean. rewrite Hjoin in Hclean.
  assert (k ∈ F →
          (w !! k = Some Directory → ∃ f', G !! k = Some f' ∧ f' < S fuel)
          ∧ (w !! k ≠ Some Directory → yamlFile k → k ∈ F)) as HinF.
  { intros Hin. split; [|done]. intros Hdir.
    by destruct (walked_file _ _ _ _ Hw k Hin). }
  destruct (decide (k ∈ F)) as [Hin|Hnot]; [by apply HinF|].
  pose proof (walked_untouched _ _ _ _ Hw k Hnot) as Hsame.
  assert (wa !! k = w0 !! k) as Hsame_a.
  { apply (walked_untouched _ _ _ _ Hwa). intros ?. by apply Hnot, HF. }
  assert ((Split k).2 ∈ names) as Hlisted.
  { apply Hnames. exists k. split; [|done]. by rewrite Hsame_a, <-Hsame. }
  specialize (Hhandled _ Hlisted). rewrite Hjoin in Hhandled.
  destruct Hhandled as [(f & Hf & ?)|[Hin|[[Hno Hnodir]|Hgone]]].
  - split.
    + intros _. exists f. split; [done|lia].
    + intros Hnodir. destruct (walked_dir _ _ _ _ Hw k f Hf) as [_ Hdir].
      by rewrite Hclean in Hdir.
  - rewrite Hclean in Hin. by apply HinF.
  - rewrite Hclean in Hnodir. split; [|done].
    by intros Hdir%(walked_dirs _ _ _ _ Hw).
  - rewrite Hclean, <-Hsame in Hgone. rewrite Hgone in Hk. by destruct Hk.
Qed.

(** The walk of a directory: the loop over its names. *)
Lemma walk_dir fuel p info s names :
  IsDir info = true →
  renamesim.readDirNames (tree s) p = inr names →
  walk (S fuel) p info walkFn s =
    forRange names
      (λ name : string,
         r ← lstat (Join [p; name]);
         match r with
         | inl err => walkFn (Join [p; name]) None (Some err)
         | inr fileInfo => walk fuel (Join [p; name]) fileInfo walkFn
         end)
      {| world := world s; trace := trace s ++ [EvReadDir p] |}.
Proof.
  intros Hinfo Hread. cbn [walk]. rewrite Hinfo. cbn [negb].
  unfold mbind at 1, M_bind at 1, bind at 1. unfold readDir at 1.
  change (rename.readDirNames (world s) p)
    with (renamesim.readDirNames (tree s) p).
  rewrite Hread. unfold mbind at 1, M_bind at 1, bind at 1.
  by rewrite walkFn_skip by auto.
Qed.

(** The walk of the first run: what it leaves when it returns normally. *)
Lemma walk_first w0 fuel p info s F G :
  walked w0 (tree s) F G →
  renamesim.Lstat (tree s) p = inr info →
  (IsDir info = false → Clean p = p) →
  (walk fuel p info walkFn s).1 = Done tt →
  ∃ F' G', F ⊆ F' ∧ lowers G G'
           ∧ walked w0 (tree (walk fuel p info walkFn s).2) F' G'
           ∧ handled w0 F' G' fuel p.
Proof.
  revert p info s F G. induction fuel as [|fuel IH]; intros p info s F G Hw Hlstat Hclean;
    [done|].
  apply Lstat_inr in Hlstat as (f & Hp & Hdir).
  destruct (IsDir info) eqn:Hinfo.
  2:{ cbn [walk]. rewrite Hinfo. cbn [negb].
      intros Hdone. specialize (Hclean eq_refl). rewrite Hclean in Hp.
      destruct (walkFn_first w0 p info None s F G f Hw Hp) as (F' & HF & Hw' & Hh);
        [by intros ?%Hdir|done..|].
      exists F', G. split; [done|]. split; [apply lowers_refl|]. split; [done|].
      unfold handled. rewrite Hclean.
      destruct Hh as [?|?]; [by right; left|by right; right; left]. }
  assert (f = Directory) as -> by (by apply Hdir).
  destruct (readDirNames_inr (tree s) p Hp) as (names & Hread & Hnames).
  set (s1 := {| world := world s; trace := trace s ++ [EvReadDir p] |}).
  set (body := λ name : string,
         r ← lstat (Join [p; name]);
         match r with
         | inl err => walkFn (Join [p; name]) None (Some err)
         | inr fileInfo => walk fuel (Join [p; name]) fileInfo walkFn
         end).
  assert (walk (S fuel) p info walkFn s = forRange names body s1) as ->
    by (by apply walk_dir).
  intros Hdone.
  destruct (children_first w0 fuel p names s1 F G IH Hw) as
    (F1 & G1 & HF1 & HG1 & Hw1 & Hh1); [|exact Hdone|].
  { apply Forall_forall. intros n (k & _ & (_ & Hn & _) & ->)%Hnames. done. }
  set (s2 := (forRange names body s1).2) in *.
  assert (tree s2 !! Clean p = Some Directory) as Hp2.
  { apply (walked_dirs _ _ _ _ Hw1), (walked_dirs _ _ _ _ Hw). exact Hp. }
  pose proof (listed_first w0 fuel p names (tree s) F G (tree s2) F1 G1
                Hw Hw1 HF1 Hnames Hh1) as Hlisted.
  destruct (G1 !! p) as [f_old|] eqn:Hold.
  - destruct (decide (f_old ≤ S fuel)) as [Hle|Hgt].
    + exists F1, G1. split; [done|]. split; [done|]. split; [exact Hw1|].
      left. by exists f_old.
    + destruct (walked_dir_done w0 (tree s2) F1 G1 p (S fuel) Hw1) as [Hw2 HG2];
        [lia|done|done|intros ? ?; simplify_eq; lia|].
      exists F1, (<[p := S fuel]> G1). split; [done|].
      split; [by eapply lowers_trans|]. split; [exact Hw2|].
      left. exists (S fuel). by rewrite lookup_insert_eq.
  - destruct (walked_dir_done w0 (tree s2) F1 G1 p (S fuel) Hw1) as [Hw2 HG2];
      [lia|done|done|intros ? ?; simplify_eq|].
    exists F1, (<[p := S fuel]> G1). split; [done|].
    split; [by eapply lowers_trans|]. split; [exact Hw2|].
    left. exists (S fuel). by rewrite lookup_insert_eq.
Qed.

(** *** The second run *)

Lemma calm_enough w (enough enough' : Prop) m :
  (enough' → enough) → calm w enough m → calm w enough' m.
Proof.
  intros Himpl Hm s Hs. destruct (Hm s Hs) as (? & ? & ? & ?).
  repeat split; auto.
Qed.

Lemma calm_forRange {A} w enough (l : list A) (body : A → M state unit) :
  (∀ x, x ∈ l → calm w enough (body x)) → calm w enough (forRange l body).
Proof.
  induction l as [|x l IH]; intros Hbody s Hs.
  { split; [done|]. split; [|by auto]. exists []. by rewrite app_nil_r. }
  rewrite forRange_cons_eq.
  destruct (Hbody x (list_elem_of_here x l) s Hs)
    as (Hs1 & (evs1 & Htr1 & Hevs1) & Hr1 & Hdone1).
  destruct (body x s) as [[[]| e | msg |] s1]; cbn [fst snd] in *.
  - destruct (IH (λ y Hy, Hbody y (list_elem_of_further y x l Hy)) s1 Hs1)
      as (Hs2 & (evs2 & Htr2 & Hevs2) & Hr2 & Hdone2).
    split; [done|]. split; [|done]. exists (evs1 ++ evs2).
    split; [by rewrite Htr2, Htr1, app_assoc|by apply Forall_app].
  - by destruct Hr1.
  - by destruct Hr1.
  - split; [done|]. split; [by exists evs1|]. split; [by right|done].
Qed.

(** The visit of a file of a settled tree. *)
Lemma walkFn_second w0 w F G p info err f :
  walked w0 w F G →
  w !! p = Some f → f ≠ Directory → IsDir info = false → Clean p = p →
  (yamlFile p → p ∈ F) →
  calm w True (walkFn p (Some info) err).
Proof.
  intros Hw Hp Hf Hdir Hclean HF s Hs.
  destruct (decide (yamlFile p)) as [Hyaml|Hno].
  2:{ rewrite walkFn_skip by auto. split; [done|]. split; [|by auto].
      exists []. by rewrite app_nil_r. }
  specialize (HF Hyaml).
  rewrite walkFn_file, ReadFile_at, Hs, Hp by done.
  destruct f as [|kind name|];
    [done| |by destruct (walked_parsed _ _ _ _ Hw p HF)].
  case_decide as Hname.
  { split; [done|]. split; [|by auto]. eexists. split; [done|].
    repeat constructor. cbn [still]. rewrite Hclean, Hp.
    intros kind' name' ? ?. by simplify_eq. }
  rewrite decide_True by by apply (walked_settled _ _ _ _ Hw p HF).
  split; [done|]. split; [|by auto]. eexists. split; [done|].
  repeat constructor. cbn [still]. rewrite Hclean, Hp.
  intros kind' name' ? ?. simplify_eq.
  by apply (walked_settled _ _ _ _ Hw p HF).
Qed.

(** The walk of the second run. *)
Lemma walk_second w0 w F G fuel p info :
  walked w0 w F G →
  renamesim.Lstat w p = inr info →
  (IsDir info = false → Clean p = p ∧ (yamlFile p → p ∈ F)) →
  (IsDir info = true → is_Some (G !! p)) →
  calm w ((IsDir info = false → 0 < fuel) ∧ (∀ f, G !! p = Some f → f < fuel))
       (walk fuel p info walkFn).
Proof.
  intros Hw. revert p info. induction fuel as [|fuel IH];
    intros p info Hlstat Hfile Hdir.
  { intros s Hs. cbn [walk fst snd]. split; [done|].
    split; [exists []; by rewrite app_nil_r|]. split; [by right|].
    intros [Hpos Hlevel]. destruct (IsDir info) eqn:Hinfo.
    - destruct (Hdir eq_refl) as [f Hf]. specialize (Hlevel f Hf). lia.
    - specialize (Hpos eq_refl). lia. }
  apply Lstat_inr in Hlstat as (f & Hp & Hisdir).
  destruct (IsDir info) eqn:Hinfo.
  2:{ destruct (Hfile eq_refl) as [Hclean HF]. rewrite Hclean in Hp.
      assert (calm w True (walkFn p (Some info) None)) as Hvisit.
      { apply (walkFn_second w0 w F G p info None f); try done.
        by intros ?%Hisdir. }
      intros s Hs. cbn [walk]. rewrite Hinfo. cbn [negb].
      destruct (Hvisit s Hs) as (? & ? & ? & ?). repeat split; auto. }
  destruct (Hdir eq_refl) as [level Hlevel].
  destruct (walked_dir _ _ _ _ Hw p level Hlevel) as [Hpos Hpdir].
  destruct (readDirNames_inr w p Hpdir) as (names & Hread & Hnames).
  intros s Hs. rewrite (walk_dir fuel p info s names) by (by rewrite ?Hs).
  set (s1 := {| world := world s; trace := trace s ++ [EvReadDir p] |}).
  set (enough := (false = false → 0 < S fuel) ∧ (∀ f, G !! p = Some f → f < S fuel)).
  assert (calm w enough
            (forRange names (λ name : string,
               r ← lstat (Join [p; name]);
               match r with
               | inl err => walkFn (Join [p; name]) None (Some err)
               | inr fileInfo => walk fuel (Join [p; name]) fileInfo walkFn
               end))) as Hloop.
  { apply calm_forRange. intros n (k & [fk Hk] & Hchild & ->)%Hnames.
    pose proof Hchild as (Hne & Hn & Hjoin). rewrite Hjoin.
    pose proof (Join_clean p _ Hn) as Hclean. rewrite Hjoin in Hclean.
    destruct (walked_listed _ _ _ _ Hw p level k Hlevel Hchild (mk_is_Some _ _ Hk))
      as [Hkdir Hkfile].
    intros s' Hs'. unfold mbind, M_bind, bind, lstat. cbn [fst snd].
    change (rename.Lstat (world s') k) with (renamesim.Lstat (tree s') k).
    set (s'' := {| world := world s'; trace := trace s' ++ [EvLstat k] |}).
    destruct (renamesim.Lstat (tree s') k) as [err|info'] eqn:Hlstat.
    { apply Lstat_inl in Hlstat. rewrite Hclean, Hs', Hk in Hlstat. done. }
    rewrite Hs' in Hlstat.
    pose proof Hlstat as (fk' & Hk' & Hisdir')%Lstat_inr.
    rewrite Hclean, Hk in Hk'. assert (fk' = fk) as -> by congruence. clear Hk'.
    assert (calm w ((IsDir info' = false → 0 < fuel)
                    ∧ (∀ f, G !! k = Some f → f < fuel))
                 (walk fuel k info' walkFn)) as Hcalm.
    { apply IH; [exact Hlstat| |].
      - intros Hinfo'. split; [done|]. apply Hkfile.
        rewrite Hk. intros [= Hfk]. apply Hisdir' in Hfk. congruence.
      - intros Hinfo'%Hisdir'. subst fk.
        destruct (Hkdir Hk) as (f' & Hf' & _). by exists f'. }
    destruct (Hcalm s'' Hs') as (Hs2 & (evs & Htr & Hevs) & Hr & Hdone).
    { split; [done|]. split; [|split; [done|]].
      + exists (EvLstat k :: evs). rewrite Htr. cbn [s'' trace].
        rewrite <-app_assoc. split; [done|]. by constructor.
      + intros [_ Hfuel]. specialize (Hfuel level Hlevel). apply Hdone. split.
        * intros _. lia.
        * intros f' Hf'. destruct (IsDir info') eqn:Hinfo'.
          -- assert (fk = Directory) as -> by (by apply Hisdir').
             destruct (Hkdir Hk) as (f'' & Hf'' & ?).
             assert (f' = f'') as -> by congruence. lia.
          -- destruct (walked_dir _ _ _ _ Hw k f' Hf') as [_ Hkd].
             rewrite Hclean, Hk in Hkd. assert (fk = Directory) as Hfk by congruence.
             by apply Hisdir' in Hfk. } }
  destruct (Hloop s1 Hs) as (Hs2 & (evs & Htr & Hevs) & Hr & Hdone).
  split; [done|]. split; [|split; [done|]].
  - exists (EvReadDir p :: evs). rewrite Htr. cbn [s1 trace].
    rewrite <-app_assoc. split; [done|]. by constructor.
  - intros [_ Hfuel]. apply Hdone. split; [lia|done].
Qed.

(** *** The two runs *)

Lemma Walk_first w fuel dir :
  plainNames w →
  Clean dir = dir ∨ w !! Clean dir = Some Directory →
  (Walk fuel dir walkFn (start w)).1 = Done tt →
  ∃ F G, walked w (tree (Walk fuel dir walkFn (start w)).2) F G
         ∧ handled w F G fuel dir.
Proof.
  intros Hplain Hroot. unfold Walk, mbind, M_bind, bind, lstat. cbn [fst snd].
  change (rename.Lstat (world (start w)) dir) with (renamesim.Lstat w dir).
  set (s1 := {| world := world (start w);
                trace := trace (start w) ++ [EvLstat dir] |}).
  pose proof (walked_start w Hplain) as Hw.
  destruct (renamesim.Lstat w dir) as [err|info] eqn:Hlstat.
  - intros _. exists ∅, ∅. split; [exact Hw|].
    right. right. right. by apply Lstat_inl in Hlstat.
  - intros Hdone.
    destruct (walk_first w fuel dir info s1 ∅ ∅ Hw Hlstat) as (F & G & _ & _ & ? & ?);
      [|done|by exists F, G].
    intros Hinfo. destruct Hroot as [?|Hdir]; [done|].
    apply Lstat_inr in Hlstat as (f & Hf & Hisdir). rewrite Hdir in Hf.
    assert (IsDir info = true) by (apply Hisdir; congruence). congruence.
Qed.

Lemma Walk_second w0 w F G fuel1 fuel2 dir :
  walked w0 w F G → handled w0 F G fuel1 dir →
  Clean dir = dir ∨ w0 !! Clean dir = Some Directory →
  calm w (fuel1 < fuel2) (Walk fuel2 dir walkFn).
Proof.
  intros Hw Hhandled Hroot s Hs. unfold handled in Hhandled.
  unfold Walk, mbind, M_bind, bind, lstat. cbn [fst snd].
  change (rename.Lstat (world s) dir) with (renamesim.Lstat (tree s) dir).
  rewrite Hs.
  set (s1 := {| world := world s; trace := trace s ++ [EvLstat dir] |}).
  destruct (renamesim.Lstat w dir) as [err|info] eqn:Hlstat.
  { rewrite walkFn_nil. split; [done|]. split; [|by auto].
    exists [EvLstat dir]. split; [done|]. by repeat constructor. }
  pose proof Hlstat as (f & Hf & Hisdir)%Lstat_inr.
  assert (f = Directory → ∃ level, G !! dir = Some level ∧ level ≤ fuel1) as Hlevel.
  { intros ->. destruct Hhandled as [?|[Hin|[[_ Hnodir]|Hgone]]]; [done|..].
    - by destruct (walked_file _ _ _ _ Hw _ Hin).
    - by apply (walked_dirs _ _ _ _ Hw) in Hf.
    - apply (walked_dirs _ _ _ _ Hw) in Hf. congruence. }
  assert (f ≠ Directory → Clean dir = dir ∧ (yamlFile dir → dir ∈ F)) as Hfile.
  { intros Hnodir.
    assert (Clean dir = dir) as Hclean.
    { destruct Hroot as [?|Hdir]; [done|].
      apply (walked_dirs _ _ _ _ Hw) in Hdir. congruence. }
    split; [done|]. intros Hyaml. rewrite Hclean in *.
    destruct Hhandled as [(level & Hl & _)|[Hin|[[Hno _]|Hgone]]]; [| done..|].
    - destruct (walked_dir _ _ _ _ Hw _ _ Hl) as [_ Hdir].
      rewrite Hclean in Hdir. congruence.
    - destruct (decide (dir ∈ F)) as [?|Hnot]; [done|].
      rewrite <-(walked_untouched _ _ _ _ Hw _ Hnot) in Hgone. congruence. }
  destruct (walk_second w0 w F G fuel2 dir info Hw Hlstat) with (s := s1)
    as (Hs2 & (evs & Htr & Hevs) & Hr & Hdone).
  - intros Hinfo. apply Hfile. intros ->.
    assert (IsDir info = true) by (by apply Hisdir). congruence.
  - intros Hinfo%Hisdir. destruct (Hlevel Hinfo) as (level & ? & _).
    by exists level.
  - exact Hs.
  - split; [done|]. split; [|split; [done|]].
    + exists (EvLstat dir :: evs). rewrite Htr. cbn [s1 trace].
      rewrite <-app_assoc. split; [done|]. by constructor.
    + intros Hfuel. apply Hdone. split; [lia|].
      intros level Hl. destruct (walked_dir _ _ _ _ Hw _ _ Hl) as [_ Hdir].
      rewrite Hf in Hdir. destruct (Hlevel ltac:(congruence)) as (level' & ? & ?).
      assert (level = level') as -> by congruence. lia.
Qed.

(** A directory argument that names nothing, or a file that is no manifest:
    the run looks at it and does no more. *)
Lemma Run_root_missing w dir fuel s :
  tree s = w → w !! Clean dir = None →
  Run fuel {| Dir := dir |} s = (Done tt, record s [EvLstat dir]).
Proof.
  intros Hs Hd. unfold Run, wrapf, Walk, mbind, M_bind, bind, lstat.
  cbn [fst snd Dir].
  change (rename.Lstat (world s) dir) with (renamesim.Lstat (tree s) dir).
  unfold renamesim.Lstat. by rewrite Hs, Hd.
Qed.

Lemma Run_root_unparsable w dir fuel s :
  tree s = w → w !! Clean dir = Some Unparsable →
  Run fuel {| Dir := dir |} s =
    match fuel with
    | 0 => (OutOfFuel, record s [EvLstat dir])
    | S _ =>
        if decide (yamlFile dir) then
          match renamesim.ReadFile w dir with
          | inl e =>
              (Failed (Wrap (Wrap e ("failed to load file " +:+ dir))
                            ("failed to rename YAML files in dir " +:+ dir)),
               record s [EvLstat dir; EvReadFile dir (Some e)])
          | inr _ => (Done tt, s)
          end
        else (Done tt, record s [EvLstat dir])
    end.
Proof.
  intros <- Hd. unfold Run, wrapf, Walk, mbind, M_bind, bind, lstat.
  cbn [fst snd Dir].
  change (rename.Lstat (world s) dir) with (renamesim.Lstat (tree s) dir).
  unfold renamesim.Lstat. rewrite Hd.
  destruct fuel as [|fuel]; [done|]. cbn [walk IsDir negb].
  case_decide as Hyaml.
  - rewrite walkFn_file by done. cbn [tree world].
    change (world s) with (tree s).
    unfold renamesim.ReadFile. rewrite Hd. unfold record. cbn [world trace].
    by rewrite <-app_assoc.
  - by rewrite walkFn_skip by auto.
Qed.

(** C5, as far as it holds: the renamer is idempotent over every tree of the
    in-memory file system whose manifests have canonical names with no
    separator in them, when its directory is given as a clean path or does
    not name a manifest.  After a first run that returned normally, a second
    run over the tree it left renames nothing and leaves the tree as it is:
    every YAML file it parses is at the path computed for it, and no parse
    fails.  With more fuel than the first run had, the second run returns
    normally. *)
Theorem Run_twice_renames_nothing (w : gmap string file) (dir : string)
    (fuel1 fuel2 : nat) :
  plainNames w →
  Clean dir = dir ∨ (∀ kind name, w !! Clean dir ≠ Some (Manifest kind name)) →
  let o := {| Dir := dir |} in
  let first := Run fuel1 o (start w) in
  first.1 = Done tt →
  let second := Run fuel2 o (start (tree first.2)) in
  tree second.2 = tree first.2
  ∧ Forall (still (tree first.2)) (trace second.2)
  ∧ (second.1 = Done tt ∨ second.1 = OutOfFuel)
  ∧ (fuel1 < fuel2 → second.1 = Done tt).
Proof.
  intros Hplain Hroot o first Hfirst second.
  assert (Clean dir = dir ∨ w !! Clean dir = Some Directory
          ∨ w !! Clean dir = None ∨ w !! Clean dir = Some Unparsable) as Hcases.
  { destruct Hroot as [?|Hno]; [by left|]. right.
    destruct (w !! Clean dir) as [[|kind name|]|]; auto.
    by destruct (Hno kind name). }
  assert (Clean dir = dir ∨ w !! Clean dir = Some Directory →
          tree second.2 = tree first.2
          ∧ Forall (still (tree first.2)) (trace second.2)
          ∧ (second.1 = Done tt ∨ second.1 = OutOfFuel)
          ∧ (fuel1 < fuel2 → second.1 = Done tt)) as Hmain.
  { intros Hroot'.
    assert ((Walk fuel1 dir walkFn (start w)).1 = Done tt
            ∧ first.2 = (Walk fuel1 dir walkFn (start w)).2) as [Hwalk Hstate].
    { subst first. unfold Run, wrapf in *. cbn [Dir o] in *.
      by destruct (Walk fuel1 dir walkFn (start w)) as [[] ?]. }
    destruct (Walk_first w fuel1 dir Hplain Hroot' Hwalk)
      as (F & G & Hw & Hhandled).
    rewrite <-Hstate in Hw.
    destruct (Walk_second w (tree first.2) F G fuel1 fuel2 dir Hw Hhandled Hroot'
                (start (tree first.2)) eq_refl)
      as (Hs2 & (evs & Htr & Hevs) & Hr & Hdone).
    subst second. unfold Run, wrapf. cbn [Dir o].
    destruct (Walk fuel2 dir walkFn (start (tree first.2))) as [r s2].
    cbn [fst snd] in *.
    destruct Hr as [-> | ->]; cbn [fst snd].
    - split; [done|]. split; [by rewrite Htr|]. auto.
    - split; [done|]. split; [by rewrite Htr|]. auto. }
  destruct Hcases as [?|[?|[Hnone|Hbad]]]; [by apply Hmain; auto..| |].
  - subst first second o.
    rewrite (Run_root_missing w dir fuel1 (start w)) in * by done.
    cbn [fst snd]. change (tree (record (start w) [EvLstat dir])) with w.
    rewrite (Run_root_missing w dir fuel2 (start w)) by done.
    cbn [fst snd record tree world trace start app].
    split; [done|]. split; [by repeat constructor|]. auto.
  - subst first second o.
    rewrite (Run_root_unparsable w dir fuel1 (start w)) in * by done.
    destruct fuel1 as [|fuel1]; [done|].
    case_decide as Hyaml.
    { unfold renamesim.ReadFile in Hfirst. by rewrite Hbad in Hfirst. }
    cbn [fst snd]. change (tree (record (start w) [EvLstat dir])) with w.
    rewrite (Run_root_unparsable w dir fuel2 (start w)) by done.
    destruct fuel2 as [|fuel2]; [|rewrite decide_False by done];
      cbn [fst snd record tree world trace start app];
      (split; [done|]); (split; [by repeat constructor|]);
      (split; [by auto|]); [lia|done].
Qed.

Lemma plainNames_checked (w : gmap string file) :
  map_Forall (λ _ f, match f with
                     | Manifest kind name => noSeparator (canonicalName kind name)
                     | _ => True
                     end) w →
  plainNames w.
Proof. intros Hall k kind name Hk. exact (Hall k _ Hk). Qed.

(** Two runs from the directory [d//] over a tree with a service in
    [d/x.yaml] and a deployment in [d/e/y.yml]: the first run renames both
    files, the second parses them where they are and renames nothing. *)
Lemma Run_twice_renames_nothing_witness :
  let w : gmap string file :=
    list_to_map [("d", Directory); ("d/e", Directory);
                 ("d/x.yaml", Manifest "Service" "foo");
                 ("d/e/y.yml", Manifest "Deployment" "bar");
                 ("d/notes.txt", Unparsable)] in
  let o := {| Dir := "d//" |} in
  let first := Run 5 o (start w) in
  let second := Run 6 o (start (tree first.2)) in
  (plainNames w
   ∧ w !! Clean "d//" = Some Directory
   ∧ first.1 = Done tt
   ∧ trace first.2
     = [EvLstat "d//"; EvReadDir "d//"; EvLstat "d/e"; EvReadDir "d/e";
        EvLstat "d/e/y.yml"; EvReadFile "d/e/y.yml" None;
        EvInfo "renaming y.yml => bar-deploy.yml";
        EvRename "d/e/y.yml" "d/e/bar-deploy.yml" None;
        EvLstat "d/notes.txt";
        EvLstat "d/x.yaml"; EvReadFile "d/x.yaml" None;
        EvInfo "renaming x.yaml => foo-svc.yaml";
        EvRename "d/x.yaml" "d/foo-svc.yaml" None])
  ∧ second.1 = Done tt
  ∧ tree second.2 = tree first.2
  ∧ Forall (still (tree first.2)) (trace second.2).
Proof.
  intros w o first second.
  assert (Hhyp : plainNames w
                 ∧ w !! Clean "d//" = Some Directory
                 ∧ first.1 = Done tt
                 ∧ trace first.2
     = [EvLstat "d//"; EvReadDir "d//"; EvLstat "d/e"; EvReadDir "d/e";
        EvLstat "d/e/y.yml"; EvReadFile "d/e/y.yml" None;
        EvInfo "renaming y.yml => bar-deploy.yml";
        EvRename "d/e/y.yml" "d/e/bar-deploy.yml" None;
        EvLstat "d/notes.txt";
        EvLstat "d/x.yaml"; EvReadFile "d/x.yaml" None;
        EvInfo "renaming x.yaml => foo-svc.yaml";
        EvRename "d/x.yaml" "d/foo-svc.yaml" None]).
  { split; [|split; [|split]]; [|vm_compute; reflexivity..].
    apply plainNames_checked. apply (bool_decide_unpack _). by vm_compute. }
  split; [exact Hhyp|]. destruct Hhyp as (Hplain & Hroot & Hfirst & _).
  assert (Hnone : ∀ kind name, w !! Clean "d//" ≠ Some (Manifest kind name))
    by (intros kind name; by rewrite Hroot).
  destruct (Run_twice_renames_nothing w "d//" 5 6 Hplain (or_intror Hnone) Hfirst)
    as (Htree & Hstill & _ & Hdone).
  split; [apply Hdone; lia|]. by split.
Defined.

(** The directory of the run must be clean when it is a file.  With
    [./foo-svc.yaml] the file is at the path computed from its name, and yet
    every run renames it, to the cleaned path, which is where it is. *)
Example unclean_file_root_renames_again :
  let w : gmap string file :=
    list_to_map [(".", Directory); ("foo-svc.yaml", Manifest "Service" "foo")] in
  let o := {| Dir := "./foo-svc.yaml" |} in
  let first := Run 5 o (start w) in
  let second := Run 5 o (start (tree first.2)) in
  first.1 = Done tt
  ∧ tree first.2 = w
  ∧ trace second.2
    = [EvLstat "./foo-svc.yaml"; EvReadFile "./foo-svc.yaml" None;
       EvInfo "renaming foo-svc.yaml => foo-svc.yaml";
       EvRename "./foo-svc.yaml" "foo-svc.yaml" None].
Proof. repeat split; vm_compute; reflexivity. Qed.

(** A separator in a name does not always make the second run rename: the
    service [a/../b] goes to [b-svc.yaml], and stays there. *)
Example dotdot_name_is_settled :
  newPathOf "x.yaml" "Service" "a/../b" = "b-svc.yaml"
  ∧ newPathOf "b-svc.yaml" "Service" "a/../b" = "b-svc.yaml".
Proof. split; vm_compute; reflexivity. Qed.

End rename_twice.
